(** * Catalog backoffice: store, mutation engine, public query and session
    cookies.

    A shallow embedding of

      - [src/lib/catalog/store.ts]   ([readCatalog], [writeCatalog]),
      - [src/lib/catalog/mutate.ts]  ([slugify], [uniqueId], [createCategory],
        [deleteCategory], [createProduct], [deleteProduct]),
      - [src/lib/catalog/query.ts]   ([getPublicCatalog]),
      - [src/lib/backoffice/auth.ts] ([isBackofficeAuthed],
        [setBackofficeSessionCookie], [clearBackofficeSessionCookie],
        [verifyBackofficePassword] and their helpers),
      - the server actions that call them ([loginAction], [logoutAction],
        [createCategoryAction], [deleteCategoryAction],
        [createProductAction], [deleteProductAction]).

    Conventions of the embedding.

      - A JavaScript string is a [string] holding the UTF-8 bytes of its
        text, a lone surrogate as its three bytes.  [length] counts UTF-16
        code units, [trim] and [\s] know the white space of ECMAScript, and
        the regular expressions of [slugify], whose classes are ASCII, work
        on the bytes.  The catalog file holds UTF-8.  A [Buffer] is a
        [list Z] of bytes.
      - The async functions run against an explicit [World]: the catalog
        file, the clock and the entropy pool.  A computation is a function
        [World -> Outcome A * World]; a thrown exception keeps the world
        reached so far.
      - Built-ins of the platform that have no source in the repository are
        either written out ([JSON.parse], [JSON.stringify], base64url,
        SHA-256, HMAC, [Date.prototype.toISOString], [crypto.randomUUID]) or,
        for the WHATWG URL parser, ICU collation and the case conversion of
        Unicode outside ASCII, taken as the fields of a [Host].
      - The catalog directory exists and can be written: [fs.mkdir],
        [fs.writeFile] and [fs.rename] do not fail.  What is proved of a
        call that writes is proved of the call whose write goes through. *)

From Stdlib Require Import ZArith List String Ascii Bool Arith Lia.
From Stdlib Require Import Sorted Permutation.
Import ListNotations.

Local Open Scope string_scope.
Local Open Scope Z_scope.

(* ================================================================== *)
(** * JavaScript strings *)
(* ================================================================== *)

Module JsString.

Definition code (c : ascii) : Z := Z.of_N (N_of_ascii c).
Definition chr (z : Z) : ascii := ascii_of_N (Z.to_N (z mod 256)).

Definition dquote : ascii := "034"%char.
Definition squote : ascii := "039"%char.

Definition is_ascii (c : ascii) : bool := code c <? 128.

Definition is_upper (c : ascii) : bool :=
  let n := code c in (65 <=? n) && (n <=? 90).

Definition is_digit (c : ascii) : bool :=
  let n := code c in (48 <=? n) && (n <=? 57).

(** The class [[a-z0-9]] of [slugify]. *)
Definition is_lower_alnum (c : ascii) : bool :=
  let n := code c in ((97 <=? n) && (n <=? 122)) || is_digit c.

Definition lower_char (c : ascii) : ascii :=
  if is_upper c then chr (code c + 32) else c.

(** [s.toLowerCase()] on ASCII text: [A-Z] become [a-z]. *)
Fixpoint fold_ascii (s : string) : string :=
  match s with
  | EmptyString => EmptyString
  | String c r => String (lower_char c) (fold_ascii r)
  end.

Fixpoint dropWhile (p : ascii -> bool) (s : string) : string :=
  match s with
  | EmptyString => EmptyString
  | String c r => if p c then dropWhile p r else s
  end.

(** Remove the longest suffix made of characters satisfying [p]. *)
Fixpoint dropWhileEnd (p : ascii -> bool) (s : string) : string :=
  match s with
  | EmptyString => EmptyString
  | String c r =>
      match dropWhileEnd p r with
      | EmptyString => if p c then EmptyString else String c EmptyString
      | r' => String c r'
      end
  end.


(** [s.replace(/p+/g, by)]: every maximal run of characters satisfying
    [p] becomes [by]; [inrun] tells that the previous character was in
    a run. *)
Fixpoint replaceRuns (p : ascii -> bool) (by_ : string) (inrun : bool)
  (s : string) : string :=
  match s with
  | EmptyString => EmptyString
  | String c r =>
      if p c
      then if inrun then replaceRuns p by_ true r
           else by_ ++ replaceRuns p by_ true r
      else String c (replaceRuns p by_ false r)
  end.

(** [s.replace(/[...]/g, empty)] for a single-character class. *)
Fixpoint removeAll (p : ascii -> bool) (s : string) : string :=
  match s with
  | EmptyString => EmptyString
  | String c r => if p c then removeAll p r else String c (removeAll p r)
  end.

(** [s.split(sep)] for a one-character separator; [cur] is the piece
    being read. *)
Fixpoint split_go (sep : ascii) (cur : string) (s : string) : list string :=
  match s with
  | EmptyString => [cur]
  | String c r =>
      if Ascii.eqb c sep
      then cur :: split_go sep EmptyString r
      else split_go sep (cur ++ String c EmptyString) r
  end.

Definition split (sep : ascii) (s : string) : list string :=
  split_go sep EmptyString s.

(** Truthiness of a string: [!s] is [true] exactly on the empty string. *)
Definition falsy (s : string) : bool :=
  match s with EmptyString => true | _ => false end.

(** The number of bytes. *)
Definition size (s : string) : Z := Z.of_nat (String.length s).

(** [a || b] on strings. *)
Definition or_else (a b : string) : string := if falsy a then b else a.

Fixpoint repeat_string (n : nat) (s : string) : string :=
  match n with O => EmptyString | S k => s ++ repeat_string k s end.

(** Code-unit comparison of two strings. *)
Fixpoint compare (a b : string) : comparison :=
  match a, b with
  | EmptyString, EmptyString => Eq
  | EmptyString, String _ _ => Lt
  | String _ _, EmptyString => Gt
  | String x a', String y b' =>
      match Z.compare (code x) (code y) with
      | Eq => compare a' b'
      | o => o
      end
  end.

(** Every character of the string satisfies [p]. *)
Fixpoint string_forall (p : ascii -> bool) (s : string) : bool :=
  match s with
  | EmptyString => true
  | String c r => p c && string_forall p r
  end.

Definition not_dot (c : ascii) : bool := negb (code c =? 46).

Definition bytes_of (s : string) : list Z := map code (list_ascii_of_string s).
Definition of_bytes (l : list Z) : string := string_of_list_ascii (map chr l).

(** ** Characters *)

(** A byte [10xxxxxx], which continues a character. *)
Definition is_continuation (c : ascii) : bool :=
  let n := code c in (128 <=? n) && (n <=? 191).

(** How many continuation bytes the first byte of a character
    announces. *)
Definition trail (c : ascii) : nat :=
  let n := code c in
  if n <? 192 then 0%nat
  else if n <? 224 then 1%nat
  else if n <? 240 then 2%nat
  else if n <? 248 then 3%nat
  else 0%nat.

(** The characters of a text, in order: a first byte with the
    continuation bytes that follow it, as many as it announces at most;
    [cur] is the character being read and [pending] the number of bytes
    it still expects. *)
Fixpoint chars_go (pending : nat) (cur : string) (s : string) : list string :=
  match s with
  | EmptyString => [cur]
  | String c r =>
      match pending with
      | S k =>
          if is_continuation c then chars_go k (cur ++ String c EmptyString) r
          else cur :: chars_go (trail c) (String c EmptyString) r
      | O => cur :: chars_go (trail c) (String c EmptyString) r
      end
  end.

Definition chars (s : string) : list string :=
  match s with
  | EmptyString => []
  | String c r => chars_go (trail c) (String c EmptyString) r
  end.

Fixpoint glue (l : list string) : string :=
  match l with
  | [] => EmptyString
  | x :: rest => x ++ glue rest
  end.

(** The UTF-16 code units of a character: two for a character of four
    bytes, which lies outside the basic plane, one otherwise. *)
Definition units (ch : string) : Z :=
  if Nat.leb 4 (String.length ch) then 2 else 1.

(** [s.length] *)
Definition len (s : string) : Z :=
  fold_right (fun ch n => units ch + n) 0 (chars s).

(** [WhiteSpace] and [LineTerminator] of ECMAScript, the characters
    matched by [\s] and removed by [trim]: U+0009 to U+000D, U+0020,
    U+00A0, U+1680, U+2000 to U+200A, U+2028, U+2029, U+202F, U+205F,
    U+3000 and U+FEFF. *)
Definition white_space : list string :=
  map of_bytes
    [ [9]; [10]; [11]; [12]; [13]; [32]; [194; 160]; [225; 154; 128];
      [226; 128; 128]; [226; 128; 129]; [226; 128; 130]; [226; 128; 131];
      [226; 128; 132]; [226; 128; 133]; [226; 128; 134]; [226; 128; 135];
      [226; 128; 136]; [226; 128; 137]; [226; 128; 138];
      [226; 128; 168]; [226; 128; 169]; [226; 128; 175]; [226; 129; 159];
      [227; 128; 128]; [239; 187; 191] ].

Definition is_space_char (ch : string) : bool :=
  existsb (String.eqb ch) white_space.

Fixpoint drop_while {A} (p : A -> bool) (l : list A) : list A :=
  match l with
  | [] => []
  | x :: rest => if p x then drop_while p rest else l
  end.

(** Remove the longest suffix made of elements satisfying [p]. *)
Fixpoint drop_while_end {A} (p : A -> bool) (l : list A) : list A :=
  match l with
  | [] => []
  | x :: rest =>
      match drop_while_end p rest with
      | [] => if p x then [] else [x]
      | rest' => x :: rest'
      end
  end.

(** Every maximal run of elements satisfying [p] becomes the one
    element [by_]. *)
Fixpoint replace_runs {A} (p : A -> bool) (by_ : A) (inrun : bool) (l : list A)
  : list A :=
  match l with
  | [] => []
  | x :: rest =>
      if p x
      then if inrun then replace_runs p by_ true rest
           else by_ :: replace_runs p by_ true rest
      else x :: replace_runs p by_ false rest
  end.

(** [s.trim()] *)
Definition trim (s : string) : string :=
  glue (drop_while_end is_space_char (drop_while is_space_char (chars s))).

(** [s.replace(/\s+/g, " ")] *)
Definition collapse_spaces (s : string) : string :=
  glue (replace_runs is_space_char " " false (chars s)).

End JsString.

(* ================================================================== *)
(** * JSON values, [JSON.parse] and [JSON.stringify] *)
(* ================================================================== *)

Module Json.
Import JsString.

(** A number [JNum m e] stands for the decimal [m * 10^e], kept exact
    (the rounding of a long literal to a double is not modelled).  An
    object keeps its members in source order; a later duplicate key
    shadows an earlier one on lookup, as [JSON.parse] has it. *)
Inductive json : Type :=
| JNull
| JBool (b : bool)
| JNum (m e : Z)
| JStr (s : string)
| JArr (items : list json)
| JObj (members : list (string * json)).

(** ** Numbers *)

Definition pow10 (e : Z) : Z := 10 ^ e.

(** [m * 10^e ?= z]. *)
Definition num_compare_Z (m e z : Z) : comparison :=
  if 0 <=? e then Z.compare (m * pow10 e) z
  else Z.compare m (z * pow10 (- e)).

Definition num_eqb_Z (m e z : Z) : bool :=
  match num_compare_Z m e z with Eq => true | _ => false end.

(** [m * 10^e <= z]. *)
Definition num_leb_Z (m e z : Z) : bool :=
  match num_compare_Z m e z with Gt => false | _ => true end.

Definition digit_char (d : Z) : ascii := chr (48 + d).

(** Decimal digits of a non-negative integer, most significant first,
    pushed in front of [acc]. *)
Fixpoint digits_go (fuel : nat) (n : Z) (acc : string) : string :=
  match fuel with
  | O => acc
  | S f =>
      let acc' := String (digit_char (n mod 10)) acc in
      if n <? 10 then acc' else digits_go f (n / 10) acc'
  end.

Definition digits_of (n : Z) : string :=
  digits_go (S (Z.to_nat (Z.log2 n))) n EmptyString.

(** [String(z)] for an integer below 1e21 in magnitude. *)
Definition string_of_Z (z : Z) : string :=
  if z <? 0 then String "-" (digits_of (- z)) else digits_of z.

(** Split a string into its longest prefix of decimal digits and the
    rest. *)
Fixpoint span_digits (s : string) : string * string :=
  match s with
  | EmptyString => (EmptyString, EmptyString)
  | String c r =>
      if is_digit c
      then let (d, rest) := span_digits r in (String c d, rest)
      else (EmptyString, s)
  end.

Fixpoint digits_value (acc : Z) (ds : string) : Z :=
  match ds with
  | EmptyString => acc
  | String c r => digits_value (acc * 10 + (code c - 48)) r
  end.

(** The integer part of a JSON number: a lone zero, or a non-empty run
    of digits that does not start with a zero. *)
Definition span_int (s : string) : option (string * string) :=
  match s with
  | String c r =>
      if code c =? 48 then Some (String c EmptyString, r)
      else if is_digit c then Some (span_digits s)
      else None
  | EmptyString => None
  end.

Definition span_frac (s : string) : option (string * string) :=
  match s with
  | String c r =>
      if code c =? 46 then
        match span_digits r with
        | (EmptyString, _) => None
        | (ds, rest) => Some (ds, rest)
        end
      else Some (EmptyString, s)
  | EmptyString => Some (EmptyString, s)
  end.

Definition span_exp (s : string) : option (Z * string) :=
  let after_sign (neg : bool) (r : string) :=
    match span_digits r with
    | (EmptyString, _) => None
    | (ds, rest) =>
        let v := digits_value 0 ds in
        Some (if neg then - v else v, rest)
    end in
  match s with
  | String c r =>
      if (code c =? 101) || (code c =? 69)
      then match r with
           | String c' r' =>
               if code c' =? 45 then after_sign true r'
               else if code c' =? 43 then after_sign false r'
               else after_sign false r
           | EmptyString => after_sign false r
           end
      else Some (0, s)
  | EmptyString => Some (0, s)
  end.

Definition parse_number (s : string) : option (json * string) :=
  let (neg, s1) :=
    match s with
    | String c r => if code c =? 45 then (true, r) else (false, s)
    | EmptyString => (false, s)
    end in
  match span_int s1 with
  | None => None
  | Some (ip, s2) =>
      match span_frac s2 with
      | None => None
      | Some (fp, s3) =>
          match span_exp s3 with
          | None => None
          | Some (ex, s4) =>
              let mag := digits_value (digits_value 0 ip) fp in
              Some (JNum (if neg then - mag else mag)
                         (ex - size fp), s4)
          end
      end
  end.

(** A character that cannot continue a number. *)
Definition ends_number (c : ascii) : Prop :=
  is_digit c = false /\ code c <> 46 /\ code c <> 101 /\ code c <> 69.

(** ** Strings *)

Definition hex_value (c : ascii) : option Z :=
  let n := code c in
  if is_digit c then Some (n - 48)
  else if (97 <=? n) && (n <=? 102) then Some (n - 87)
  else if (65 <=? n) && (n <=? 70) then Some (n - 55)
  else None.

Definition hex4 (a b c d : ascii) : option Z :=
  match hex_value a, hex_value b, hex_value c, hex_value d with
  | Some x, Some y, Some z, Some w => Some (((x * 16 + y) * 16 + z) * 16 + w)
  | _, _, _, _ => None
  end.

(** UTF-8 bytes of a UTF-16 code unit given by a [\uXXXX] escape; a
    surrogate that stands alone is written as its three bytes. *)
Definition utf8_of_unit (u : Z) : string :=
  if u <? 128 then String (chr u) EmptyString
  else if u <? 2048 then
    String (chr (192 + u / 64)) (String (chr (128 + u mod 64)) EmptyString)
  else
    String (chr (224 + u / 4096))
      (String (chr (128 + (u / 64) mod 64))
         (String (chr (128 + u mod 64)) EmptyString)).

Definition is_high_surrogate (u : Z) : bool := (55296 <=? u) && (u <=? 56319).
Definition is_low_surrogate (u : Z) : bool := (56320 <=? u) && (u <=? 57343).

(** UTF-8 bytes of the character outside the basic plane that a high
    and a low surrogate make. *)
Definition utf8_of_pair (hi lo : Z) : string :=
  let cp := 65536 + (hi - 55296) * 1024 + (lo - 56320) in
  String (chr (240 + cp / 262144))
    (String (chr (128 + (cp / 4096) mod 64))
       (String (chr (128 + (cp / 64) mod 64))
          (String (chr (128 + cp mod 64)) EmptyString))).

Definition unescape (c : ascii) : option ascii :=
  let n := code c in
  if n =? 34 then Some c            (* quote *)
  else if n =? 92 then Some c       (* backslash *)
  else if n =? 47 then Some c       (* slash *)
  else if n =? 98 then Some (chr 8)
  else if n =? 102 then Some (chr 12)
  else if n =? 110 then Some (chr 10)
  else if n =? 114 then Some (chr 13)
  else if n =? 116 then Some (chr 9)
  else None.

(** The characters of a string literal after its opening quote, up to
    and including the closing quote. *)
Fixpoint parse_string_body (s : string) : option (string * string) :=
  match s with
  | EmptyString => None
  | String c r =>
      if code c =? 34 then Some (EmptyString, r)
      else if code c =? 92 then
        match r with
        | String "u" (String h1 (String h2 (String h3 (String h4 r')))) =>
            match hex4 h1 h2 h3 h4 with
            | None => None
            | Some u =>
                let alone :=
                  match parse_string_body r' with
                  | Some (body, rest) => Some (utf8_of_unit u ++ body, rest)
                  | None => None
                  end in
                if is_high_surrogate u then
                  match r' with
                  | String b (String "u"
                      (String k1 (String k2 (String k3 (String k4 r''))))) =>
                      match hex4 k1 k2 k3 k4 with
                      | Some lo =>
                          if (code b =? 92) && is_low_surrogate lo then
                            match parse_string_body r'' with
                            | Some (body, rest) =>
                                Some (utf8_of_pair u lo ++ body, rest)
                            | None => None
                            end
                          else alone
                      | None => alone
                      end
                  | _ => alone
                  end
                else alone
            end
        | String x r' =>
            match unescape x, parse_string_body r' with
            | Some y, Some (body, rest) => Some (String y body, rest)
            | _, _ => None
            end
        | EmptyString => None
        end
      else if code c <? 32 then None
      else match parse_string_body r with
           | Some (body, rest) => Some (String c body, rest)
           | None => None
           end
  end.

(** ** Values *)

Definition is_json_ws (c : ascii) : bool :=
  let n := code c in (n =? 32) || (n =? 9) || (n =? 10) || (n =? 13).

Definition skip_ws (s : string) : string := dropWhile is_json_ws s.

Fixpoint strip_prefix (p s : string) : option string :=
  match p, s with
  | EmptyString, _ => Some s
  | String a p', String b s' =>
      if Ascii.eqb a b then strip_prefix p' s' else None
  | String _ _, EmptyString => None
  end.

Definition parse_literal (lit : string) (v : json) (s : string)
  : option (json * string) :=
  match strip_prefix lit s with
  | Some rest => Some (v, rest)
  | None => None
  end.

(** Recursive descent; [fuel] bounds the nesting depth plus the number
    of elements read, both at most the length of the text. *)
Fixpoint parse_value (fuel : nat) (s : string) : option (json * string) :=
  match fuel with
  | O => None
  | S f =>
      match skip_ws s with
      | EmptyString => None
      | String c r as t =>
          if code c =? 123 then            (* opening brace *)
            match skip_ws r with
            | String c' r' =>
                if code c' =? 125 then Some (JObj [], r')
                else match parse_members f (skip_ws r) with
                     | Some (ms, rest) => Some (JObj ms, rest)
                     | None => None
                     end
            | EmptyString => None
            end
          else if code c =? 91 then        (* opening bracket *)
            match skip_ws r with
            | String c' r' =>
                if code c' =? 93 then Some (JArr [], r')
                else match parse_elements f r with
                     | Some (xs, rest) => Some (JArr xs, rest)
                     | None => None
                     end
            | EmptyString => None
            end
          else if code c =? 34 then
            match parse_string_body r with
            | Some (str, rest) => Some (JStr str, rest)
            | None => None
            end
          else if code c =? 116 then parse_literal "true" (JBool true) t
          else if code c =? 102 then parse_literal "false" (JBool false) t
          else if code c =? 110 then parse_literal "null" JNull t
          else parse_number t
      end
  end

(** One or more values separated by commas, then the closing bracket. *)
with parse_elements (fuel : nat) (s : string)
  : option (list json * string) :=
  match fuel with
  | O => None
  | S f =>
      match parse_value f s with
      | None => None
      | Some (v, rest) =>
          match skip_ws rest with
          | String c r =>
              if code c =? 93 then Some ([v], r)
              else if code c =? 44 then
                match parse_elements f r with
                | Some (vs, rest') => Some (v :: vs, rest')
                | None => None
                end
              else None
          | EmptyString => None
          end
      end
  end

(** One or more [key : value] members separated by commas, then the
    closing brace; [s] starts at the opening quote of the key. *)
with parse_members (fuel : nat) (s : string)
  : option (list (string * json) * string) :=
  match fuel with
  | O => None
  | S f =>
      match s with
      | String q r =>
          if code q =? 34 then
            match parse_string_body r with
            | None => None
            | Some (key, rest) =>
                match skip_ws rest with
                | String colon rest1 =>
                    if code colon =? 58 then
                      match parse_value f rest1 with
                      | None => None
                      | Some (v, rest2) =>
                          match skip_ws rest2 with
                          | String c r2 =>
                              if code c =? 125 then Some ([(key, v)], r2)
                              else if code c =? 44 then
                                match parse_members f (skip_ws r2) with
                                | Some (ms, rest') =>
                                    Some ((key, v) :: ms, rest')
                                | None => None
                                end
                              else None
                          | EmptyString => None
                          end
                      end
                    else None
                | EmptyString => None
                end
            end
          else None
      | EmptyString => None
      end
  end.

(** [JSON.parse(text)]: [None] stands for the [SyntaxError]. *)
Definition JSON_parse (text : string) : option json :=
  match parse_value (2 * String.length text + 2) text with
  | Some (v, rest) =>
      match skip_ws rest with
      | EmptyString => Some v
      | _ => None
      end
  | None => None
  end.

(** Own-property lookup [o.key] on an object: the last member named
    [key]. *)
Fixpoint get_member (key : string) (ms : list (string * json)) : option json :=
  match ms with
  | [] => None
  | (k, v) :: rest =>
      match get_member key rest with
      | Some later => Some later
      | None => if String.eqb k key then Some v else None
      end
  end.

(** [v.key] for any parsed value [v] and a key that no prototype
    defines: [None] is [undefined].  ([null.key] is reached only through
    [?.] or after a truthiness test in the sources embedded here.) *)
Definition get (key : string) (v : json) : option json :=
  match v with
  | JObj ms => get_member key ms
  | _ => None
  end.

(** ** [JSON.stringify] *)

Definition hex_char (d : Z) : ascii :=
  if d <? 10 then chr (48 + d) else chr (87 + d).

Definition quote_char (c : ascii) : string :=
  let n := code c in
  let esc (x : ascii) := String "\" (String x EmptyString) in
  if n =? 34 then esc c
  else if n =? 92 then esc c
  else if n =? 8 then esc "b"%char
  else if n =? 12 then esc "f"%char
  else if n =? 10 then esc "n"%char
  else if n =? 13 then esc "r"%char
  else if n =? 9 then esc "t"%char
  else if n <? 32 then
    "\u00" ++ String (hex_char (n / 16)) (String (hex_char (n mod 16)) EmptyString)
  else String c EmptyString.

Fixpoint quote_body (s : string) : string :=
  match s with
  | EmptyString => EmptyString
  | String c r => quote_char c ++ quote_body r
  end.

(** [QuoteJSONString].  A lone surrogate, which the engine writes as
    its [\u] escape, stays the three bytes it is here; [JSON.parse] reads
    the one and the other back as the same text. *)
Definition quote (s : string) : string :=
  String dquote (quote_body s ++ String dquote EmptyString).

Fixpoint join (sep : string) (l : list string) : string :=
  match l with
  | [] => EmptyString
  | [x] => x
  | x :: rest => x ++ sep ++ join sep rest
  end.

(** Drop trailing zeros of a digit string. *)
Definition strip_zeros (ds : string) : string :=
  dropWhileEnd (fun c => Ascii.eqb c "0") ds.

(** [String(x)] for the number [m * 10^e]: an integer prints as its
    digits; a fraction prints as integer part, point and fraction
    digits (the format of the platform for magnitudes between 1e-6 and
    1e21). *)
Definition string_of_num (m e : Z) : string :=
  if 0 <=? e then string_of_Z (m * pow10 e)
  else
    let p := pow10 (- e) in
    let a := Z.abs m in
    let fd := digits_of (a mod p) in
    let pad := repeat_string (Z.to_nat (- e) - String.length fd) "0" in
    let frac := strip_zeros (pad ++ fd) in
    let sign := if (m <? 0) then "-" else EmptyString in
    match frac with
    | EmptyString => string_of_Z (m / p)
    | _ => sign ++ digits_of (a / p) ++ "." ++ frac
    end.

(** [JSON.stringify(v, null, gap)] with [gap] spaces of indentation per
    level; [gap = 0] is the compact form [JSON.stringify(v)]. *)
Fixpoint stringify (gap : nat) (level : nat) (v : json) : string :=
  let nl (lv : nat) :=
    match gap with
    | O => EmptyString
    | _ => String (chr 10) (repeat_string (lv * gap) " ")
    end in
  let colon := match gap with O => ":" | _ => ": " end in
  match v with
  | JNull => "null"
  | JBool true => "true"
  | JBool false => "false"
  | JNum m e => string_of_num m e
  | JStr s => quote s
  | JArr [] => "[]"
  | JArr items =>
      "[" ++ nl (S level)
          ++ join ("," ++ nl (S level)) (map (stringify gap (S level)) items)
          ++ nl level ++ "]"
  | JObj [] => "{}"
  | JObj members =>
      "{" ++ nl (S level)
          ++ join ("," ++ nl (S level))
               (map (fun kv : string * json =>
                       quote (fst kv) ++ colon ++ stringify gap (S level) (snd kv))
                    members)
          ++ nl level ++ "}"
  end.

Definition JSON_stringify (v : json) : string := stringify 0 0 v.
Definition JSON_stringify_pretty (v : json) (gap : nat) : string :=
  stringify gap 0 v.

(** Source text with apostrophes standing for double quotes, for the
    examples. *)
Definition js (s : string) : string :=
  string_of_list_ascii
    (map (fun c => if Ascii.eqb c squote then dquote else c)
       (list_ascii_of_string s)).

End Json.

(* ================================================================== *)
(** * Buffers: hexadecimal and base64url *)
(* ================================================================== *)

Module Buffer.
Import JsString.

Definition is_byte (b : Z) : Prop := 0 <= b < 256.

(** [buf.toString("hex")]. *)
Fixpoint toHex (bs : list Z) : string :=
  match bs with
  | [] => EmptyString
  | b :: rest =>
      String (Json.hex_char (b / 16)) (String (Json.hex_char (b mod 16)) (toHex rest))
  end.

(** The character of a 6-bit group in the URL-safe alphabet. *)
Definition sextet_char (n : Z) : ascii :=
  if n <? 26 then chr (65 + n)
  else if n <? 52 then chr (71 + n)
  else if n <? 62 then chr (n - 4)
  else if n =? 62 then "-"%char
  else "_"%char.

(** The decoder's table: both the standard and the URL-safe alphabet
    are legal. *)
Definition char_sextet (c : ascii) : option Z :=
  let n := code c in
  if (65 <=? n) && (n <=? 90) then Some (n - 65)
  else if (97 <=? n) && (n <=? 122) then Some (n - 71)
  else if (48 <=? n) && (n <=? 57) then Some (n + 4)
  else if (n =? 45) || (n =? 43) then Some 62
  else if (n =? 95) || (n =? 47) then Some 63
  else None.

(** [buf.toString("base64url")]: three bytes give four characters; no
    padding. *)
Fixpoint toBase64Url (bs : list Z) : string :=
  match bs with
  | [] => EmptyString
  | [a] =>
      String (sextet_char (a / 4))
        (String (sextet_char ((a mod 4) * 16)) EmptyString)
  | [a; b] =>
      String (sextet_char (a / 4))
        (String (sextet_char ((a mod 4) * 16 + b / 16))
           (String (sextet_char ((b mod 16) * 4)) EmptyString))
  | a :: b :: c :: rest =>
      String (sextet_char (a / 4))
        (String (sextet_char ((a mod 4) * 16 + b / 16))
           (String (sextet_char ((b mod 16) * 4 + c / 64))
              (String (sextet_char (c mod 64)) (toBase64Url rest))))
  end.

(** The legal characters of the input up to the first [=]; an illegal
    character is skipped. *)
Fixpoint sextets (s : string) : list Z :=
  match s with
  | EmptyString => []
  | String c r =>
      if code c =? 61 then []
      else match char_sextet c with
           | Some v => v :: sextets r
           | None => sextets r
           end
  end.

Fixpoint bytes_of_sextets (l : list Z) : list Z :=
  match l with
  | a :: b :: c :: d :: rest =>
      (a * 4 + b / 16) :: ((b mod 16) * 16 + c / 4) :: ((c mod 4) * 64 + d)
        :: bytes_of_sextets rest
  | [a; b; c] => [a * 4 + b / 16; (b mod 16) * 16 + c / 4]
  | [a; b] => [a * 4 + b / 16]
  | _ => []
  end.

(** [Buffer.from(s, "base64url")]: never throws. *)
Definition fromBase64Url (s : string) : list Z := bytes_of_sextets (sextets s).

(** [buf.toString("utf8")] and [Buffer.from(s, "utf8")] on the byte
    model of strings. *)
Definition toUtf8 (bs : list Z) : string := of_bytes bs.
Definition fromUtf8 (s : string) : list Z := bytes_of s.

Fixpoint eqb (a b : list Z) : bool :=
  match a, b with
  | [], [] => true
  | x :: a', y :: b' => (x =? y) && eqb a' b'
  | _, _ => false
  end.

End Buffer.

(* ================================================================== *)
(** * [node:crypto]: SHA-256 and HMAC (FIPS 180-4, RFC 2104) *)
(* ================================================================== *)

Module Crypto.
Local Open Scope list_scope.

Definition mask32 : Z := 0xffffffff.
Definition add32 (x y : Z) : Z := Z.land (x + y) mask32.
Definition rotr (n x : Z) : Z :=
  Z.lor (Z.shiftr x n) (Z.land (Z.shiftl x (32 - n)) mask32).
Definition not32 (x : Z) : Z := Z.lxor x mask32.

Definition Ch (x y z : Z) : Z := Z.lxor (Z.land x y) (Z.land (not32 x) z).
Definition Maj (x y z : Z) : Z :=
  Z.lxor (Z.lxor (Z.land x y) (Z.land x z)) (Z.land y z).
Definition bsig0 (x : Z) : Z := Z.lxor (Z.lxor (rotr 2 x) (rotr 13 x)) (rotr 22 x).
Definition bsig1 (x : Z) : Z := Z.lxor (Z.lxor (rotr 6 x) (rotr 11 x)) (rotr 25 x).
Definition ssig0 (x : Z) : Z := Z.lxor (Z.lxor (rotr 7 x) (rotr 18 x)) (Z.shiftr x 3).
Definition ssig1 (x : Z) : Z := Z.lxor (Z.lxor (rotr 17 x) (rotr 19 x)) (Z.shiftr x 10).

Definition round_constants : list Z :=
  [ 0x428A2F98; 0x71374491; 0xB5C0FBCF; 0xE9B5DBA5;
    0x3956C25B; 0x59F111F1; 0x923F82A4; 0xAB1C5ED5;
    0xD807AA98; 0x12835B01; 0x243185BE; 0x550C7DC3;
    0x72BE5D74; 0x80DEB1FE; 0x9BDC06A7; 0xC19BF174;
    0xE49B69C1; 0xEFBE4786; 0x0FC19DC6; 0x240CA1CC;
    0x2DE92C6F; 0x4A7484AA; 0x5CB0A9DC; 0x76F988DA;
    0x983E5152; 0xA831C66D; 0xB00327C8; 0xBF597FC7;
    0xC6E00BF3; 0xD5A79147; 0x06CA6351; 0x14292967;
    0x27B70A85; 0x2E1B2138; 0x4D2C6DFC; 0x53380D13;
    0x650A7354; 0x766A0ABB; 0x81C2C92E; 0x92722C85;
    0xA2BFE8A1; 0xA81A664B; 0xC24B8B70; 0xC76C51A3;
    0xD192E819; 0xD6990624; 0xF40E3585; 0x106AA070;
    0x19A4C116; 0x1E376C08; 0x2748774C; 0x34B0BCB5;
    0x391C0CB3; 0x4ED8AA4A; 0x5B9CCA4F; 0x682E6FF3;
    0x748F82EE; 0x78A5636F; 0x84C87814; 0x8CC70208;
    0x90BEFFFA; 0xA4506CEB; 0xBEF9A3F7; 0xC67178F2 ].

Definition initial_state : list Z :=
  [ 0x6A09E667; 0xBB67AE85; 0x3C6EF372; 0xA54FF53A;
    0x510E527F; 0x9B05688C; 0x1F83D9AB; 0x5BE0CD19 ].

(** Big-endian bytes of a word, [n] of them. *)
Fixpoint be_bytes (n : nat) (x : Z) : list Z :=
  match n with
  | O => []
  | S k => Z.land (Z.shiftr x (8 * Z.of_nat k)) 0xff :: be_bytes k x
  end.

(** Message, the bit 1, zeros up to 56 modulo 64, the bit length on 8
    bytes. *)
Definition pad (msg : list Z) : list Z :=
  let n := Z.of_nat (List.length msg) in
  let zeros := Z.to_nat ((55 - n) mod 64) in
  msg ++ 0x80 :: repeat 0 zeros ++ be_bytes 8 (8 * n).

Fixpoint words_of (fuel : nat) (bs : list Z) : list Z :=
  match fuel, bs with
  | S f, a :: b :: c :: d :: rest =>
      Z.lor (Z.shiftl a 24) (Z.lor (Z.shiftl b 16) (Z.lor (Z.shiftl c 8) d))
        :: words_of f rest
  | _, _ => []
  end.

(** The words 16..63 of the message schedule; [window] holds the
    previous sixteen, oldest first. *)
Fixpoint schedule (n : nat) (window : list Z) : list Z :=
  match n, window with
  | S k, w16 :: rest =>
      let w15 := nth 0 rest 0 in
      let w7 := nth 8 rest 0 in
      let w2 := nth 13 rest 0 in
      let w := add32 (add32 (ssig1 w2) w7) (add32 (ssig0 w15) w16) in
      w :: schedule k (rest ++ [w])
  | _, _ => []
  end.

Record regs : Type := Regs { ra : Z; rb : Z; rc : Z; rd : Z;
                             re : Z; rf : Z; rg : Z; rh : Z }.

Definition round (s : regs) (kw : Z * Z) : regs :=
  let t1 := add32 (add32 (add32 (rh s) (bsig1 (re s)))
                     (add32 (Ch (re s) (rf s) (rg s)) (fst kw))) (snd kw) in
  let t2 := add32 (bsig0 (ra s)) (Maj (ra s) (rb s) (rc s)) in
  Regs (add32 t1 t2) (ra s) (rb s) (rc s) (add32 (rd s) t1) (re s) (rf s) (rg s).

Definition regs_of (h : list Z) : regs :=
  Regs (nth 0 h 0) (nth 1 h 0) (nth 2 h 0) (nth 3 h 0)
       (nth 4 h 0) (nth 5 h 0) (nth 6 h 0) (nth 7 h 0).

Definition compress (h : list Z) (block : list Z) : list Z :=
  let w := words_of 16 block in
  let ws := w ++ schedule 48 w in
  let s := fold_left round (combine round_constants ws) (regs_of h) in
  map (fun p : Z * Z => add32 (fst p) (snd p))
    (combine h [ra s; rb s; rc s; rd s; re s; rf s; rg s; rh s]).

Fixpoint blocks (fuel : nat) (h : list Z) (bs : list Z) : list Z :=
  match fuel, bs with
  | S f, _ :: _ => blocks f (compress h (firstn 64 bs)) (skipn 64 bs)
  | _, _ => h
  end.

(** [createHash("sha256").update(msg).digest()]. *)
Definition sha256 (msg : list Z) : list Z :=
  let p := pad msg in
  flat_map (be_bytes 4) (blocks (List.length p) initial_state p).

(** [createHmac("sha256", key).update(msg).digest()]. *)
Definition hmac_sha256 (key msg : list Z) : list Z :=
  let k0 := if (64 <? Z.of_nat (List.length key)) then sha256 key else key in
  let k := k0 ++ repeat 0 (64 - List.length k0) in
  let ipad := map (fun b => Z.lxor b 0x36) k in
  let opad := map (fun b => Z.lxor b 0x5c) k in
  sha256 (opad ++ sha256 (ipad ++ msg)).

End Crypto.

(* ================================================================== *)
(** * [Date.prototype.toISOString] *)
(* ================================================================== *)

Module JsDate.
Import JsString.

Definition msPerDay : Z := 86400000.

(** Year within the 400-year era, month and day for a day of the era
    counted from its first of March. *)
Definition civil_of_doe (doe : Z) : Z * Z * Z :=
  let yoe := (doe - doe / 1460 + doe / 36524 - doe / 146096) / 365 in
  let doy := doe - (365 * yoe + yoe / 4 - yoe / 100) in
  let mp := (5 * doy + 2) / 153 in
  let d := doy - (153 * mp + 2) / 5 + 1 in
  let m := if mp <? 10 then mp + 3 else mp - 9 in
  (yoe + (if m <=? 2 then 1 else 0), m, d).

(** Year, month and day of the proleptic Gregorian calendar for a day
    number counted from 1970-01-01. *)
Definition civil_from_days (day : Z) : Z * Z * Z :=
  let z := day + 719468 in
  let era := z / 146097 in
  let '(y, m, d) := civil_of_doe (z mod 146097) in
  (y + era * 400, m, d).

(** The [width] low decimal digits of [n], most significant first. *)
Fixpoint pad_digits (width : nat) (n : Z) : string :=
  match width with
  | O => EmptyString
  | S k => String (Json.digit_char ((n / 10 ^ Z.of_nat k) mod 10)) (pad_digits k n)
  end.

(** Four digits for the years 0 to 9999, a sign and six digits
    otherwise. *)
Definition year_string (y : Z) : string :=
  if (0 <=? y) && (y <=? 9999) then pad_digits 4 y
  else (if y <? 0 then "-" else "+") ++ pad_digits 6 (Z.abs y).

Definition time_string (ms : Z) : string :=
  pad_digits 2 (ms / 3600000) ++ ":" ++ pad_digits 2 ((ms / 60000) mod 60)
    ++ ":" ++ pad_digits 2 ((ms / 1000) mod 60)
    ++ "." ++ pad_digits 3 (ms mod 1000).

Definition date_string (day : Z) : string :=
  let '(y, m, d) := civil_from_days day in
  year_string y ++ "-" ++ pad_digits 2 m ++ "-" ++ pad_digits 2 d.

(** [new Date(t).toISOString()] for a time value [t] in milliseconds. *)
Definition toISOString (t : Z) : string :=
  date_string (t / msPerDay) ++ "T" ++ time_string (t mod msPerDay) ++ "Z".

(** The time values a [Date] can hold. *)
Definition is_time_value (t : Z) : Prop := - 8640000000000000 <= t <= 8640000000000000.

(** The first instant of the year 10000: below it and from the year 0
    on, the year is printed on four digits. *)
Definition year_10000 : Z := 253402300800000.

End JsDate.

(* ================================================================== *)
(** * The world the code runs in *)
(* ================================================================== *)

(** What a [throw] carries. *)
Inductive Exn : Type :=
| Error (message : string)          (** [new Error(message)] *)
| ErrnoException (code : string)    (** a failure of [node:fs], with its [code] *)
| SyntaxError                       (** raised by [JSON.parse] *)
| NotCatalogData.                   (** marks a document outside the declared type *)

Inductive Outcome (A : Type) : Type :=
| Ok (a : A)
| Throw (e : Exn).
Arguments Ok {A} a.
Arguments Throw {A} e.

(** The state of [data/catalog.json]. *)
Inductive File : Type :=
| NoFile                            (** the path does not exist: [ENOENT] *)
| Unreadable (errno : string)       (** reading fails with this code *)
| Bytes (content : string).

Record Cookie : Type := mkCookie {
  value : string;
  httpOnly : bool;
  sameSite : string;
  secure : bool;
  path : string;
  expires : Z
}.

Record World : Type := mkWorld {
  catalog_json : File;                      (** [CATALOG_PATH] *)
  catalog_json_tmp : option string;         (** [CATALOG_PATH + ".tmp"] *)
  clock : Z;                                (** [Date.now()] *)
  entropy : nat -> Z;                       (** the bytes [node:crypto] will draw *)
  drawn : nat;                              (** how many were drawn *)
  process_env : string -> option string;    (** [process.env] *)
  cookie_store : list (string * Cookie)     (** [await cookies()] *)
}.

Definition M (A : Type) : Type := World -> Outcome A * World.

Definition ret {A} (a : A) : M A := fun w => (Ok a, w).
Definition throw {A} (e : Exn) : M A := fun w => (Throw e, w).
Definition bind {A B} (c : M A) (k : A -> M B) : M B :=
  fun w => match c w with
           | (Ok a, w') => k a w'
           | (Throw e, w') => (Throw e, w')
           end.
Definition try_catch {A} (c : M A) (handler : Exn -> M A) : M A :=
  fun w => match c w with
           | (Ok a, w') => (Ok a, w')
           | (Throw e, w') => handler e w'
           end.

Declare Scope js_scope.
Delimit Scope js_scope with js.
Notation "x <- c ;; k" := (bind c (fun x => k))
  (at level 61, c at next level, right associativity) : js_scope.
Notation "c ;;; k" := (bind c (fun _ => k))
  (at level 61, right associativity) : js_scope.
Local Open Scope js_scope.

Definition Date_now : M Z := fun w => (Ok (clock w), w).

(** [new Date().toISOString()]. *)
Definition Date_toISOString_now : M string :=
  fun w => (Ok (JsDate.toISOString (clock w)), w).

(** The world after [n] more bytes of entropy were consumed. *)
Definition draw (n : nat) (w : World) : World :=
  mkWorld (catalog_json w) (catalog_json_tmp w) (clock w) (entropy w)
    (drawn w + n)%nat (process_env w) (cookie_store w).

(** The next [n] bytes of the pool. *)
Definition next_bytes (n : nat) (w : World) : list Z :=
  map (fun i => entropy w (drawn w + i)%nat mod 256) (seq 0 n).

(** [crypto.randomBytes(n)]. *)
Definition randomBytes (n : nat) : M (list Z) :=
  fun w => (Ok (next_bytes n w), draw n w).

(** The text of a version-4 UUID over sixteen bytes. *)
Definition uuid_text (bs : list Z) : string :=
  let b (i : nat) := nth i bs 0 in
  let h (l : list Z) := Buffer.toHex l in
  h [b 0%nat; b 1%nat; b 2%nat; b 3%nat] ++ "-" ++ h [b 4%nat; b 5%nat] ++ "-"
    ++ h [Z.lor (Z.land (b 6%nat) 0x0f) 0x40; b 7%nat] ++ "-"
    ++ h [Z.lor (Z.land (b 8%nat) 0x3f) 0x80; b 9%nat] ++ "-"
    ++ h [b 10%nat; b 11%nat; b 12%nat; b 13%nat; b 14%nat; b 15%nat].

(** [crypto.randomUUID()]. *)
Definition randomUUID : M string :=
  bs <- randomBytes 16 ;; ret (uuid_text bs).

(* ================================================================== *)
(** * [src/lib/catalog/types.ts] *)
(* ================================================================== *)

(** Modelled from the spec: the declarations of [types.ts] are not among
    the sources; the records below follow section 3 of the specification
    and the object literals of [mutate.ts]. *)
Module Category.
Record t : Type := mk { id : string; name : string; createdAt : string }.
End Category.

(** Modelled from the spec: see [Category]; [badgeText] and
    [badgeVariant] are optional properties. *)
Module Product.
Record t : Type := mk {
  id : string;
  categoryId : string;
  name : string;
  description : string;
  priceLabel : string;
  imageUrl : string;
  imageAlt : string;
  badgeText : option string;
  badgeVariant : option string;
  createdAt : string
}.
End Product.

(** Modelled from the spec: the persisted document of section 3. *)
Record CatalogData : Type := mkCatalog {
  version : Z;
  updatedAt : string;
  categories : list Category.t;
  products : list Product.t
}.

Module Typed.
Import Json.

Definition json_of_Category (c : Category.t) : json :=
  JObj [("id", JStr (Category.id c)); ("name", JStr (Category.name c));
        ("createdAt", JStr (Category.createdAt c))].

Definition optional (key : string) (v : option string) : list (string * json) :=
  match v with Some s => [(key, JStr s)] | None => [] end.

(** An [undefined] property is left out by [JSON.stringify]. *)
Definition json_of_Product (p : Product.t) : json :=
  JObj ([("id", JStr (Product.id p)); ("categoryId", JStr (Product.categoryId p));
         ("name", JStr (Product.name p));
         ("description", JStr (Product.description p));
         ("priceLabel", JStr (Product.priceLabel p));
         ("imageUrl", JStr (Product.imageUrl p));
         ("imageAlt", JStr (Product.imageAlt p))]
          ++ optional "badgeText" (Product.badgeText p)
          ++ optional "badgeVariant" (Product.badgeVariant p)
          ++ [("createdAt", JStr (Product.createdAt p))])%list.

Definition json_of_CatalogData (d : CatalogData) : json :=
  JObj [("version", JNum (version d) 0); ("updatedAt", JStr (updatedAt d));
        ("categories", JArr (map json_of_Category (categories d)));
        ("products", JArr (map json_of_Product (products d)))].

Definition get_string (key : string) (v : json) : option string :=
  match get key v with Some (JStr s) => Some s | _ => None end.

(** An optional string property: absent, or a string. *)
Definition get_optional (key : string) (v : json) : option (option string) :=
  match get key v with
  | None => Some None
  | Some (JStr s) => Some (Some s)
  | Some _ => None
  end.

Definition as_Category (v : json) : option Category.t :=
  match get_string "id" v, get_string "name" v, get_string "createdAt" v with
  | Some i, Some n, Some c => Some (Category.mk i n c)
  | _, _, _ => None
  end.

Definition as_Product (v : json) : option Product.t :=
  match get_string "id" v, get_string "categoryId" v, get_string "name" v,
        get_string "description" v, get_string "priceLabel" v,
        get_string "imageUrl" v, get_string "imageAlt" v,
        get_optional "badgeText" v, get_optional "badgeVariant" v,
        get_string "createdAt" v with
  | Some i, Some ci, Some n, Some d, Some pl, Some iu, Some ia,
    Some bt, Some bv, Some c => Some (Product.mk i ci n d pl iu ia bt bv c)
  | _, _, _, _, _, _, _, _, _, _ => None
  end.

Fixpoint all_as {A} (f : json -> option A) (l : list json) : option (list A) :=
  match l with
  | [] => Some []
  | x :: rest =>
      match f x, all_as f rest with
      | Some a, Some r => Some (a :: r)
      | _, _ => None
      end
  end.

(** The assertion [parsed as CatalogData], checked: [None] when the
    value does not have the declared type.  A document that passed the
    shape test of [readCatalog] has [version] 1. *)
Definition as_CatalogData (v : json) : option CatalogData :=
  match get "version" v, get_string "updatedAt" v,
        get "categories" v, get "products" v with
  | Some (JNum m e), Some u, Some (JArr cs), Some (JArr ps) =>
      if num_eqb_Z m e 1 then
        match all_as as_Category cs, all_as as_Product ps with
        | Some cs', Some ps' => Some (mkCatalog 1 u cs' ps')
        | _, _ => None
        end
      else None
  | _, _, _, _ => None
  end.

End Typed.

(* ================================================================== *)
(** * [src/lib/catalog/store.ts] *)
(* ================================================================== *)

Module Store.
Import JsString Json.

Definition set_files (f : File) (tmp : option string) (w : World) : World :=
  mkWorld f tmp (clock w) (entropy w) (drawn w) (process_env w) (cookie_store w).

Definition defaultCatalog (nowIso : string) : json :=
  JObj [("version", JNum 1 0); ("updatedAt", JStr nowIso);
        ("categories", JArr []); ("products", JArr [])].

(** [fs.readFile(CATALOG_PATH, "utf8")]. *)
Definition fs_readFile : M string :=
  fun w => match catalog_json w with
           | NoFile => (Throw (ErrnoException "ENOENT"), w)
           | Unreadable errno => (Throw (ErrnoException errno), w)
           | Bytes content => (Ok content, w)
           end.

(** [fs.writeFile(tmpPath, payload, "utf8")]. *)
Definition fs_writeFile_tmp (payload : string) : M unit :=
  fun w => (Ok tt, set_files (catalog_json w) (Some payload) w).

(** [fs.rename(tmpPath, CATALOG_PATH)]. *)
Definition fs_rename_tmp : M unit :=
  fun w => match catalog_json_tmp w with
           | Some payload => (Ok tt, set_files (Bytes payload) None w)
           | None => (Throw (ErrnoException "ENOENT"), w)
           end.

Definition parse (raw : string) : M json :=
  match JSON_parse raw with
  | Some v => ret v
  | None => throw SyntaxError
  end.

(** [err.code] *)
Definition code_of (e : Exn) : option string :=
  match e with ErrnoException c => Some c | _ => None end.

Definition isArray (v : option json) : bool :=
  match v with Some (JArr _) => true | _ => false end.

(** [parsed?.version !== 1] *)
Definition version_is_not_1 (parsed : json) : bool :=
  match get "version" parsed with
  | Some (JNum m e) => negb (num_eqb_Z m e 1)
  | _ => true
  end.

(** The test of line 24; on a [parsed] without properties the two
    [Array.isArray] are not reached. *)
Definition bad_shape (parsed : json) : bool :=
  version_is_not_1 parsed
  || negb (isArray (get "categories" parsed))
  || negb (isArray (get "products" parsed)).

Definition readCatalog : M json :=
  nowIso <- Date_toISOString_now ;;
  try_catch
    (raw <- fs_readFile ;;
     parsed <- parse raw ;;
     if bad_shape parsed then ret (defaultCatalog nowIso) else ret parsed)
    (fun err =>
       match code_of err with
       | Some c =>
           if String.eqb c "ENOENT" then ret (defaultCatalog nowIso) else throw err
       | None => throw err
       end).

(** [writeCatalog]: the directory of the catalog is there, so that
    [fs.mkdir(dir, {recursive: true})] changes nothing; the payload goes
    to the temporary file, which is then renamed over the catalog. *)
Definition writeCatalog (next : json) : M unit :=
  let payload := JSON_stringify_pretty next 2 ++ String (chr 10) EmptyString in
  fs_writeFile_tmp payload ;;;
  fs_rename_tmp.

(** [readCatalog()] at its declared type [Promise<CatalogData>]: the
    callers in [mutate.ts] and [query.ts] read the fields of the value
    at that type.  A document for which the assertion of line 23 is
    false is reported as [NotCatalogData]. *)
Definition readCatalogData : M CatalogData :=
  parsed <- readCatalog ;;
  match Typed.as_CatalogData parsed with
  | Some d => ret d
  | None => throw NotCatalogData
  end.

Definition writeCatalogData (next : CatalogData) : M unit :=
  writeCatalog (Typed.json_of_CatalogData next).

End Store.

(* ================================================================== *)
(** * The platform *)
(* ================================================================== *)

(** The built-ins that are taken as given. *)
Class Host : Type := {
  (** [new URL(s).protocol]; [None] when the constructor throws. *)
  URL_protocol : string -> option string;
  (** [a.localeCompare(b)]: negative, zero or positive. *)
  localeCompare : string -> string -> Z;
  (** [s.toLowerCase()] for a text that is not all ASCII: the default
      case conversion of Unicode, with the tables of the engine. *)
  lower_unicode : string -> string
}.

Module JsCase.
Import JsString.

(** [s.toLowerCase()]: on ASCII text the letters [A-Z] become [a-z]; any
    other text is converted by the engine. *)
Definition toLowerCase `{Host} (s : string) : string :=
  if string_forall is_ascii s then fold_ascii s else lower_unicode s.

End JsCase.

(** [Array.prototype.sort(cmp)]: the stable ordering of the elements. *)
Module JsArray.
Section Sort.
Context {A : Type} (cmp : A -> A -> Z).

Fixpoint insert (x : A) (l : list A) : list A :=
  match l with
  | [] => [x]
  | y :: rest => if cmp x y <=? 0 then x :: y :: rest else y :: insert x rest
  end.

Fixpoint sort (l : list A) : list A :=
  match l with
  | [] => []
  | x :: rest => insert x (sort rest)
  end.
End Sort.

(** [new Set(xs).has(x)] *)
Definition has (xs : list string) (x : string) : bool :=
  existsb (String.eqb x) xs.
End JsArray.

(* ================================================================== *)
(** * [src/lib/catalog/mutate.ts] *)
(* ================================================================== *)

Module Mutate.
Import JsString JsCase Store JsArray.

Definition nowIso : M string := Date_toISOString_now.

Definition is_quote (c : ascii) : bool := (code c =? 39) || (code c =? 34).
Definition is_hyphen (c : ascii) : bool := code c =? 45.

Definition slugify `{Host} (input : string) : string :=
  dropWhileEnd is_hyphen
    (dropWhile is_hyphen
       (replaceRuns (fun c => negb (is_lower_alnum c)) "-" false
          (removeAll is_quote (toLowerCase (trim input))))).

(** The [for] loop of [uniqueId] with [i] iterations left. *)
Fixpoint uniqueId_retry (i : nat) (base : string) (used : list string) : M string :=
  match i with
  | O => randomUUID
  | S k =>
      bs <- randomBytes 2 ;;
      let suffix := Buffer.toHex bs in
      let candidate := base ++ "-" ++ suffix in
      if negb (has used candidate) then ret candidate
      else uniqueId_retry k base used
  end.

Definition uniqueId (base : string) (used : list string) : M string :=
  if negb (has used base) then ret base
  else uniqueId_retry 10 base used.

Definition normalizeName (s : string) : string :=
  collapse_spaces (trim s).

(** [slugify(name) || crypto.randomUUID()] *)
Definition baseId_of `{Host} (name : string) : M string :=
  let slug := slugify name in
  if falsy slug then randomUUID else ret slug.

Definition createCategory `{Host} (nameRaw : string) : M Category.t :=
  let name := normalizeName nameRaw in
  if falsy name then throw (Error "Category name is required.")
  else if 60 <? len name then throw (Error "Category name is too long (max 60 chars).")
  else
    catalog <- readCatalogData ;;
    let exists_ :=
      existsb (fun c => String.eqb (toLowerCase (Category.name c)) (toLowerCase name))
        (categories catalog) in
    if exists_ then throw (Error "Category already exists.")
    else
      let usedIds := map Category.id (categories catalog) in
      baseId <- baseId_of name ;;
      id <- uniqueId baseId usedIds ;;
      createdAt <- nowIso ;;
      let category := Category.mk id name createdAt in
      let next := mkCatalog (version catalog) createdAt
                    (categories catalog ++ [category]) (products catalog) in
      writeCatalogData next ;;;
      ret category.

Definition deleteCategory (categoryId : string) : M unit :=
  catalog <- readCatalogData ;;
  let beforeCount := List.length (categories catalog) in
  let nextCategories :=
    filter (fun c => negb (String.eqb (Category.id c) categoryId)) (categories catalog) in
  if Nat.eqb (List.length nextCategories) beforeCount then ret tt
  else
    let nextProducts :=
      filter (fun p => negb (String.eqb (Product.categoryId p) categoryId))
        (products catalog) in
    updatedAt <- nowIso ;;
    let next := mkCatalog (version catalog) updatedAt nextCategories nextProducts in
    writeCatalogData next.

Record CreateProductInput : Type := mkInput {
  categoryId : string;
  name : string;
  description : string;
  priceLabel : string;
  imageUrl : string;
  imageAlt : string;
  badgeText : option string;
  badgeVariant : option string
}.

(** [input.badgeText?.trim() || undefined] *)
Definition badgeText_of (v : option string) : option string :=
  match v with
  | Some s => if falsy (trim s) then None else Some (trim s)
  | None => None
  end.

(** The condition of line 116. *)
Definition bad_variant (v : option string) : bool :=
  match v with
  | Some s => negb (falsy s) && negb (String.eqb s "default") && negb (String.eqb s "hot")
  | None => false
  end.

Definition createProduct `{Host} (input : CreateProductInput) : M Product.t :=
  let categoryId := trim (categoryId input) in
  let name := normalizeName (name input) in
  let description := trim (description input) in
  let priceLabel := trim (priceLabel input) in
  let imageUrl := trim (imageUrl input) in
  let imageAlt := or_else (trim (imageAlt input)) name in
  let badgeText := badgeText_of (badgeText input) in
  let badgeVariant := badgeVariant input in
  if falsy categoryId then throw (Error "Category is required.")
  else if falsy name then throw (Error "Product name is required.")
  else if 80 <? len name then throw (Error "Product name is too long (max 80 chars).")
  else if falsy description then throw (Error "Product description is required.")
  else if 200 <? len description
       then throw (Error "Product description is too long (max 200 chars).")
  else if falsy priceLabel then throw (Error "Price is required.")
  else if 20 <? len priceLabel then throw (Error "Price is too long.")
  else if falsy imageUrl then throw (Error "Image URL is required.")
  else if 2000 <? len imageUrl then throw (Error "Image URL is too long.")
  else
    match URL_protocol imageUrl with
    | None => throw (Error "Image URL is invalid.")
    | Some protocol =>
        if negb (String.eqb protocol "https:") then throw (Error "Image URL must be https.")
        else if bad_variant badgeVariant then throw (Error "Badge variant is invalid.")
        else
          catalog <- readCatalogData ;;
          let categoryExists :=
            existsb (fun c => String.eqb (Category.id c) categoryId) (categories catalog) in
          if negb categoryExists then throw (Error "Category does not exist.")
          else
            let usedIds := map Product.id (products catalog) in
            baseId <- baseId_of name ;;
            id <- uniqueId baseId usedIds ;;
            createdAt <- nowIso ;;
            let product :=
              Product.mk id categoryId name description priceLabel imageUrl imageAlt
                badgeText badgeVariant createdAt in
            let next := mkCatalog (version catalog) createdAt (categories catalog)
                          (products catalog ++ [product]) in
            writeCatalogData next ;;;
            ret product
    end.

Definition deleteProduct (productId : string) : M unit :=
  catalog <- readCatalogData ;;
  let beforeCount := List.length (products catalog) in
  let nextProducts :=
    filter (fun p => negb (String.eqb (Product.id p) productId)) (products catalog) in
  if Nat.eqb (List.length nextProducts) beforeCount then ret tt
  else
    updatedAt <- nowIso ;;
    let next := mkCatalog (version catalog) updatedAt (categories catalog) nextProducts in
    writeCatalogData next.

End Mutate.

(* ================================================================== *)
(** * [src/lib/catalog/query.ts] *)
(* ================================================================== *)

Module Query.
Import Store JsArray.

Definition getPublicCatalog `{Host} : M (list Category.t * list Product.t) :=
  catalog <- readCatalogData ;;
  let categories' :=
    sort (fun a b => localeCompare (Category.name a) (Category.name b))
      (categories catalog) in
  let categoryIds := map Category.id categories' in
  let products' :=
    sort (fun a b => localeCompare (Product.createdAt b) (Product.createdAt a))
      (filter (fun p => has categoryIds (Product.categoryId p)) (products catalog)) in
  ret (categories', products').

End Query.

(* ================================================================== *)
(** * [src/lib/backoffice/auth.ts] *)
(* ================================================================== *)

Module Auth.
Import JsString Json.

Definition COOKIE_NAME : string := "arbatai_backoffice".
Definition SESSION_TTL_MS : Z := 1000 * 60 * 60 * 24 * 30.

Definition requiredEnv (name : string) : M string :=
  fun w => match process_env w name with
           | Some v =>
               if falsy v then (Throw (Error ("Missing required env var: " ++ name)), w)
               else (Ok v, w)
           | None => (Throw (Error ("Missing required env var: " ++ name)), w)
           end.

Definition timingSafeEqual (a b : list Z) : bool :=
  if negb (Nat.eqb (List.length a) (List.length b)) then false
  else Buffer.eqb a b.

Definition sessionSecret : M string :=
  fun w => match process_env w "BACKOFFICE_SESSION_SECRET" with
           | Some v => (Ok v, w)
           | None => requiredEnv "BACKOFFICE_PASSWORD" w
           end.

Definition sign (dataB64Url : string) : M (list Z) :=
  secret <- sessionSecret ;;
  ret (Crypto.hmac_sha256 (Buffer.fromUtf8 secret) (Buffer.fromUtf8 dataB64Url)).

(** [SessionPayload]: the number [exp] as the decimal [exp_m * 10^exp_e]. *)
Record SessionPayload : Type := mkPayload { exp_m : Z; exp_e : Z }.

Definition encodePayload (exp : Z) : string :=
  Buffer.toBase64Url (Buffer.fromUtf8 (JSON_stringify (JObj [("exp", JNum exp 0)]))).

(** [!parsed] *)
Definition falsy_json (v : json) : bool :=
  match v with
  | JNull => true
  | JBool b => negb b
  | JNum m _ => m =? 0
  | JStr s => falsy s
  | _ => false
  end.

Definition decodePayload (dataB64Url : string) : option SessionPayload :=
  let raw := Buffer.toUtf8 (Buffer.fromBase64Url dataB64Url) in
  match JSON_parse raw with
  | None => None
  | Some parsed =>
      if falsy_json parsed then None
      else match get "exp" parsed with
           | Some (JNum m e) => Some (mkPayload m e)
           | _ => None
           end
  end.

(** [store.get(name)?.value] *)
Definition cookie_of (name : string) (w : World) : option string :=
  match find (fun kv => String.eqb (fst kv) name) (cookie_store w) with
  | Some (_, c) => Some (value c)
  | None => None
  end.

Definition cookies_get (name : string) : M (option string) :=
  fun w => (Ok (cookie_of name w), w).

Definition cookies_set (name : string) (c : Cookie) : M unit :=
  fun w =>
    (Ok tt,
     mkWorld (catalog_json w) (catalog_json_tmp w) (clock w) (entropy w) (drawn w)
       (process_env w)
       ((name, c) :: filter (fun kv => negb (String.eqb (fst kv) name)) (cookie_store w))).

Definition is_production : M bool :=
  fun w => (Ok (match process_env w "NODE_ENV" with
                | Some v => String.eqb v "production"
                | None => false
                end), w).

Definition setBackofficeSessionCookie : M unit :=
  now <- Date_now ;;
  let exp := now + SESSION_TTL_MS in
  let data := encodePayload exp in
  sig_ <- sign data ;;
  let value := data ++ "." ++ Buffer.toBase64Url sig_ in
  prod <- is_production ;;
  cookies_set COOKIE_NAME (mkCookie value true "strict" prod "/backoffice" exp).

Definition isBackofficeAuthed : M bool :=
  value <- cookies_get COOKIE_NAME ;;
  match value with
  | None => ret false
  | Some value =>
      if falsy value then ret false
      else
        match split "." value with
        | [data; sigB64] =>
            expectedSig <- sign data ;;
            let actualSig := Buffer.fromBase64Url sigB64 in
            if negb (timingSafeEqual actualSig expectedSig) then ret false
            else
              match decodePayload data with
              | None => ret false
              | Some payload =>
                  now <- Date_now ;;
                  if num_leb_Z (exp_m payload) (exp_e payload) now then ret false
                  else ret true
              end
        | _ => ret false
        end
  end.

End Auth.

(* ================================================================== *)
(** * Concrete hosts and worlds for the examples *)
(* ================================================================== *)

Module Examples.
Import JsString Json.

(** A stand-in for the URL parser: [scheme://rest] with a scheme made
    of letters and a non-empty rest has the protocol [scheme:] in lower
    case; anything else does not parse. *)
Fixpoint scheme_split (acc : string) (s : string) : option (string * string) :=
  match s with
  | EmptyString => None
  | String c r =>
      if code c =? 58 then Some (acc, r)
      else if is_upper c || is_upper (chr (code c - 32))
      then scheme_split (acc ++ String (lower_char c) EmptyString) r
      else None
  end.

Definition sample_protocol (s : string) : option string :=
  match scheme_split EmptyString s with
  | Some (String a sch, String "/" (String "/" (String _ _))) =>
      Some (String a sch ++ ":")
  | _ => None
  end.

Definition Z_of_comparison (c : comparison) : Z :=
  match c with Lt => -1 | Eq => 0 | Gt => 1 end.

(** Collation by code units. *)
Definition ordinal_compare (a b : string) : Z := Z_of_comparison (compare a b).

(** A host for the examples, whose texts have no capital letter
    outside ASCII. *)
Definition sample_host : Host :=
  {| URL_protocol := sample_protocol; localeCompare := ordinal_compare;
     lower_unicode := fold_ascii |}.

Definition env_with_password (name : string) : option string :=
  if String.eqb name "BACKOFFICE_PASSWORD" then Some "hunter2" else None.

Definition env_empty (name : string) : option string := None.

(** 2025-12-01T00:00:00.000Z *)
Definition t0 : Z := 1764547200000.

(** No catalog file yet; an entropy source stuck at zero. *)
Definition fresh : World :=
  mkWorld NoFile None t0 (fun _ => 0) 0 env_with_password [].

Definition with_file (f : File) : World :=
  mkWorld f None t0 (fun _ => 0) 0 env_with_password [].

Definition at_time (t : Z) (w : World) : World :=
  mkWorld (catalog_json w) (catalog_json_tmp w) t (entropy w) (drawn w)
    (process_env w) (cookie_store w).

Definition with_cookie (env : string -> option string) (t : Z) (v : string) : World :=
  mkWorld NoFile None t (fun _ => 0) 0 env
    [(Auth.COOKIE_NAME, mkCookie v true "strict" false "/backoffice" 0)].


(** The world left by a computation. *)
Definition after {A} (c : M A) (w : World) : World := snd (c w).

Definition tea_input (name url : string) : Mutate.CreateProductInput :=
  Mutate.mkInput "green-tea" name "A fine tea." "12 EUR" url EmptyString None None.

(** The price [nuo 12,00 € / 100 g]: 19 characters in 21 bytes. *)
Definition euro_price : string :=
  "nuo 12,00 " ++ of_bytes [226; 130; 172] ++ " / 100 g".

Definition priced_input (url : string) : Mutate.CreateProductInput :=
  Mutate.mkInput "green-tea" "Sencha" "A fine tea." euro_price url EmptyString None None.

(** Eighty times the letter U+00E9. *)
Definition accents80 : string := repeat_string 80 (of_bytes [195; 169]).

Definition name80 : string := repeat_string 80 "a".
Definition name201 : string := repeat_string 201 "a".

(** A catalog holding the category [green-tea]. *)
Definition shop : World := after (Mutate.createCategory (H := sample_host) "Green Tea") fresh.

Definition green_tea : Category.t :=
  Category.mk "green-tea" "Green Tea" "2025-12-01T00:00:00.000Z".

Definition shop_catalog : CatalogData :=
  mkCatalog 1 "2025-12-01T00:00:00.000Z" [green_tea] [].

Definition sencha : Product.t :=
  Product.mk "sencha" "green-tea" "Sencha" "A fine tea." "12 EUR"
    "https://example.com/a.png" "Sencha" None None "2025-12-01T00:00:00.000Z".

(** The shop with one product in its category. *)
Definition stocked : World :=
  after (Mutate.createProduct (H := sample_host)
           (tea_input "Sencha" "https://example.com/a.png")) shop.

Definition stocked_catalog : CatalogData :=
  mkCatalog 1 "2025-12-01T00:00:00.000Z" [green_tea] [sencha].

(** Three categories created one after the other with the entropy stuck
    at zero: a slug, the same slug with its first suffix, and a name
    without letters or digits, whose id is a UUID. *)
Definition oolongs : World :=
  after (Mutate.createCategory (H := sample_host) "!!!")
    (after (Mutate.createCategory (H := sample_host) "Oolong?")
       (after (Mutate.createCategory (H := sample_host) "Oolong") fresh)).

(** A second product, created one second after the first. *)
Definition two_teas : World :=
  after (Mutate.createProduct (H := sample_host)
           (tea_input "Matcha" "https://example.com/b.png"))
    (at_time (t0 + 1000) stocked).

Definition matcha : Product.t :=
  Product.mk "matcha" "green-tea" "Matcha" "A fine tea." "12 EUR"
    "https://example.com/b.png" "Matcha" None None "2025-12-01T00:00:01.000Z".

Definition two_teas_catalog : CatalogData :=
  mkCatalog 1 "2025-12-01T00:00:01.000Z" [green_tea] [sencha; matcha].

Definition zero_uuid : string := "00000000-0000-4000-8000-000000000000".

(** The letter U+0130, capital I with a dot above, and its lower case
    in Unicode: the letter [i] followed by the combining dot U+0307. *)
Definition dotted_I : string := of_bytes [196; 176].
Definition dotted_i : string := of_bytes [105; 204; 135].

(** Lower case for texts of ASCII and U+0130. *)
Fixpoint lower_dotted (s : string) : string :=
  match s with
  | EmptyString => EmptyString
  | String c1 (String c2 r as r1) =>
      if (code c1 =? 196) && (code c2 =? 176) then dotted_i ++ lower_dotted r
      else String (lower_char c1) (lower_dotted r1)
  | String c1 r1 => String (lower_char c1) (lower_dotted r1)
  end.

Definition dotted_host : Host :=
  {| URL_protocol := sample_protocol; localeCompare := ordinal_compare;
     lower_unicode := lower_dotted |}.

(** A catalog holding one category, named with thirty-one U+0130. *)
Definition dotted_shop : World :=
  after (Mutate.createCategory (H := dotted_host) (repeat_string 31 dotted_I)) fresh.

Definition oolongs_catalog : CatalogData :=
  mkCatalog 1 "2025-12-01T00:00:00.000Z"
    [Category.mk "oolong" "Oolong" "2025-12-01T00:00:00.000Z";
     Category.mk "oolong-0000" "Oolong?" "2025-12-01T00:00:00.000Z";
     Category.mk zero_uuid "!!!" "2025-12-01T00:00:00.000Z"] [].

End Examples.

(* ================================================================== *)
(** * The properties of the specification, in its words *)
(* ================================================================== *)

Module Spec.
Import JsString Json.

(** ** Catalog store (section 4.1) *)

Definition version_is_1 (parsed : json) : Prop :=
  exists m e, get "version" parsed = Some (JNum m e) /\ num_compare_Z m e 1 = Eq.

Definition list_typed (key : string) (parsed : json) : Prop :=
  exists items, get key parsed = Some (JArr items).

(** A document that fails shape validation: [version != 1], or
    [categories] or [products] not list-typed. *)
Definition malformed_shape (parsed : json) : Prop :=
  ~ version_is_1 parsed \/ ~ list_typed "categories" parsed
  \/ ~ list_typed "products" parsed.

(** The fresh empty document [version=1, updatedAt=now, categories=[],
    products=[]]. *)
Definition fresh_empty (w : World) : CatalogData :=
  mkCatalog 1 (JsDate.toISOString (clock w)) [] [].

End Spec.

Module MutationSpec.
Import JsString JsCase Mutate.

(** ** Validation (sections 4.2 and 7) *)

(** A rule is a pair of "is violated" and the message reported for it;
    a list of rules is checked in order and the first violated one
    decides. *)
Fixpoint first_violation (rules : list (bool * string)) : option string :=
  match rules with
  | [] => None
  | (violated, message) :: rest =>
      if violated then Some message else first_violation rest
  end.

Definition missing (s : string) : bool := len s =? 0.
Definition longer_than (n : Z) (s : string) : bool := n <? len s.

Definition same_name `{Host} (a b : string) : bool :=
  String.eqb (toLowerCase a) (toLowerCase b).

Definition name_taken `{Host} (name : string) (cat : CatalogData) : bool :=
  existsb (fun c => same_name (Category.name c) name) (categories cat).

Definition category_known (id : string) (cat : CatalogData) : bool :=
  existsb (fun c => String.eqb (Category.id c) id) (categories cat).

(** The rules of [createCategory] on the normalized name: those on the
    input, then the one that needs the stored catalog. *)
Definition category_input_rules (name : string) : list (bool * string) :=
  [ (missing name, "Category name is required.");
    (longer_than 60 name, "Category name is too long (max 60 chars).") ].

Definition category_catalog_rules `{Host} (name : string) (cat : CatalogData)
  : list (bool * string) :=
  [ (name_taken name cat, "Category already exists.") ].

Definition not_a_url `{Host} (u : string) : bool :=
  match URL_protocol u with None => true | Some _ => false end.

Definition not_https `{Host} (u : string) : bool :=
  match URL_protocol u with
  | Some p => negb (String.eqb p "https:")
  | None => false
  end.

Definition variant_not_enumerated (v : option string) : bool :=
  match v with
  | Some s => negb (missing s) && negb (String.eqb s "default" || String.eqb s "hot")
  | None => false
  end.

(** The rules of [createProduct] in the order of section 4.2, on the
    normalized fields. *)
Definition product_input_rules `{Host} (i : CreateProductInput) : list (bool * string) :=
  [ (missing (trim (categoryId i)), "Category is required.");
    (missing (normalizeName (name i)), "Product name is required.");
    (longer_than 80 (normalizeName (name i)), "Product name is too long (max 80 chars).");
    (missing (trim (description i)), "Product description is required.");
    (longer_than 200 (trim (description i)),
      "Product description is too long (max 200 chars).");
    (missing (trim (priceLabel i)), "Price is required.");
    (longer_than 20 (trim (priceLabel i)), "Price is too long.");
    (missing (trim (imageUrl i)), "Image URL is required.");
    (longer_than 2000 (trim (imageUrl i)), "Image URL is too long.");
    (not_a_url (trim (imageUrl i)), "Image URL is invalid.");
    (not_https (trim (imageUrl i)), "Image URL must be https.");
    (variant_not_enumerated (badgeVariant i), "Badge variant is invalid.") ].

Definition product_catalog_rules (i : CreateProductInput) (cat : CatalogData)
  : list (bool * string) :=
  [ (negb (category_known (trim (categoryId i)) cat), "Category does not exist.") ].

(** The taxonomy of section 7 over the thrown values. *)
Definition ConflictError : Exn := Error "Category already exists.".

(** An input that is valid apart from its name and its image URL. *)
Definition otherwise_valid (i : CreateProductInput) (cat : CatalogData) : Prop :=
  1 <= len (trim (categoryId i))
  /\ category_known (trim (categoryId i)) cat = true
  /\ 1 <= len (trim (description i)) <= 200
  /\ 1 <= len (trim (priceLabel i)) <= 20
  /\ 1 <= len (trim (imageUrl i)) <= 2000
  /\ variant_not_enumerated (badgeVariant i) = false.

(** ** Identifiers *)

(** The [k]-th suffix the retry loop of [uniqueId] will draw in [w]. *)
Definition suffix_at (w : World) (k : nat) : string :=
  Buffer.toHex (next_bytes 2 (draw (2 * k) w)).

(** The identifier [crypto.randomUUID()] gives once the ten retries have
    consumed their twenty bytes. *)
Definition fallback_uuid (w : World) : string :=
  uuid_text (next_bytes 16 (draw 20 w)).

(** The slug and the ten suffixed candidates are all in use. *)
Definition all_collide (base : string) (used : list string) (w : World) : bool :=
  JsArray.has used base
  && forallb (fun k => JsArray.has used (base ++ "-" ++ suffix_at w k)) (seq 0 10).

(** The document on disk after [writeCatalog(next)]. *)
Definition persisted (next : CatalogData) (w : World) : World :=
  Store.set_files
    (Bytes (Json.JSON_stringify_pretty (Typed.json_of_CatalogData next) 2
              ++ String (chr 10) EmptyString))
    None w.

Definition without_category (id : string) (l : list Category.t) : list Category.t :=
  filter (fun c => negb (String.eqb (Category.id c) id)) l.

Definition without_products_of (id : string) (l : list Product.t) : list Product.t :=
  filter (fun p => negb (String.eqb (Product.categoryId p) id)) l.

Definition without_product (id : string) (l : list Product.t) : list Product.t :=
  filter (fun p => negb (String.eqb (Product.id p) id)) l.

End MutationSpec.

Module Verdicts.
Import JsString Mutate MutationSpec.

(** What the specification says of a create call: the first violated
    rule, checked before anything is written; the rules on the input come
    first, then the catalog is read, then the rule on the catalog. *)
Inductive Verdict : Type :=
| Rejected (message : string)
| ReadFailed (e : Exn)
| Accepted (cat : CatalogData).

Definition verdict (input_rules : list (bool * string))
  (catalog_rules : CatalogData -> list (bool * string)) (w : World) : Verdict :=
  match first_violation input_rules with
  | Some message => Rejected message
  | None =>
      match fst (Store.readCatalogData w) with
      | Throw e => ReadFailed e
      | Ok cat =>
          match first_violation (catalog_rules cat) with
          | Some message => Rejected message
          | None => Accepted cat
          end
      end
  end.

Definition category_verdict `{Host} (nameRaw : string) (w : World) : Verdict :=
  verdict (category_input_rules (normalizeName nameRaw))
    (category_catalog_rules (normalizeName nameRaw)) w.

Definition product_verdict `{Host} (i : CreateProductInput) (w : World) : Verdict :=
  verdict (product_input_rules i) (product_catalog_rules i) w.

(** The category and the product a successful call builds, once the id
    is chosen. *)
Definition new_category (id nameRaw : string) (w : World) : Category.t :=
  Category.mk id (normalizeName nameRaw) (JsDate.toISOString (clock w)).

Definition new_product (id : string) (i : CreateProductInput) (w : World) : Product.t :=
  Product.mk id (trim (categoryId i)) (normalizeName (name i)) (trim (description i))
    (trim (priceLabel i)) (trim (imageUrl i))
    (or_else (trim (imageAlt i)) (normalizeName (name i)))
    (badgeText_of (badgeText i)) (badgeVariant i) (JsDate.toISOString (clock w)).

Definition with_category (c : Category.t) (cat : CatalogData) : CatalogData :=
  mkCatalog (version cat) (Category.createdAt c) (categories cat ++ [c]) (products cat).

Definition with_product (p : Product.t) (cat : CatalogData) : CatalogData :=
  mkCatalog (version cat) (Product.createdAt p) (categories cat) (products cat ++ [p]).

End Verdicts.

Module IdentifierSpec.
Import JsString Mutate MutationSpec.

(** The slug of [name] (or the UUID standing for an empty slug) and the
    ten suffixed candidates are all among [used]: [uniqueId] then returns
    a UUID without looking it up. *)
Definition retries_exhausted `{Host} (name : string) (used : list string) (w : World)
  : bool :=
  match baseId_of name w with
  | (Ok base, w1) => all_collide base used w1
  | (Throw _, _) => false
  end.

(** The UUID returned in that case. *)
Definition unchecked_uuid `{Host} (name : string) (w : World) : string :=
  match baseId_of name w with
  | (Ok _, w1) => fallback_uuid w1
  | (Throw _, _) => EmptyString
  end.

Definition category_ids (cat : CatalogData) : list string :=
  map Category.id (categories cat).

Definition product_ids (cat : CatalogData) : list string :=
  map Product.id (products cat).

End IdentifierSpec.

Module QuerySpec.
Import JsString.

(** The laws of a collation: [localeCompare] is a total preorder, and on
    two timestamps in the layout of [toISOString] (the same punctuation at
    the same places, digits elsewhere) it orders by the first digit that
    differs. *)
Fixpoint digit_mask (s : string) : string :=
  match s with
  | EmptyString => EmptyString
  | String c r => String (if is_digit c then "0"%char else c) (digit_mask r)
  end.

Definition is_iso_timestamp (s : string) : bool :=
  String.eqb (digit_mask s) "0000-00-00T00:00:00.000Z".

Class Collation `{Host} : Prop := {
  collation_total : forall a b, localeCompare a b <= 0 \/ localeCompare b a <= 0;
  collation_trans : forall a b c,
      localeCompare a b <= 0 -> localeCompare b c <= 0 -> localeCompare a c <= 0;
  collation_timestamps : forall a b,
      is_iso_timestamp a = true -> is_iso_timestamp b = true ->
      compare a b = Gt -> 0 < localeCompare a b
}.

(** Ascending by name. *)
Definition by_name `{Host} (a b : Category.t) : Prop :=
  localeCompare (Category.name a) (Category.name b) <= 0.

(** Descending by creation time: newest first. *)
Definition newest_first `{Host} (a b : Product.t) : Prop :=
  localeCompare (Product.createdAt b) (Product.createdAt a) <= 0.

(** [x] occurs in [l] before [y]. *)
Definition appears_before {A} (x y : A) (l : list A) : Prop :=
  exists l1 l2 l3, l = (l1 ++ x :: l2 ++ y :: l3)%list.

(** The product refers to a category of the catalog. *)
Definition has_category (cat : CatalogData) (p : Product.t) : Prop :=
  exists c, In c (categories cat) /\ Category.id c = Product.categoryId p.

(** The order of calendar dates. *)
Definition date_lt (a b : Z * Z * Z) : Prop :=
  let '(y1, m1, d1) := a in
  let '(y2, m2, d2) := b in
  y1 < y2 \/ (y1 = y2 /\ (m1 < m2 \/ (m1 = m2 /\ d1 < d2))).

End QuerySpec.

Module AuthSpec.
Import JsString Json Auth.

(** The expiry of the payload is strictly after [now]. *)
Definition expires_after (p : SessionPayload) (now : Z) : Prop :=
  num_compare_Z (exp_m p) (exp_e p) now = Gt.


(** The token a holder of [secret] makes for the expiry [exp]: the
    base64url payload, a dot, and the base64url signature. *)
Definition token (secret : string) (exp : Z) : string :=
  let data := encodePayload exp in
  data ++ "."
    ++ Buffer.toBase64Url
         (Crypto.hmac_sha256 (Buffer.fromUtf8 secret) (Buffer.fromUtf8 data)).

(** The cookie value [setBackofficeSessionCookie] builds at the instant
    [now], for the payload [{exp: now + 30 days}]. *)
Definition issued_value (secret : string) (now : Z) : string :=
  token secret (now + SESSION_TTL_MS).

End AuthSpec.

Module AuthExamples.
Import JsString Auth AuthSpec Examples.



(** A two-part cookie presented when no secret is configured. *)
Definition unconfigured : World := with_cookie env_empty t0 "a.b".

(** A later request carrying the cookie issued in [fresh]. *)
Definition returning (t : Z) : World :=
  with_cookie env_with_password t (issued_value "hunter2" t0).

End AuthExamples.

(* ================================================================== *)
(** * Shapes of names and identifiers *)
(* ================================================================== *)

Module Shape.
Import JsString Mutate.

(** No two neighbouring characters both satisfy [p]. *)
Fixpoint no_adjacent (p : ascii -> bool) (s : string) : bool :=
  match s with
  | String a (String b _ as t) => negb (p a && p b) && no_adjacent p t
  | _ => true
  end.

(** The first character, if any, does not satisfy [p]. *)
Definition head_not (p : ascii -> bool) (s : string) : bool :=
  match s with String c _ => negb (p c) | EmptyString => true end.

(** The last character, if any, does not satisfy [p]. *)
Fixpoint last_not (p : ascii -> bool) (s : string) : bool :=
  match s with
  | EmptyString => true
  | String c EmptyString => negb (p c)
  | String _ r => last_not p r
  end.

(** The white space below 128, as a class of bytes: what
    [is_space_char] is on a character of one byte. *)
Definition is_ascii_space (c : ascii) : bool :=
  let n := code c in ((9 <=? n) && (n <=? 13)) || (n =? 32).

(** The characters of a URL-safe identifier: [a-z], [0-9] and the
    hyphen. *)
Definition is_slug_char (c : ascii) : bool := is_lower_alnum c || is_hyphen c.

(** A slug: URL-safe characters, no hyphen at either end, no two hyphens
    in a row. *)
Definition is_slug (s : string) : bool :=
  string_forall is_slug_char s && head_not is_hyphen s && last_not is_hyphen s
  && no_adjacent is_hyphen s.

(** The same three shapes for a list. *)
Fixpoint no_neighbours {A} (p : A -> bool) (l : list A) : bool :=
  match l with
  | a :: (b :: _) as t => negb (p a && p b) && no_neighbours p t
  | _ => true
  end.

Definition first_not {A} (p : A -> bool) (l : list A) : bool :=
  match l with x :: _ => negb (p x) | [] => true end.

Fixpoint final_not {A} (p : A -> bool) (l : list A) : bool :=
  match l with
  | [] => true
  | [x] => negb (p x)
  | _ :: rest => final_not p rest
  end.

(** A character as [chars] cuts it: a first byte and continuation
    bytes, no more than the first byte announces. *)
Definition is_char (t : string) : Prop :=
  match t with
  | EmptyString => False
  | String c tail =>
      string_forall is_continuation tail = true
      /\ (String.length tail <= trail c)%nat
  end.

(** The character has all the bytes its first byte announces. *)
Definition complete (t : string) : Prop :=
  match t with
  | EmptyString => False
  | String c tail => String.length tail = trail c
  end.

(** The first byte does not continue a character. *)
Definition opens (t : string) : Prop :=
  match t with
  | EmptyString => False
  | String c _ => is_continuation c = false
  end.

(** A list of characters that [chars] can produce: a character that
    lacks bytes is followed by one that opens. *)
Fixpoint well_cut (l : list string) : Prop :=
  match l with
  | [] => True
  | t :: rest =>
      is_char t
      /\ match rest with t' :: _ => complete t \/ opens t' | [] => True end
      /\ well_cut rest
  end.

(** A white-space character other than the space U+0020. *)
Definition is_odd_space (ch : string) : bool :=
  is_space_char ch && negb (String.eqb ch " ").

(** A normalized name: no white space at either end, and inside no
    white space but single spaces. *)
Definition is_normalized (s : string) : bool :=
  let cs := chars s in
  forallb (fun ch => negb (is_odd_space ch)) cs
  && first_not is_space_char cs && final_not is_space_char cs
  && no_neighbours is_space_char cs.

End Shape.

(* ================================================================== *)
(** * Values that print and parse back *)
(* ================================================================== *)

Module JsonShape.
Import JsString Json.

(** The line break and indentation [JSON.stringify] puts before an item
    at nesting level [level]; nothing in the compact form. *)
Definition newline (gap level : nat) : string :=
  match gap with
  | O => EmptyString
  | _ => String (chr 10) (repeat_string (level * gap) " ")
  end.

Definition colon (gap : nat) : string :=
  match gap with O => ":" | _ => ": " end.

(** A value whose numbers are all integers written without exponent:
    the values [mutate.ts] hands to [writeCatalog]. *)
Fixpoint plain (v : json) : bool :=
  match v with
  | JNum _ e => e =? 0
  | JArr items => forallb plain items
  | JObj members => forallb (fun kv : string * json => plain (snd kv)) members
  | _ => true
  end.

(** A bound on the fuel the parser needs for a value: its nodes and
    edges. *)
Fixpoint weight (v : json) : nat :=
  match v with
  | JArr items => S (list_sum (map (fun x => S (weight x)) items))
  | JObj members =>
      S (list_sum (map (fun kv : string * json => S (weight (snd kv))) members))
  | _ => 1%nat
  end.

Definition opens_value (s : string) : Prop :=
  exists c r, s = String c r /\ is_json_ws c = false
              /\ code c <> 93 /\ code c <> 125.

Definition separator (gap level : nat) : string :=
  String "," (newline gap (S level)).

Definition member_text (gap level : nat) (kv : string * json) : string :=
  quote (fst kv) ++ colon gap ++ stringify gap (S level) (snd kv).

Definition colon_space (gap : nat) : string :=
  match gap with O => EmptyString | _ => " " end.

(** The value is read back from its text, whatever white space comes
    before and whatever follows, given fuel above its weight. *)
Definition reads_back (gap : nat) (v : json) : Prop :=
  plain v = true ->
  forall (level fuel : nat) (pre : string) (c0 : ascii) (rest : string),
    string_forall is_json_ws pre = true -> ends_number c0 ->
    (weight v < fuel)%nat ->
    parse_value fuel (pre ++ stringify gap level v ++ String c0 rest)
    = Some (v, String c0 rest).

End JsonShape.

(* ================================================================== *)
(** * What the stored catalog keeps *)
(* ================================================================== *)

Module Consistency.
Import JsString JsCase Mutate MutationSpec Shape.

(** A non-empty identifier made of [a-z], [0-9] and the hyphen. *)
Definition url_safe (id : string) : bool :=
  negb (falsy id) && string_forall is_slug_char id.

(** What the checks of [createCategory] establish of the category it
    stores in the catalog [cat]. *)
Definition admissible_category `{Host} (cat : CatalogData) (c : Category.t) : Prop :=
  is_normalized (Category.name c) = true
  /\ 1 <= len (Category.name c) <= 60
  /\ name_taken (Category.name c) cat = false
  /\ url_safe (Category.id c) = true.

(** What the checks of [createProduct] establish of the product it
    stores in the catalog [cat]. *)
Definition admissible_product `{Host} (cat : CatalogData) (p : Product.t) : Prop :=
  category_known (Product.categoryId p) cat = true
  /\ is_normalized (Product.name p) = true
  /\ 1 <= len (Product.name p) <= 80
  /\ 1 <= len (Product.description p) <= 200
  /\ 1 <= len (Product.priceLabel p) <= 20
  /\ 1 <= len (Product.imageUrl p) <= 2000
  /\ URL_protocol (Product.imageUrl p) = Some "https:"
  /\ 1 <= len (Product.imageAlt p)
  /\ Product.badgeText p <> Some EmptyString
  /\ variant_not_enumerated (Product.badgeVariant p) = false
  /\ url_safe (Product.id p) = true.

(** The four mutations of [mutate.ts] as calls. *)
Inductive Call : Type :=
| CreateCategory (nameRaw : string)
| DeleteCategory (categoryId : string)
| CreateProduct (input : CreateProductInput)
| DeleteProduct (productId : string).

(** The world a call leaves, whether it returns or throws. *)
Definition perform `{Host} (c : Call) (w : World) : World :=
  match c with
  | CreateCategory nameRaw => snd (createCategory nameRaw w)
  | DeleteCategory id => snd (deleteCategory id w)
  | CreateProduct input => snd (createProduct input w)
  | DeleteProduct id => snd (deleteProduct id w)
  end.

(** The worlds that follow [w0]: calls to the mutations, in any order
    and number, and between them any change of the clock, the entropy,
    the environment and the cookies; the catalog file is touched by the
    calls only. *)
Inductive reachable `{Host} (w0 : World) : World -> Prop :=
| reach_start : reachable w0 w0
| reach_call (w : World) (c : Call) : reachable w0 w -> reachable w0 (perform c w)
| reach_elapse (w w' : World) :
    reachable w0 w -> catalog_json w' = catalog_json w -> reachable w0 w'.

(** The catalog of [w] is read without error and its categories and
    products satisfy [P]. *)
Definition stored (P : list Category.t -> list Product.t -> Prop) (w : World) : Prop :=
  exists cat, fst (Store.readCatalogData w) = Ok cat
              /\ P (categories cat) (products cat).

(** Every product refers to a category of the catalog. *)
Definition references_resolve (cs : list Category.t) (ps : list Product.t) : Prop :=
  forall p, In p ps -> In (Product.categoryId p) (map Category.id cs).

(** No two categories have the same name, letter case ignored. *)
Definition names_distinct `{Host} (cs : list Category.t) (ps : list Product.t) : Prop :=
  NoDup (map (fun c => toLowerCase (Category.name c)) cs).

(** Every identifier is URL-safe. *)
Definition ids_url_safe (cs : list Category.t) (ps : list Product.t) : Prop :=
  Forall (fun c => url_safe (Category.id c) = true) cs
  /\ Forall (fun p => url_safe (Product.id p) = true) ps.

(** Every record is within the limits the create calls enforce. *)
Definition within_limits `{Host} (cs : list Category.t) (ps : list Product.t) : Prop :=
  Forall (fun c => is_normalized (Category.name c) = true
                   /\ 1 <= len (Category.name c) <= 60) cs
  /\ Forall (fun p => is_normalized (Product.name p) = true
                      /\ 1 <= len (Product.name p) <= 80
                      /\ 1 <= len (Product.description p) <= 200
                      /\ 1 <= len (Product.priceLabel p) <= 20
                      /\ 1 <= len (Product.imageUrl p) <= 2000
                      /\ URL_protocol (Product.imageUrl p) = Some "https:"
                      /\ 1 <= len (Product.imageAlt p)
                      /\ Product.badgeText p <> Some EmptyString
                      /\ variant_not_enumerated (Product.badgeVariant p) = false) ps.

End Consistency.

(* ================================================================== *)
(** * [src/lib/backoffice/auth.ts]: password check and logout *)
(* ================================================================== *)

Module Login.
Import JsString Auth.

(** [crypto.createHash("sha256").update(input, "utf8").digest()] *)
Definition sha256 (input : string) : list Z :=
  Crypto.sha256 (Buffer.fromUtf8 input).

Definition verifyBackofficePassword (candidate : string) : M bool :=
  expected <- requiredEnv "BACKOFFICE_PASSWORD" ;;
  ret (timingSafeEqual (sha256 candidate) (sha256 expected)).

Definition clearBackofficeSessionCookie : M unit :=
  prod <- is_production ;;
  cookies_set COOKIE_NAME (mkCookie EmptyString true "strict" prod "/backoffice" 0).

(** The variable is unset or set to the empty string. *)
Definition unset (name : string) (w : World) : Prop :=
  process_env w name = None \/ process_env w name = Some EmptyString.

End Login.

(* ================================================================== *)
(** * The server actions of the backoffice *)
(* ================================================================== *)

(** The module that imports [auth.ts] and [mutate.ts] and exports
    [loginAction], [logoutAction] and the four catalog actions. *)
Module Actions.
Import JsString Json Auth Login Mutate.

(** ** The platform of the actions *)

(** A form field: text, or an uploaded file. *)
Inductive Entry : Type :=
| Text (s : string)
| Upload.

(** [FormData]: the first entry under each name. *)
Definition FormData : Type := string -> option Entry.

(** [String(formData.get(name) ?? "")] *)
Definition field (formData : FormData) (name : string) : string :=
  match formData name with
  | Some (Text s) => s
  | Some Upload => "[object File]"
  | None => EmptyString
  end.

(** The characters [encodeURIComponent] keeps: letters, digits and
    [- _ . ! ~ * ' ( )]. *)
Definition is_unreserved (c : ascii) : bool :=
  let n := code c in
  is_upper c || ((97 <=? n) && (n <=? 122)) || is_digit c
  || (n =? 45) || (n =? 95) || (n =? 46) || (n =? 33) || (n =? 126)
  || (n =? 42) || (n =? 39) || (n =? 40) || (n =? 41).

Definition upper_hex (d : Z) : ascii :=
  if d <? 10 then chr (48 + d) else chr (55 + d).

(** [encodeURIComponent(s)] on the byte model of strings: every byte
    that is not an unreserved character becomes [%XX]. *)
Fixpoint encodeURIComponent (s : string) : string :=
  match s with
  | EmptyString => EmptyString
  | String c r =>
      if is_unreserved c then String c (encodeURIComponent r)
      else String "%" (String (upper_hex (code c / 16))
                         (String (upper_hex (code c mod 16)) (encodeURIComponent r)))
  end.

(** [err.message] for the errors the platform makes; the message of
    [new Error(message)] is its argument.  Every value the libraries
    throw is an instance of [Error], so the fallback texts of the two
    [catch] clauses are not reached. *)
Class ErrorText : Type := { system_message : Exn -> string }.

Definition message_of `{ErrorText} (err : Exn) : string :=
  match err with
  | Error message => message
  | other => system_message other
  end.

(** What ends an action: [redirect(url)], which throws the redirect of
    the framework, or an error. *)
Inductive Thrown : Type :=
| Redirect (url : string)
| Raised (e : Exn).

Inductive Step (X : Type) : Type :=
| Next (x : X)
| Stop (t : Thrown).
Arguments Next {X} x.
Arguments Stop {X} t.

(** The state of the server: the world of the libraries and the paths
    handed to [revalidatePath], in order. *)
Record Server : Type := mkServer {
  world : World;
  revalidated : list string
}.

Definition Act (X : Type) : Type := Server -> Step X * Server.

Definition act_ret {X} (x : X) : Act X := fun s => (Next x, s).

Definition and_then {X Y} (c : Act X) (k : X -> Act Y) : Act Y :=
  fun s => match c s with
           | (Next x, s') => k x s'
           | (Stop t, s') => (Stop t, s')
           end.

(** [await c] for a computation of the libraries. *)
Definition await {X} (c : M X) : Act X :=
  fun s => match c (world s) with
           | (Ok x, w) => (Next x, mkServer w (revalidated s))
           | (Throw e, w) => (Stop (Raised e), mkServer w (revalidated s))
           end.

(** [try { await c } catch (err) { handler }] *)
Definition await_or {X} (c : M X) (handler : Exn -> Act X) : Act X :=
  fun s => match c (world s) with
           | (Ok x, w) => (Next x, mkServer w (revalidated s))
           | (Throw e, w) => handler e (mkServer w (revalidated s))
           end.

Definition redirect {X} (url : string) : Act X := fun s => (Stop (Redirect url), s).

Definition revalidatePath (path : string) : Act unit :=
  fun s => (Next tt, mkServer (world s) (revalidated s ++ [path])).

(** ** The actions *)

Definition requireAuth : Act unit :=
  and_then (await isBackofficeAuthed) (fun authed =>
  if negb authed then redirect "/backoffice?error=auth-required" else act_ret tt).

Definition redirectWithError {X} (message : string) : Act X :=
  redirect ("/backoffice?error=" ++ encodeURIComponent message).

Definition loginAction (formData : FormData) : Act unit :=
  let password := field formData "password" in
  and_then (await (verifyBackofficePassword password)) (fun ok =>
  and_then (if negb ok then redirectWithError "Invalid password." else act_ret tt) (fun _ =>
  and_then (await setBackofficeSessionCookie) (fun _ =>
  redirect "/backoffice"))).

Definition logoutAction : Act unit :=
  and_then (await clearBackofficeSessionCookie) (fun _ =>
  redirect "/backoffice").

(** The three statements every catalog action ends with. *)
Definition refresh : Act unit :=
  and_then (revalidatePath "/") (fun _ =>
  and_then (revalidatePath "/backoffice") (fun _ =>
  redirect "/backoffice")).

Definition createCategoryAction `{Host} `{ErrorText} (formData : FormData) : Act unit :=
  and_then requireAuth (fun _ =>
  let name := field formData "name" in
  and_then (await_or (_ <- createCategory name ;; ret tt)
              (fun err => redirectWithError (message_of err))) (fun _ =>
  refresh)).

Definition deleteCategoryAction (formData : FormData) : Act unit :=
  and_then requireAuth (fun _ =>
  let id := field formData "id" in
  and_then (if falsy id then redirectWithError "Missing category id." else act_ret tt)
    (fun _ =>
  and_then (await (deleteCategory id)) (fun _ =>
  refresh))).

(** The object literal handed to [createProduct]. *)
Definition product_input (formData : FormData) : CreateProductInput :=
  let badgeText := field formData "badgeText" in
  let badgeVariantRaw := field formData "badgeVariant" in
  mkInput (field formData "categoryId") (field formData "name")
    (field formData "description") (field formData "priceLabel")
    (field formData "imageUrl") (field formData "imageAlt")
    (if falsy badgeText then None else Some badgeText)
    (if String.eqb badgeVariantRaw EmptyString then None else Some badgeVariantRaw).

Definition createProductAction `{Host} `{ErrorText} (formData : FormData) : Act unit :=
  and_then requireAuth (fun _ =>
  and_then (await_or (_ <- createProduct (product_input formData) ;; ret tt)
              (fun err => redirectWithError (message_of err))) (fun _ =>
  refresh)).

Definition deleteProductAction (formData : FormData) : Act unit :=
  and_then requireAuth (fun _ =>
  let id := field formData "id" in
  and_then (if falsy id then redirectWithError "Missing product id." else act_ret tt)
    (fun _ =>
  and_then (await (deleteProduct id)) (fun _ =>
  refresh))).

(** ** Vocabulary of the properties *)


(** A request without a session cookie, at the instant [t0] of the
    examples. *)
Definition anonymous : Server := mkServer Examples.fresh [].

(** The form with the one field [name = value]. *)
Definition one_field (name value : string) : FormData :=
  fun key => if String.eqb key name then Some (Text value) else None.

(** The server once the password [hunter2] has been posted to
    [loginAction]. *)
Definition logged_in : Server :=
  snd (loginAction (one_field "password" "hunter2") anonymous).

Definition plain_text : ErrorText := {| system_message := fun _ => "Internal error." |}.

End Actions.

(* ================================================================== *)
(** * Proofs *)
(* ================================================================== *)

Local Open Scope js_scope.

(** Unfold the plumbing of the monad. *)
Ltac run :=
  unfold bind, ret, throw, try_catch, Date_now, Date_toISOString_now in *;
  cbn beta iota in *.

(** ** Characters and lengths *)

Section CharFacts.
Import JsString.

Lemma units_pos (ch : string) : 1 <= units ch.
Proof. unfold units. destruct (Nat.leb 4 (String.length ch)); lia. Qed.

Lemma sum_units_nonneg (l : list string) :
  0 <= fold_right (fun ch n => units ch + n) 0 l.
Proof.
  induction l as [ | x l IH]; cbn [fold_right]; [lia | ].
  pose proof (units_pos x). lia.
Qed.

Lemma chars_go_cons (pending : nat) (cur s : string) :
  exists x l, chars_go pending cur s = x :: l.
Proof.
  revert pending cur. induction s as [ | c r IH]; intros pending cur; cbn [chars_go].
  - eauto.
  - destruct pending as [ | k]; [eauto | ].
    destruct (is_continuation c); [apply IH | eauto].
Qed.

Lemma len_nonneg (s : string) : 0 <= len s.
Proof. apply sum_units_nonneg. Qed.

Lemma len_pos (c : ascii) (r : string) : 1 <= len (String c r).
Proof.
  unfold len, chars.
  destruct (chars_go_cons (trail c) (String c EmptyString) r) as (x & l & ->).
  cbn [fold_right]. pose proof (units_pos x). pose proof (sum_units_nonneg l). lia.
Qed.

Lemma len_zero (s : string) : len s = 0 <-> s = EmptyString.
Proof.
  split; [ | now intros ->].
  destruct s as [ | c r]; [reflexivity | ]. pose proof (len_pos c r). lia.
Qed.

End CharFacts.

(** ** The catalog store *)

Section StoreFacts.
Import JsString Json Store.

Lemma bad_shape_spec (parsed : json) :
  bad_shape parsed = true <-> Spec.malformed_shape parsed.
Proof.
  unfold bad_shape, Spec.malformed_shape, version_is_not_1, Spec.version_is_1,
    Spec.list_typed, isArray, num_eqb_Z.
  split.
  - intros Hb.
    apply orb_true_iff in Hb as [Hb | Hb]; [apply orb_true_iff in Hb as [Hb | Hb] |].
    + left. intros (m & e & Hg & Hc). rewrite Hg, Hc in Hb. discriminate.
    + right; left. intros (l & Hg). rewrite Hg in Hb. discriminate.
    + right; right. intros (l & Hg). rewrite Hg in Hb. discriminate.
  - intros Hm.
    destruct (get "version" parsed) as [[ | | m e | | | ] | ] eqn:Hv; cbn;
      try reflexivity.
    destruct (num_compare_Z m e 1) eqn:Hc; cbn; try reflexivity.
    destruct (get "categories" parsed) as [[ | | | | cs | ] | ] eqn:Hcs; cbn;
      try reflexivity;
      destruct (get "products" parsed) as [[ | | | | ps | ] | ] eqn:Hps; cbn;
      try reflexivity.
    exfalso. destruct Hm as [H | [H | H]]; apply H; eauto.
Qed.

(** Reading never touches the world. *)
Lemma readCatalog_world (w : World) : snd (readCatalog w) = w.
Proof.
  unfold readCatalog, fs_readFile, parse. run.
  destruct (catalog_json w) as [ | errno | raw ]; cbn.
  - reflexivity.
  - destruct (String.eqb errno "ENOENT"); reflexivity.
  - destruct (JSON_parse raw) as [parsed | ]; cbn; [ | reflexivity].
    destruct (bad_shape parsed); reflexivity.
Qed.

End StoreFacts.

Section StoreTheorems.
Import JsString Json Store.

Lemma readCatalogData_world (w : World) : snd (readCatalogData w) = w.
Proof.
  unfold readCatalogData. run.
  pose proof (readCatalog_world w) as Hw.
  destruct (readCatalog w) as [[parsed | e] w']; cbn in *; subst; [ | reflexivity].
  destruct (Typed.as_CatalogData parsed); reflexivity.
Qed.

Lemma readCatalogData_eq (w : World) :
  readCatalogData w = (fst (readCatalogData w), w).
Proof.
  rewrite <- (readCatalogData_world w) at 3. apply surjective_pairing.
Qed.

(** C1, as the code has it: an absent document and a document that
    parses but fails the shape test give the fresh empty catalog, and a
    well-shaped document is returned as parsed; a document whose bytes
    are not valid JSON raises the parser's [SyntaxError], and a read
    failure other than [ENOENT] propagates.  None of the five cases
    writes. *)
Theorem readCatalog_self_healing (w : World) :
  let empty := defaultCatalog (JsDate.toISOString (clock w)) in
  (catalog_json w = NoFile -> readCatalog w = (Ok empty, w))
  /\ (forall raw parsed,
         catalog_json w = Bytes raw -> JSON_parse raw = Some parsed ->
         Spec.malformed_shape parsed -> readCatalog w = (Ok empty, w))
  /\ (forall raw parsed,
         catalog_json w = Bytes raw -> JSON_parse raw = Some parsed ->
         ~ Spec.malformed_shape parsed -> readCatalog w = (Ok parsed, w))
  /\ (forall raw,
         catalog_json w = Bytes raw -> JSON_parse raw = None ->
         readCatalog w = (Throw SyntaxError, w))
  /\ (forall errno,
         catalog_json w = Unreadable errno -> errno <> "ENOENT" ->
         readCatalog w = (Throw (ErrnoException errno), w))
  /\ Typed.as_CatalogData empty = Some (Spec.fresh_empty w).
Proof.
  cbv zeta. unfold readCatalog, fs_readFile, parse. run.
  repeat split.
  - intros ->. reflexivity.
  - intros raw parsed -> Hp Hm. cbn. rewrite Hp. cbn.
    apply bad_shape_spec in Hm. rewrite Hm. reflexivity.
  - intros raw parsed -> Hp Hm. cbn. rewrite Hp. cbn.
    destruct (bad_shape parsed) eqn:Hb; [ | reflexivity].
    apply bad_shape_spec in Hb. contradiction.
  - intros raw -> Hp. cbn. rewrite Hp. reflexivity.
  - intros errno -> Hne. cbn.
    destruct (String.eqb errno "ENOENT") eqn:E; [ | reflexivity].
    apply String.eqb_eq in E. contradiction.
Qed.

(** A version-2 document is replaced by the empty catalog. *)
Lemma readCatalog_self_healing_witness :
  let raw := js "{'version':2,'categories':[],'products':[]}" in
  readCatalog (Examples.with_file (Bytes raw))
  = (Ok (defaultCatalog (JsDate.toISOString Examples.t0)),
     Examples.with_file (Bytes raw)).
Proof.
  intros raw.
  refine (proj1 (proj2 (readCatalog_self_healing (Examples.with_file (Bytes raw)))) raw
            (JObj [("version", JNum 2 0); ("categories", JArr []); ("products", JArr [])])
            eq_refl _ _).
  - vm_compute. reflexivity.
  - left. intros (m & e & Hg & Hc). vm_compute in Hg.
    injection Hg as <- <-. vm_compute in Hc. discriminate.
Defined.

(** C1 as stated fails: a document whose bytes are not valid JSON
    makes [readCatalog] raise instead of returning the empty catalog. *)
Lemma readCatalog_invalid_json_raises :
  let w := Examples.with_file (Bytes "{") in
  JSON_parse "{" = None
  /\ readCatalog w = (Throw SyntaxError, w)
  /\ forall d, fst (readCatalog w) <> Ok d.
Proof.
  cbv zeta. split; [reflexivity | split; [reflexivity | ]].
  intros d H. vm_compute in H. discriminate.
Qed.

End StoreTheorems.

(** ** The mutation engine *)

Section MutationFacts.
Import JsString JsCase Store Mutate MutationSpec JsArray.

Lemma writeCatalogData_run (next : CatalogData) (w : World) :
  writeCatalogData next w = (Ok tt, persisted next w).
Proof. reflexivity. Qed.

(** A filter keeps the length exactly when it removes nothing. *)
Lemma filter_length_same {A} (f : A -> bool) (l : list A) :
  List.length (filter f l) = List.length l <-> forall x, In x l -> f x = true.
Proof.
  induction l as [ | a l IH]; cbn.
  - split; [intros _ x [] | reflexivity].
  - pose proof (filter_length_le f l) as Hle.
    destruct (f a) eqn:Ha; cbn.
    + split.
      * intros Hl x [<- | Hx]; [assumption | ]. apply IH; [lia | assumption].
      * intros Hall. f_equal. apply IH. intros x Hx. apply Hall. now right.
    + split; [lia | ]. intros Hall. specialize (Hall a (or_introl eq_refl)).
      congruence.
Qed.

Lemma id_absent_filter {A} (key : A -> string) (id : string) (l : list A) :
  ~ In id (map key l) ->
  List.length (filter (fun x => negb (String.eqb (key x) id)) l) = List.length l.
Proof.
  intros Hn. apply filter_length_same. intros x Hx.
  destruct (String.eqb (key x) id) eqn:E; [ | reflexivity].
  apply String.eqb_eq in E. exfalso. apply Hn. rewrite <- E. now apply in_map.
Qed.

Lemma id_present_filter {A} (key : A -> string) (id : string) (l : list A) :
  In id (map key l) ->
  List.length (filter (fun x => negb (String.eqb (key x) id)) l) <> List.length l.
Proof.
  intros Hin Hlen. apply in_map_iff in Hin as (x & Hk & Hx).
  pose proof (proj1 (filter_length_same _ l) Hlen x Hx) as H. cbn in H.
  rewrite Hk, String.eqb_refl in H. discriminate.
Qed.

Lemma in_without {A} (key : A -> string) (id : string) (l : list A) (x : A) :
  In x (filter (fun y => negb (String.eqb (key y) id)) l) <-> In x l /\ key x <> id.
Proof.
  rewrite filter_In. split; intros [Hx Hk]; split; try assumption.
  - intros E. rewrite E, String.eqb_refl in Hk. discriminate.
  - destruct (String.eqb (key x) id) eqn:E; [ | reflexivity].
    apply String.eqb_eq in E. contradiction.
Qed.


End MutationFacts.

Section DeleteTheorems.
Import JsString JsCase Store Mutate MutationSpec.

(** C6: deleting an id that is not in its collection returns normally
    and leaves the world, and so the persisted bytes, as they were. *)
Theorem delete_missing_is_noop (w : World) (cat : CatalogData) (id : string) :
  readCatalogData w = (Ok cat, w) ->
  (~ In id (map Category.id (categories cat)) -> deleteCategory id w = (Ok tt, w))
  /\ (~ In id (map Product.id (products cat)) -> deleteProduct id w = (Ok tt, w)).
Proof.
  intros Hread. split; intros Hn.
  - unfold deleteCategory. run. rewrite Hread.
    rewrite (id_absent_filter Category.id id _ Hn), Nat.eqb_refl. reflexivity.
  - unfold deleteProduct. run. rewrite Hread.
    rewrite (id_absent_filter Product.id id _ Hn), Nat.eqb_refl. reflexivity.
Qed.

Lemma delete_missing_is_noop_witness :
  deleteCategory "oolong" Examples.stocked = (Ok tt, Examples.stocked)
  /\ deleteProduct "matcha" Examples.stocked = (Ok tt, Examples.stocked).
Proof.
  assert (Hread : readCatalogData Examples.stocked
                  = (Ok Examples.stocked_catalog, Examples.stocked))
    by (vm_compute; reflexivity).
  destruct (delete_missing_is_noop Examples.stocked Examples.stocked_catalog "oolong" Hread)
    as [Hc _].
  destruct (delete_missing_is_noop Examples.stocked Examples.stocked_catalog "matcha" Hread)
    as [_ Hp].
  split; [apply Hc | apply Hp]; cbn; intros [H | []]; discriminate.
Defined.



End DeleteTheorems.

Section IdentifierFacts.
Import JsString JsCase Store Mutate MutationSpec JsArray.

Lemma draw_draw (n m : nat) (w : World) : draw m (draw n w) = draw (n + m) w.
Proof. unfold draw; cbn. f_equal. lia. Qed.

Lemma draw_0 (w : World) : draw 0 w = w.
Proof. destruct w; unfold draw; cbn. f_equal. lia. Qed.

Lemma has_true_iff (xs : list string) (x : string) : has xs x = true <-> In x xs.
Proof.
  unfold has. rewrite existsb_exists. split.
  - intros (y & Hy & E). apply String.eqb_eq in E. now subst.
  - intros Hx. exists x. split; [assumption | apply String.eqb_refl].
Qed.

Lemma has_false_iff (xs : list string) (x : string) : has xs x = false <-> ~ In x xs.
Proof.
  rewrite <- has_true_iff. destruct (has xs x); split; intros; congruence.
Qed.

Lemma randomUUID_run (w : World) :
  randomUUID w = (Ok (uuid_text (next_bytes 16 w)), draw 16 w).
Proof. reflexivity. Qed.

Lemma suffix_at_shift (w : World) (k : nat) :
  suffix_at (draw 2 w) k = suffix_at w (S k).
Proof.
  unfold suffix_at. rewrite draw_draw.
  replace (2 + 2 * k)%nat with (2 * S k)%nat by lia. reflexivity.
Qed.

Lemma taken_shift (base : string) (used : list string) (w : World) (l : list nat) :
  forallb (fun k => has used (base ++ "-" ++ suffix_at w k)) (map S l)
  = forallb (fun k => has used (base ++ "-" ++ suffix_at (draw 2 w) k)) l.
Proof.
  induction l as [ | a l IHl]; cbn [forallb map]; [reflexivity | ].
  rewrite suffix_at_shift, IHl. reflexivity.
Qed.

(** The retry loop: it ends on the first free candidate, and on the
    unchecked UUID when its [i] candidates are all taken. *)
Lemma uniqueId_retry_spec (base : string) (used : list string) (i : nat) :
  forall w,
    let taken := forallb (fun k => has used (base ++ "-" ++ suffix_at w k)) (seq 0 i) in
    exists id n,
      uniqueId_retry i base used w = (Ok id, draw n w)
      /\ (taken = false -> has used id = false)
      /\ (taken = true -> id = uuid_text (next_bytes 16 (draw (2 * i) w))).
Proof.
  induction i as [ | i IH]; intros w; cbn zeta.
  - exists (uuid_text (next_bytes 16 w)), 16%nat. cbn [uniqueId_retry seq forallb].
    rewrite randomUUID_run. repeat split; try discriminate.
    intros _. now rewrite draw_0.
  - cbn [uniqueId_retry]. unfold randomBytes. run.
    assert (Hs0 : Buffer.toHex (next_bytes 2 w) = suffix_at w 0).
    { unfold suffix_at. cbn [Nat.mul]. now rewrite draw_0. }
    rewrite Hs0.
    rewrite <- cons_seq, <- seq_shift. cbn [forallb map].
    destruct (has used (base ++ "-" ++ suffix_at w 0)) eqn:Hc; cbn [negb andb].
    + destruct (IH (draw 2 w)) as (id & n & Hrun & Hfree & Hfall). cbn zeta in *.
      exists id, (2 + n)%nat. rewrite Hrun, draw_draw.
      rewrite taken_shift. repeat split; try assumption.
      intros Ht. rewrite (Hfall Ht), draw_draw.
      replace (2 + 2 * i)%nat with (2 * S i)%nat by lia. reflexivity.
    + exists (base ++ "-" ++ suffix_at w 0), 2%nat. repeat split; try discriminate.
      intros _. assumption.
Qed.

Lemma uniqueId_spec (base : string) (used : list string) (w : World) :
  exists id n,
    uniqueId base used w = (Ok id, draw n w)
    /\ (all_collide base used w = false -> ~ In id used)
    /\ (all_collide base used w = true -> id = fallback_uuid w).
Proof.
  unfold uniqueId, all_collide, fallback_uuid.
  destruct (has used base) eqn:Hb; cbn [negb andb].
  - destruct (uniqueId_retry_spec base used 10 w) as (id & n & Hrun & Hfree & Hfall).
    cbn zeta in *. exists id, n. split; [assumption | split].
    + intros Ht. apply has_false_iff. auto.
    + intros Ht. apply Hfall. assumption.
  - exists base, 0%nat. run. rewrite draw_0. repeat split; try discriminate.
    intros _. apply has_false_iff. assumption.
Qed.

Lemma baseId_of_run `{Host} (name : string) (w : World) :
  exists base n, baseId_of name w = (Ok base, draw n w).
Proof.
  unfold baseId_of. destruct (falsy (slugify name)).
  - rewrite randomUUID_run. eauto.
  - exists (slugify name), 0%nat. run. now rewrite draw_0.
Qed.

End IdentifierFacts.

Section CreateFacts.
Import JsString JsCase Store Mutate MutationSpec Verdicts JsArray.

Lemma falsy_missing (s : string) : falsy s = missing s.
Proof.
  destruct s as [ | c r]; [reflexivity | ]. unfold missing, falsy.
  symmetry. apply Z.eqb_neq. pose proof (len_pos c r). lia.
Qed.

Lemma bad_variant_spec (v : option string) : bad_variant v = variant_not_enumerated v.
Proof.
  destruct v as [s | ]; [ | reflexivity]. unfold bad_variant, variant_not_enumerated.
  rewrite falsy_missing, negb_orb, andb_assoc. reflexivity.
Qed.

Lemma clock_draw (n : nat) (w : World) : clock (draw n w) = clock w.
Proof. reflexivity. Qed.

Lemma persisted_draw (next : CatalogData) (n : nat) (w : World) :
  persisted next (draw n w) = draw n (persisted next w).
Proof. reflexivity. Qed.

(** What [createCategory] does, by the verdict of the specification. *)
Lemma createCategory_cases `{Host} (nameRaw : string) (w : World) :
  match category_verdict nameRaw w with
  | Rejected message => createCategory nameRaw w = (Throw (Error message), w)
  | ReadFailed e => createCategory nameRaw w = (Throw e, w)
  | Accepted cat =>
      exists base k id n,
        baseId_of (normalizeName nameRaw) w = (Ok base, draw k w)
        /\ uniqueId base (map Category.id (categories cat)) (draw k w)
           = (Ok id, draw n (draw k w))
        /\ createCategory nameRaw w
           = (Ok (new_category id nameRaw w),
              persisted (with_category (new_category id nameRaw w) cat) (draw (k + n) w))
  end.
Proof.
  unfold category_verdict, verdict, category_input_rules, category_catalog_rules,
    createCategory. cbn [first_violation].
  rewrite falsy_missing. unfold longer_than.
  destruct (missing (normalizeName nameRaw)); [reflexivity | ].
  destruct (60 <? len (normalizeName nameRaw)); [reflexivity | ].
  run. rewrite (readCatalogData_eq w). cbn [fst].
  destruct (fst (readCatalogData w)) as [cat | e]; [ | reflexivity].
  unfold name_taken, same_name. cbv beta iota.
  destruct (existsb _ (categories cat)); [reflexivity | ].
  destruct (baseId_of_run (normalizeName nameRaw) w) as (base & k & Hbase).
  destruct (uniqueId_spec base (map Category.id (categories cat)) (draw k w))
    as (id & n & Hid & _).
  exists base, k, id, n. rewrite Hbase, Hid. repeat split.
  unfold nowIso. run. rewrite writeCatalogData_run, draw_draw. reflexivity.
Qed.

(** What [createProduct] does, by the verdict of the specification. *)
Lemma createProduct_cases `{Host} (i : CreateProductInput) (w : World) :
  match product_verdict i w with
  | Rejected message => createProduct i w = (Throw (Error message), w)
  | ReadFailed e => createProduct i w = (Throw e, w)
  | Accepted cat =>
      exists base k id n,
        baseId_of (normalizeName (name i)) w = (Ok base, draw k w)
        /\ uniqueId base (map Product.id (products cat)) (draw k w)
           = (Ok id, draw n (draw k w))
        /\ createProduct i w
           = (Ok (new_product id i w),
              persisted (with_product (new_product id i w) cat) (draw (k + n) w))
  end.
Proof.
  unfold product_verdict, verdict, product_input_rules, product_catalog_rules,
    createProduct. cbn [first_violation].
  rewrite !falsy_missing, bad_variant_spec. unfold longer_than, not_a_url, not_https.
  destruct (missing (trim (categoryId i))); [reflexivity | ].
  destruct (missing (normalizeName (name i))); [reflexivity | ].
  destruct (80 <? len (normalizeName (name i))); [reflexivity | ].
  destruct (missing (trim (description i))); [reflexivity | ].
  destruct (200 <? len (trim (description i))); [reflexivity | ].
  destruct (missing (trim (priceLabel i))); [reflexivity | ].
  destruct (20 <? len (trim (priceLabel i))); [reflexivity | ].
  destruct (missing (trim (imageUrl i))); [reflexivity | ].
  destruct (2000 <? len (trim (imageUrl i))); [reflexivity | ].
  destruct (URL_protocol (trim (imageUrl i))) as [protocol | ]; [ | reflexivity].
  destruct (negb (String.eqb protocol "https:")); [reflexivity | ].
  destruct (variant_not_enumerated (badgeVariant i)); [reflexivity | ].
  run. rewrite (readCatalogData_eq w). cbn [fst].
  destruct (fst (readCatalogData w)) as [cat | e]; [ | reflexivity].
  unfold category_known. cbv beta iota.
  destruct (existsb _ (categories cat)); [ | reflexivity]. cbn [negb].
  destruct (baseId_of_run (normalizeName (name i)) w) as (base & k & Hbase).
  destruct (uniqueId_spec base (map Product.id (products cat)) (draw k w))
    as (id & n & Hid & _).
  exists base, k, id, n. rewrite Hbase, Hid. repeat split.
  unfold nowIso. run. rewrite writeCatalogData_run, draw_draw. reflexivity.
Qed.

End CreateFacts.

Section CreateTheorems.
Import JsString JsCase Store Mutate MutationSpec Verdicts IdentifierSpec JsArray.

Lemma first_violation_none (rules : list (bool * string)) :
  first_violation rules = None -> forall m, ~ In (true, m) rules.
Proof.
  induction rules as [ | [b m'] rules IH]; cbn; intros Hn m; [tauto | ].
  destruct b; [discriminate | ]. intros [E | Hin]; [discriminate | ].
  exact (IH Hn m Hin).
Qed.

(** A failed read is no validation error. *)
Lemma read_failure_kind (w : World) (e : Exn) :
  fst (readCatalogData w) = Throw e -> forall message, e <> Error message.
Proof.
  unfold readCatalogData, readCatalog, fs_readFile, parse. run.
  destruct (catalog_json w) as [ | errno | raw]; cbv beta iota.
  - cbn [code_of]. change (String.eqb "ENOENT" "ENOENT") with true. cbv beta iota.
    destruct (Typed.as_CatalogData _); cbn [fst]; [discriminate | ].
    intros [= <-] message. discriminate.
  - cbn [code_of]. destruct (String.eqb errno "ENOENT"); cbv beta iota.
    + destruct (Typed.as_CatalogData _); cbn [fst]; [discriminate | ].
      intros [= <-] message. discriminate.
    + cbn [fst]. intros [= <-] message. discriminate.
  - destruct (Json.JSON_parse raw) as [parsed | ]; cbv beta iota.
    + destruct (bad_shape parsed); cbv beta iota;
        (destruct (Typed.as_CatalogData _); cbn [fst]; [discriminate | ]);
        intros [= <-] message; discriminate.
    + cbn [code_of fst]. intros [= <-] message. discriminate.
Qed.

(** C5: a validation or conflict error of [createCategory] or
    [createProduct] is raised before anything is written: the world,
    and so the persisted document, is as it was, and the one message
    the error carries is that of the first violated rule, in the order
    of the specification.  Conversely the first violated rule is raised
    in this way. *)
Theorem create_fails_before_write `{Host}
  (nameRaw : string) (i : CreateProductInput) (w : World) :
  (forall message w',
      createCategory nameRaw w = (Throw (Error message), w') ->
      w' = w /\ category_verdict nameRaw w = Rejected message)
  /\ (forall message,
        category_verdict nameRaw w = Rejected message ->
        createCategory nameRaw w = (Throw (Error message), w))
  /\ (forall message w',
        createProduct i w = (Throw (Error message), w') ->
        w' = w /\ product_verdict i w = Rejected message)
  /\ (forall message,
        product_verdict i w = Rejected message ->
        createProduct i w = (Throw (Error message), w)).
Proof.
  split; [ | split; [ | split]].
  - intros message w' Hrun. pose proof (createCategory_cases nameRaw w) as Hc.
    destruct (category_verdict nameRaw w) as [m | e0 | cat] eqn:V.
    + rewrite Hc in Hrun. injection Hrun as <- <-. split; reflexivity.
    + rewrite Hc in Hrun. injection Hrun as -> <-. exfalso.
      unfold category_verdict, verdict in V.
      destruct (first_violation _); [discriminate | ].
      destruct (fst (readCatalogData w)) as [cat | e] eqn:Hread.
      * destruct (first_violation _); discriminate.
      * injection V as ->. exact (read_failure_kind w _ Hread message eq_refl).
    + destruct Hc as (base & k & id & n & _ & _ & Hc). rewrite Hc in Hrun. discriminate.
  - intros message V. pose proof (createCategory_cases nameRaw w) as Hc.
    rewrite V in Hc. exact Hc.
  - intros message w' Hrun. pose proof (createProduct_cases i w) as Hc.
    destruct (product_verdict i w) as [m | e0 | cat] eqn:V.
    + rewrite Hc in Hrun. injection Hrun as <- <-. split; reflexivity.
    + rewrite Hc in Hrun. injection Hrun as -> <-. exfalso.
      unfold product_verdict, verdict in V.
      destruct (first_violation _); [discriminate | ].
      destruct (fst (readCatalogData w)) as [cat | e] eqn:Hread.
      * destruct (first_violation _); discriminate.
      * injection V as ->. exact (read_failure_kind w _ Hread message eq_refl).
    + destruct Hc as (base & k & id & n & _ & _ & Hc). rewrite Hc in Hrun. discriminate.
  - intros message V. pose proof (createProduct_cases i w) as Hc.
    rewrite V in Hc. exact Hc.
Qed.

(** What [createCategory] does for a name that a stored category has,
    up to letter case. *)
Lemma taken_name_rejected `{Host}
  (w : World) (cat : CatalogData) (nameRaw : string) (c : Category.t) :
  readCatalogData w = (Ok cat, w) ->
  In c (categories cat) ->
  toLowerCase (Category.name c) = toLowerCase (normalizeName nameRaw) ->
  createCategory nameRaw w
  = (Throw (Error (if missing (normalizeName nameRaw)
                   then "Category name is required."
                   else if longer_than 60 (normalizeName nameRaw)
                        then "Category name is too long (max 60 chars)."
                        else "Category already exists.")), w).
Proof.
  intros Hread Hin Hsame.
  pose proof (createCategory_cases nameRaw w) as Hc.
  unfold category_verdict, verdict, category_input_rules, category_catalog_rules in Hc.
  cbn [first_violation] in Hc.
  destruct (missing (normalizeName nameRaw)); [exact Hc | ].
  destruct (longer_than 60 (normalizeName nameRaw)); [exact Hc | ].
  rewrite Hread in Hc. cbn [fst] in Hc.
  assert (Ht : name_taken (normalizeName nameRaw) cat = true).
  { apply existsb_exists. exists c. split; [assumption | ].
    unfold same_name. rewrite Hsame. apply String.eqb_refl. }
  rewrite Ht in Hc. exact Hc.
Qed.

(** C7, as the code has it: when a stored category equals the
    normalized new name up to letter case, [createCategory] fails and
    writes nothing; the error is that of the first violated rule, which
    is the conflict error whenever the normalized new name is not empty
    and has at most 60 characters. *)
Theorem duplicate_name_conflicts `{Host}
  (w : World) (cat : CatalogData) (nameRaw : string) (c : Category.t) :
  readCatalogData w = (Ok cat, w) ->
  In c (categories cat) ->
  toLowerCase (Category.name c) = toLowerCase (normalizeName nameRaw) ->
  createCategory nameRaw w
  = (Throw (Error (if missing (normalizeName nameRaw)
                   then "Category name is required."
                   else if longer_than 60 (normalizeName nameRaw)
                        then "Category name is too long (max 60 chars)."
                        else "Category already exists.")), w)
  /\ (1 <= len (normalizeName nameRaw) <= 60 ->
      createCategory nameRaw w = (Throw ConflictError, w)).
Proof.
  intros Hread Hin Hsame.
  pose proof (taken_name_rejected w cat nameRaw c Hread Hin Hsame) as Hrun.
  split; [exact Hrun | ].
  intros Hlen. rewrite Hrun. unfold missing, longer_than.
  destruct (Z.eqb_spec (len (normalizeName nameRaw)) 0) as [E | _]; [lia | ].
  destruct (Z.ltb_spec 60 (len (normalizeName nameRaw))) as [E | _]; [lia | ].
  reflexivity.
Qed.

(** "Green Tea", then "green tea". *)
Lemma duplicate_name_conflicts_witness :
  createCategory (H := Examples.sample_host) "green tea" Examples.shop
  = (Throw ConflictError, Examples.shop).
Proof.
  refine (proj2 (duplicate_name_conflicts (H := Examples.sample_host)
                   Examples.shop Examples.shop_catalog "green tea"
                   Examples.green_tea _ _ _) _).
  - vm_compute. reflexivity.
  - left. reflexivity.
  - vm_compute. reflexivity.
  - vm_compute. split; discriminate.
Defined.

(** C7 as stated fails where lower-casing changes the length.  The
    catalog holds a category named with thirty-one U+0130, which is 31
    characters long; the new name, thirty-one times [i] with the
    combining dot, is equal to it up to letter case but 62 characters
    long, and [createCategory] raises the length error, not the
    conflict. *)
Lemma long_duplicate_is_too_long :
  (exists c cat,
      fst (readCatalogData Examples.dotted_shop) = Ok cat
      /\ In c (categories cat)
      /\ Category.name c = repeat_string 31 Examples.dotted_I
      /\ toLowerCase (H := Examples.dotted_host) (Category.name c)
         = toLowerCase (H := Examples.dotted_host)
             (normalizeName (repeat_string 31 Examples.dotted_i)))
  /\ len (repeat_string 31 Examples.dotted_I) = 31
  /\ len (normalizeName (repeat_string 31 Examples.dotted_i)) = 62
  /\ createCategory (H := Examples.dotted_host) (repeat_string 31 Examples.dotted_i)
       Examples.dotted_shop
     = (Throw (Error "Category name is too long (max 60 chars)."), Examples.dotted_shop).
Proof.
  split.
  - eexists _, _. split; [vm_compute; reflexivity | ].
    split; [left; reflexivity | ]. split; vm_compute; reflexivity.
  - split; [vm_compute; reflexivity | ].
    split; vm_compute; reflexivity.
Qed.

End CreateTheorems.

Section BoundaryTheorems.
Import JsString JsCase Store Mutate MutationSpec Verdicts IdentifierSpec JsArray.

Lemma rejected_raises `{Host} (i : CreateProductInput) (w : World) (m : string) :
  In (true, m) (product_input_rules i) -> exists e, createProduct i w = (Throw e, w).
Proof.
  intros Hin. pose proof (createProduct_cases i w) as Hc.
  unfold product_verdict, verdict in Hc.
  destruct (first_violation (product_input_rules i)) as [m' | ] eqn:Hv; [eauto | ].
  exfalso. exact (first_violation_none _ Hv m Hin).
Qed.

(** C8: whatever the other fields are, [createProduct] raises when the
    trimmed image URL does not parse or its protocol is not [https:], and
    when the normalized name has more than 80 characters; it succeeds on
    an otherwise valid input whose URL parses with the protocol [https:]
    and whose name has 1 to 80 characters. *)
Theorem createProduct_boundaries `{Host} (i : CreateProductInput) (w : World) :
  (URL_protocol (trim (imageUrl i)) <> Some "https:" ->
     exists e, createProduct i w = (Throw e, w))
  /\ (80 < len (normalizeName (name i)) -> exists e, createProduct i w = (Throw e, w))
  /\ (forall cat,
        readCatalogData w = (Ok cat, w) ->
        otherwise_valid i cat ->
        URL_protocol (trim (imageUrl i)) = Some "https:" ->
        1 <= len (normalizeName (name i)) <= 80 ->
        exists id w',
          createProduct i w = (Ok (new_product id i w), w')
          /\ catalog_json w' = catalog_json (persisted (with_product (new_product id i w) cat) w)).
Proof.
  split; [ | split].
  - intros Hurl.
    destruct (URL_protocol (trim (imageUrl i))) as [p | ] eqn:Hp.
    + apply (rejected_raises i w "Image URL must be https.").
      unfold product_input_rules, not_https. rewrite Hp.
      destruct (String.eqb_spec p "https:") as [-> | _]; [congruence | ].
      cbn. tauto.
    + apply (rejected_raises i w "Image URL is invalid.").
      unfold product_input_rules, not_a_url. rewrite Hp. cbn. tauto.
  - intros Hlong.
    apply (rejected_raises i w "Product name is too long (max 80 chars).").
    unfold product_input_rules, longer_than.
    destruct (Z.ltb_spec 80 (len (normalizeName (name i)))); [ | lia]. cbn. tauto.
  - intros cat Hread (Hcat & Hknown & Hd & Hp & Hu & Hv) Hurl Hname.
    pose proof (createProduct_cases i w) as Hc.
    unfold product_verdict, verdict, product_input_rules, product_catalog_rules in Hc.
    cbn [first_violation] in Hc.
    unfold not_a_url, not_https, longer_than, missing in Hc.
    rewrite Hurl, Hv, Hread in Hc. cbn [fst] in Hc. rewrite Hknown in Hc.
    repeat match type of Hc with
           | context [?a =? 0] => destruct (Z.eqb_spec a 0); [lia | ]
           | context [?a <? ?b] => destruct (Z.ltb_spec a b); [lia | ]
           end.
    cbn in Hc. destruct Hc as (base & k & id & cnt & _ & _ & Hc).
    exists id, (persisted (with_product (new_product id i w) cat) (draw (k + cnt) w)).
    split; [exact Hc | reflexivity].
Qed.

Lemma createProduct_boundaries_witness :
  (exists e, createProduct (H := Examples.sample_host)
               (Examples.tea_input "Sencha" "http://example.com/a.png") Examples.shop
             = (Throw e, Examples.shop))
  /\ (exists e, createProduct (H := Examples.sample_host)
                  (Examples.tea_input Examples.name201 "https://example.com/a.png")
                  Examples.shop
                = (Throw e, Examples.shop))
  /\ (exists id w', createProduct (H := Examples.sample_host)
                      (Examples.tea_input Examples.name80 "https://example.com/a.png")
                      Examples.shop
                    = (Ok (new_product id
                             (Examples.tea_input Examples.name80 "https://example.com/a.png")
                             Examples.shop), w')
                    /\ catalog_json w'
                       = catalog_json
                           (persisted
                              (with_product
                                 (new_product id
                                    (Examples.tea_input Examples.name80
                                       "https://example.com/a.png") Examples.shop)
                                 Examples.shop_catalog) Examples.shop)).
Proof.
  split; [ | split].
  - apply (proj1 (createProduct_boundaries (H := Examples.sample_host)
                    (Examples.tea_input "Sencha" "http://example.com/a.png") Examples.shop)).
    vm_compute. discriminate.
  - apply (proj1 (proj2 (createProduct_boundaries (H := Examples.sample_host)
                    (Examples.tea_input Examples.name201 "https://example.com/a.png")
                    Examples.shop))).
    vm_compute. reflexivity.
  - apply (proj2 (proj2 (createProduct_boundaries (H := Examples.sample_host)
                    (Examples.tea_input Examples.name80 "https://example.com/a.png")
                    Examples.shop))).
    + vm_compute. reflexivity.
    + unfold otherwise_valid. vm_compute. repeat split; discriminate.
    + vm_compute. reflexivity.
    + vm_compute. split; discriminate.
Defined.

(** Lengths are those of [String.length].  A price of 19 characters
    with the euro sign is within the limit of 20, so that the protocol
    of the URL decides; a name of eighty accented letters is accepted. *)
Lemma lengths_count_characters :
  len Examples.euro_price = 19
  /\ createProduct (H := Examples.sample_host)
       (Examples.priced_input "http://example.com/a.png") Examples.shop
     = (Throw (Error "Image URL must be https."), Examples.shop)
  /\ len Examples.accents80 = 80
  /\ exists w',
       createProduct (H := Examples.sample_host)
         (Examples.tea_input Examples.accents80 "https://example.com/a.png") Examples.shop
       = (Ok (new_product Examples.zero_uuid
                (Examples.tea_input Examples.accents80 "https://example.com/a.png")
                Examples.shop), w').
Proof.
  split; [vm_compute; reflexivity | ]. split; [vm_compute; reflexivity | ].
  split; [vm_compute; reflexivity | ]. eexists. vm_compute. reflexivity.
Qed.

End BoundaryTheorems.

Section IdentifierTheorems.
Import JsString JsCase Store Mutate MutationSpec Verdicts IdentifierSpec JsArray.

Lemma NoDup_snoc (l : list string) (x : string) : NoDup l -> ~ In x l -> NoDup (l ++ [x]).
Proof.
  induction l as [ | a l IH]; cbn; intros Hnd Hn.
  - constructor; [tauto | constructor].
  - inversion Hnd as [ | ? ? Ha Hl]; subst. constructor.
    + rewrite in_app_iff. cbn. intros [Hin | [E | []]]; [tauto | ]. subst. tauto.
    + apply IH; tauto.
Qed.

Lemma NoDup_map_filter {A} (key : A -> string) (f : A -> bool) (l : list A) :
  NoDup (map key l) -> NoDup (map key (filter f l)).
Proof.
  induction l as [ | a l IH]; cbn; intros Hnd; [constructor | ].
  inversion Hnd as [ | ? ? Ha Hl]; subst.
  destruct (f a); cbn; [ | auto]. constructor; [ | auto].
  intros Hin. apply Ha. apply in_map_iff in Hin as (y & E & Hy).
  apply filter_In in Hy as [Hy _]. rewrite <- E. now apply in_map.
Qed.

(** How the id of a successful create relates to the ids in use. *)
Lemma chosen_id `{Host} (name : string) (used : list string) (w : World)
  (base : string) (k : nat) (id : string) (n : nat) :
  baseId_of name w = (Ok base, draw k w) ->
  uniqueId base used (draw k w) = (Ok id, draw n (draw k w)) ->
  (retries_exhausted name used w = false -> ~ In id used)
  /\ (retries_exhausted name used w = true -> id = unchecked_uuid name w).
Proof.
  intros Hbase Hid. unfold retries_exhausted, unchecked_uuid. rewrite Hbase.
  destruct (uniqueId_spec base used (draw k w)) as (id' & n' & Hid' & Hfree & Hfall).
  rewrite Hid in Hid'. injection Hid' as -> _. auto.
Qed.

(** C3, as the code has it: the id given by a successful create is not
    among the ids in use, and the collection written keeps its ids
    distinct, unless the slug and its ten suffixed retries were all in
    use; the id is then the UUID that [uniqueId] returns without a
    lookup.  Both deletes keep the ids distinct. *)
Theorem created_id_fresh_unless_retries_exhausted `{Host}
  (w : World) (cat : CatalogData) :
  readCatalogData w = (Ok cat, w) ->
  (forall nameRaw c w',
      createCategory nameRaw w = (Ok c, w') ->
      let name := normalizeName nameRaw in
      (exists n, w' = persisted (with_category c cat) (draw n w))
      /\ (retries_exhausted name (category_ids cat) w = false ->
          ~ In (Category.id c) (category_ids cat)
          /\ (NoDup (category_ids cat) -> NoDup (category_ids (with_category c cat))))
      /\ (retries_exhausted name (category_ids cat) w = true ->
          Category.id c = unchecked_uuid name w))
  /\ (forall i p w',
        createProduct i w = (Ok p, w') ->
        let name := normalizeName (Mutate.name i) in
        (exists n, w' = persisted (with_product p cat) (draw n w))
        /\ (retries_exhausted name (product_ids cat) w = false ->
            ~ In (Product.id p) (product_ids cat)
            /\ (NoDup (product_ids cat) -> NoDup (product_ids (with_product p cat))))
        /\ (retries_exhausted name (product_ids cat) w = true ->
            Product.id p = unchecked_uuid name w))
  /\ (forall id,
        (NoDup (category_ids cat) ->
         NoDup (map Category.id (without_category id (categories cat))))
        /\ (NoDup (product_ids cat) ->
            NoDup (map Product.id (without_products_of id (products cat)))
            /\ NoDup (map Product.id (without_product id (products cat))))).
Proof.
  intros Hread. split; [ | split].
  - intros nameRaw c w' Hrun name.
    pose proof (createCategory_cases nameRaw w) as Hc.
    unfold category_verdict, verdict in Hc.
    destruct (first_violation (category_input_rules _));
      [rewrite Hc in Hrun; discriminate | ].
    rewrite Hread in Hc. cbn [fst] in Hc.
    destruct (first_violation (category_catalog_rules _ cat));
      [rewrite Hc in Hrun; discriminate | ].
    destruct Hc as (base & k & id & n & Hbase & Hid & Hc).
    rewrite Hc in Hrun. injection Hrun as <- <-.
    destruct (chosen_id _ _ _ _ _ _ _ Hbase Hid) as [Hfree Hfall].
    split; [eauto | split]; [ | exact Hfall].
    intros Hx. split; [exact (Hfree Hx) | ].
    intros Hnd. unfold category_ids, with_category; cbn [categories].
    rewrite map_app. apply NoDup_snoc; [assumption | exact (Hfree Hx)].
  - intros i p w' Hrun name.
    pose proof (createProduct_cases i w) as Hc.
    unfold product_verdict, verdict in Hc.
    destruct (first_violation (product_input_rules _));
      [rewrite Hc in Hrun; discriminate | ].
    rewrite Hread in Hc. cbn [fst] in Hc.
    destruct (first_violation (product_catalog_rules _ cat));
      [rewrite Hc in Hrun; discriminate | ].
    destruct Hc as (base & k & id & n & Hbase & Hid & Hc).
    rewrite Hc in Hrun. injection Hrun as <- <-.
    destruct (chosen_id _ _ _ _ _ _ _ Hbase Hid) as [Hfree Hfall].
    split; [eauto | split]; [ | exact Hfall].
    intros Hx. split; [exact (Hfree Hx) | ].
    intros Hnd. unfold product_ids, with_product; cbn [products].
    rewrite map_app. apply NoDup_snoc; [assumption | exact (Hfree Hx)].
  - intros id. split; intros Hnd; [ | split]; apply NoDup_map_filter; exact Hnd.
Qed.

(** A second category for the shop gets the fresh id [oolong]. *)
Lemma created_id_fresh_witness :
  ~ In "oolong" (category_ids Examples.shop_catalog).
Proof.
  refine (proj1 (proj1 (proj2 (proj1
            (created_id_fresh_unless_retries_exhausted (H := Examples.sample_host)
               Examples.shop Examples.shop_catalog _)
            "Oolong"
            (new_category "oolong" "Oolong" Examples.shop)
            (persisted (with_category (new_category "oolong" "Oolong" Examples.shop)
                          Examples.shop_catalog) Examples.shop)
            _)) _)).
  - vm_compute. reflexivity.
  - vm_compute. reflexivity.
  - vm_compute. reflexivity.
Defined.

(** C3 as stated fails.  With an entropy source that repeats itself, the
    fourth of four creates from the empty catalog finds its slug and its
    ten suffixed candidates in use and is given the UUID that the third
    category already has. *)
Lemma fallback_uuid_collides :
  fst (readCatalogData Examples.oolongs) = Ok Examples.oolongs_catalog
  /\ fst (createCategory (H := Examples.sample_host) "Oolong!" Examples.oolongs)
     = Ok (Category.mk Examples.zero_uuid "Oolong!" "2025-12-01T00:00:00.000Z")
  /\ In Examples.zero_uuid (category_ids Examples.oolongs_catalog)
  /\ retries_exhausted (H := Examples.sample_host) (normalizeName "Oolong!")
       (category_ids Examples.oolongs_catalog) Examples.oolongs = true.
Proof.
  split; [vm_compute; reflexivity | ].
  split; [vm_compute; reflexivity | ].
  split; [cbn; tauto | vm_compute; reflexivity].
Qed.

End IdentifierTheorems.

(** ** Timestamps *)

Section StringOrder.
Import JsString.

Lemma code_range (c : ascii) : 0 <= code c < 256.
Proof.
  unfold code. pose proof (N_ascii_bounded c) as Hb. lia.
Qed.

Lemma code_chr (z : Z) : 0 <= z < 256 -> code (chr z) = z.
Proof.
  intros Hz. unfold code, chr. rewrite Z.mod_small by assumption.
  rewrite N_ascii_embedding by lia. lia.
Qed.

Lemma code_inj (a b : ascii) : code a = code b -> a = b.
Proof.
  unfold code. intros E. apply N2Z.inj in E.
  rewrite <- (ascii_N_embedding a), <- (ascii_N_embedding b), E. reflexivity.
Qed.

Lemma compare_refl (a : string) : compare a a = Eq.
Proof. induction a as [ | c a IH]; cbn; [reflexivity | ]. now rewrite Z.compare_refl. Qed.

Lemma compare_antisym (a b : string) : compare b a = CompOpp (compare a b).
Proof.
  revert b. induction a as [ | x a IH]; intros [ | y b]; cbn; try reflexivity.
  rewrite (Z.compare_antisym (code x) (code y)).
  destruct (code x ?= code y); cbn; auto.
Qed.

Lemma compare_eq (a b : string) : compare a b = Eq -> a = b.
Proof.
  revert b. induction a as [ | x a IH]; intros [ | y b]; cbn; try discriminate; [reflexivity | ].
  destruct (Z.compare_spec (code x) (code y)) as [E | | ]; try discriminate.
  intros H. apply code_inj in E. rewrite (IH b H), E. reflexivity.
Qed.

Lemma compare_trans_le (a b c : string) :
  compare a b <> Gt -> compare b c <> Gt -> compare a c <> Gt.
Proof.
  revert b c. induction a as [ | x a IH]; intros [ | y b] [ | z c]; cbn; try congruence.
  destruct (Z.compare_spec (code x) (code y)), (Z.compare_spec (code y) (code z)),
    (Z.compare_spec (code x) (code z)); try congruence; try lia.
  apply IH.
Qed.

Lemma app_assoc_string (a b c : string) : (a ++ b) ++ c = a ++ (b ++ c).
Proof. induction a as [ | x a IH]; cbn; [reflexivity | ]. now rewrite IH. Qed.

Lemma app_empty_r (a : string) : a ++ EmptyString = a.
Proof. induction a as [ | x a IH]; cbn; [reflexivity | now rewrite IH]. Qed.

Lemma length_app_string (a b : string) :
  String.length (a ++ b) = (String.length a + String.length b)%nat.
Proof. induction a as [ | x a IH]; cbn; [reflexivity | ]. now rewrite IH. Qed.

(** Two texts that start with pieces of the same length are ordered by
    these pieces, and by what follows when the pieces are equal. *)
Lemma compare_app (a a' b b' : string) :
  String.length a = String.length a' ->
  compare (a ++ b) (a' ++ b')
  = match compare a a' with Eq => compare b b' | o => o end.
Proof.
  revert a'. induction a as [ | x a IH]; intros [ | y a']; cbn; try discriminate;
    [reflexivity | ].
  intros Hl. injection Hl as Hl. destruct (code x ?= code y); auto.
Qed.

Lemma compare_same_head (c : ascii) (a b : string) :
  compare (String c a) (String c b) = compare a b.
Proof. cbn. now rewrite Z.compare_refl. Qed.

End StringOrder.

Section DateFacts.
Import JsString JsDate QuerySpec.

Lemma pad_digits_length (w : nat) (n : Z) : String.length (pad_digits w n) = w.
Proof. induction w as [ | w IH]; cbn; [reflexivity | ]. now rewrite IH. Qed.

Lemma digit_char_code (d : Z) : 0 <= d < 10 -> code (Json.digit_char d) = 48 + d.
Proof. intros Hd. unfold Json.digit_char. apply code_chr. lia. Qed.

Lemma pow10_split (k : nat) (a : Z) :
  a mod 10 ^ Z.of_nat (S k)
  = a mod 10 ^ Z.of_nat k + 10 ^ Z.of_nat k * ((a / 10 ^ Z.of_nat k) mod 10).
Proof.
  rewrite Nat2Z.inj_succ, Z.pow_succ_r by lia.
  rewrite (Z.mul_comm 10). apply Z.rem_mul_r; [ | lia].
  apply Z.pow_nonzero; lia.
Qed.

(** Fixed-width decimals are ordered as the numbers they print. *)
Lemma pad_digits_lt (w : nat) (a b : Z) :
  a mod 10 ^ Z.of_nat w < b mod 10 ^ Z.of_nat w ->
  compare (pad_digits w a) (pad_digits w b) = Lt.
Proof.
  induction w as [ | k IH]; intros Hlt.
  - cbn in Hlt. rewrite !Z.mod_1_r in Hlt. lia.
  - rewrite !pow10_split in Hlt. cbn [pad_digits compare].
    set (P := 10 ^ Z.of_nat k) in *.
    assert (HP : 0 < P) by (apply Z.pow_pos_nonneg; lia).
    pose proof (Z.mod_pos_bound a P HP) as Ha.
    pose proof (Z.mod_pos_bound b P HP) as Hb.
    pose proof (Z.mod_pos_bound (a / P) 10 ltac:(lia)) as Hda.
    pose proof (Z.mod_pos_bound (b / P) 10 ltac:(lia)) as Hdb.
    rewrite !digit_char_code by assumption.
    destruct (Z.compare_spec (48 + (a / P) mod 10) (48 + (b / P) mod 10)) as [E | L | G].
    + apply IH. fold P. assert (E' : (a / P) mod 10 = (b / P) mod 10) by lia.
      rewrite E' in Hlt. lia.
    + reflexivity.
    + exfalso. nia.
Qed.

Lemma compare_field (w : nat) (a b : Z) (r1 r2 : string) :
  0 <= a < 10 ^ Z.of_nat w -> 0 <= b < 10 ^ Z.of_nat w ->
  compare (pad_digits w a ++ r1) (pad_digits w b ++ r2)
  = match a ?= b with Eq => compare r1 r2 | o => o end.
Proof.
  intros Ha Hb. rewrite compare_app by now rewrite !pad_digits_length.
  destruct (Z.compare_spec a b) as [E | L | G].
  - subst. now rewrite compare_refl.
  - rewrite pad_digits_lt; [reflexivity | ]. rewrite !Z.mod_small by assumption. lia.
  - rewrite compare_antisym, pad_digits_lt; [reflexivity | ].
    rewrite !Z.mod_small by assumption. lia.
Qed.

(** The fields of a day of an era. *)
Lemma civil_of_doe_bounds (doe : Z) :
  0 <= doe <= 146096 ->
  let '(y, m, d) := civil_of_doe doe in
  0 <= y <= 400 /\ 1 <= m <= 12 /\ 1 <= d <= 31 /\ (y = 400 -> m <= 2) /\ (y = 0 -> 3 <= m).
Proof.
  intros H. unfold civil_of_doe.
  set (yoe := (doe - doe / 1460 + doe / 36524 - doe / 146096) / 365).
  set (doy := doe - (365 * yoe + yoe / 4 - yoe / 100)).
  assert (0 <= yoe <= 399 /\ 0 <= doy <= 365)
    by (subst doy yoe; Z.div_mod_to_equations; lia).
  clearbody doy. clearbody yoe.
  set (mp := (5 * doy + 2) / 153).
  assert (0 <= mp <= 11) by (subst mp; Z.div_mod_to_equations; lia).
  assert (1 <= doy - (153 * mp + 2) / 5 + 1 <= 31)
    by (subst mp; Z.div_mod_to_equations; lia).
  clearbody mp.
  destruct (Z.ltb_spec mp 10); destruct (Z.leb_spec (mp + 3) 2);
    destruct (Z.leb_spec (mp - 9) 2); lia.
Qed.

(** Within an era a later day is a later date. *)
Lemma civil_of_doe_mono (a b : Z) :
  0 <= a -> a < b -> b <= 146096 -> date_lt (civil_of_doe a) (civil_of_doe b).
Proof.
  intros Ha Hab Hb. unfold civil_of_doe, date_lt.
  set (ya := (a - a / 1460 + a / 36524 - a / 146096) / 365).
  set (yb := (b - b / 1460 + b / 36524 - b / 146096) / 365).
  set (da := a - (365 * ya + ya / 4 - ya / 100)).
  set (db := b - (365 * yb + yb / 4 - yb / 100)).
  assert (Hya : 0 <= ya <= 399 /\ 0 <= da <= 365)
    by (subst da ya; Z.div_mod_to_equations; lia).
  assert (Hyb : 0 <= yb <= 399 /\ 0 <= db <= 365)
    by (subst db yb; Z.div_mod_to_equations; lia).
  assert (Hy : ya < yb \/ (ya = yb /\ da < db)).
  { subst da db. clearbody ya yb. Z.div_mod_to_equations. lia. }
  clearbody da db. clearbody ya yb.
  set (mpa := (5 * da + 2) / 153). set (mpb := (5 * db + 2) / 153).
  assert (0 <= mpa <= 11) by (subst mpa; Z.div_mod_to_equations; lia).
  assert (0 <= mpb <= 11) by (subst mpb; Z.div_mod_to_equations; lia).
  assert (da < db ->
          mpa < mpb
          \/ (mpa = mpb
              /\ da - (153 * mpa + 2) / 5 + 1 < db - (153 * mpb + 2) / 5 + 1)).
  { subst mpa mpb. Z.div_mod_to_equations. lia. }
  clearbody mpa mpb.
  destruct (Z.ltb_spec mpa 10); destruct (Z.ltb_spec mpb 10);
    destruct (Z.leb_spec (mpa + 3) 2); destruct (Z.leb_spec (mpb + 3) 2);
    destruct (Z.leb_spec (mpa - 9) 2); destruct (Z.leb_spec (mpb - 9) 2); try lia.
Qed.

(** A later day is a later date. *)
Lemma civil_from_days_mono (a b : Z) :
  a < b -> date_lt (civil_from_days a) (civil_from_days b).
Proof.
  intros Hab. unfold civil_from_days.
  set (za := a + 719468). set (zb := b + 719468).
  assert (Hz : za < zb) by (subst za zb; lia). clearbody za zb.
  pose proof (civil_of_doe_bounds (za mod 146097)) as Ba.
  pose proof (civil_of_doe_bounds (zb mod 146097)) as Bb.
  pose proof (civil_of_doe_mono (za mod 146097) (zb mod 146097)) as Hm.
  assert (Ra : 0 <= za mod 146097 <= 146096) by (Z.div_mod_to_equations; lia).
  assert (Rb : 0 <= zb mod 146097 <= 146096) by (Z.div_mod_to_equations; lia).
  assert (He : za / 146097 < zb / 146097
               \/ (za / 146097 = zb / 146097 /\ za mod 146097 < zb mod 146097))
    by (Z.div_mod_to_equations; lia).
  destruct (civil_of_doe (za mod 146097)) as [[y1 m1] d1].
  destruct (civil_of_doe (zb mod 146097)) as [[y2 m2] d2].
  unfold date_lt in *. specialize (Ba Ra). specialize (Bb Rb).
  destruct He as [He | [He Hd]].
  - lia.
  - rewrite He. specialize (Hm (proj1 Ra) Hd (proj2 Rb)). lia.
Qed.

(** From 1970 to the end of 9999 the year has four digits. *)
Lemma civil_from_days_range (day : Z) :
  0 <= day <= 2932896 ->
  let '(y, m, d) := civil_from_days day in
  0 <= y <= 9999 /\ 1 <= m <= 12 /\ 1 <= d <= 31.
Proof.
  intros Hd.
  assert (Hlo : day = 0 \/ date_lt (civil_from_days 0) (civil_from_days day)).
  { destruct (Z.eq_dec day 0); [now left | right; apply civil_from_days_mono; lia]. }
  assert (Hhi : day = 2932896
                \/ date_lt (civil_from_days day) (civil_from_days 2932896)).
  { destruct (Z.eq_dec day 2932896); [now left | right; apply civil_from_days_mono; lia]. }
  assert (Hb : let '(y, m, d) := civil_from_days day in 1 <= m <= 12 /\ 1 <= d <= 31).
  { unfold civil_from_days.
    pose proof (civil_of_doe_bounds ((day + 719468) mod 146097)) as B.
    assert (R : 0 <= (day + 719468) mod 146097 <= 146096)
      by (Z.div_mod_to_equations; lia).
    specialize (B R). destruct (civil_of_doe _) as [[y m] d]. lia. }
  change (civil_from_days 0) with (1970, 1, 1) in Hlo.
  change (civil_from_days 2932896) with (9999, 12, 31) in Hhi.
  destruct Hlo as [-> | Hlo]; [vm_compute; repeat split; discriminate | ].
  destruct Hhi as [-> | Hhi]; [vm_compute; repeat split; discriminate | ].
  destruct (civil_from_days day) as [[y m] d]. unfold date_lt in *. lia.
Qed.

End DateFacts.

Section TimestampOrder.
Import JsString JsDate QuerySpec.

Lemma compare_same_prefix (p a b : string) : compare (p ++ a) (p ++ b) = compare a b.
Proof. rewrite compare_app by reflexivity. now rewrite compare_refl. Qed.

Lemma year_string_four (y : Z) : 0 <= y <= 9999 -> year_string y = pad_digits 4 y.
Proof.
  intros Hy. unfold year_string.
  destruct (Z.leb_spec 0 y); [ | lia]. destruct (Z.leb_spec y 9999); [ | lia]. reflexivity.
Qed.

Lemma date_string_lt (day1 day2 : Z) (r1 r2 : string) :
  0 <= day1 -> day1 < day2 -> day2 <= 2932896 ->
  compare (date_string day1 ++ r1) (date_string day2 ++ r2) = Lt.
Proof.
  intros H0 Hlt Hhi.
  pose proof (civil_from_days_range day1 ltac:(lia)) as R1.
  pose proof (civil_from_days_range day2 ltac:(lia)) as R2.
  pose proof (civil_from_days_mono day1 day2 Hlt) as Hm.
  unfold date_string.
  destruct (civil_from_days day1) as [[y1 m1] d1].
  destruct (civil_from_days day2) as [[y2 m2] d2].
  unfold date_lt in Hm.
  rewrite !year_string_four by lia. rewrite !app_assoc_string.
  assert (E4 : 10 ^ Z.of_nat 4 = 10000) by reflexivity.
  assert (E2 : 10 ^ Z.of_nat 2 = 100) by reflexivity.
  rewrite compare_field by (rewrite E4; lia).
  destruct (Z.compare_spec y1 y2); [ | reflexivity | lia].
  cbn [append]. rewrite compare_same_head, ?app_assoc_string.
  rewrite compare_field by (rewrite E2; lia).
  destruct (Z.compare_spec m1 m2); [ | reflexivity | lia].
  cbn [append]. rewrite compare_same_head.
  rewrite compare_field by (rewrite E2; lia).
  destruct (Z.compare_spec d1 d2); [lia | reflexivity | lia].
Qed.

Lemma time_string_lt (ms1 ms2 : Z) (r1 r2 : string) :
  0 <= ms1 -> ms1 < ms2 -> ms2 < msPerDay ->
  compare (time_string ms1 ++ r1) (time_string ms2 ++ r2) = Lt.
Proof.
  unfold msPerDay. intros H0 Hlt Hhi. unfold time_string.
  rewrite !app_assoc_string.
  assert (E3 : 10 ^ Z.of_nat 3 = 1000) by reflexivity.
  assert (E2 : 10 ^ Z.of_nat 2 = 100) by reflexivity.
  rewrite compare_field by (rewrite E2; Z.div_mod_to_equations; lia).
  destruct (Z.compare_spec (ms1 / 3600000) (ms2 / 3600000)) as [Eh | | ];
    [ | reflexivity | Z.div_mod_to_equations; lia].
  cbn [append]. rewrite compare_same_head, ?app_assoc_string.
  rewrite compare_field by (rewrite E2; Z.div_mod_to_equations; lia).
  destruct (Z.compare_spec ((ms1 / 60000) mod 60) ((ms2 / 60000) mod 60)) as [Em | | ];
    [ | reflexivity | Z.div_mod_to_equations; lia].
  cbn [append]. rewrite compare_same_head, ?app_assoc_string.
  rewrite compare_field by (rewrite E2; Z.div_mod_to_equations; lia).
  destruct (Z.compare_spec ((ms1 / 1000) mod 60) ((ms2 / 1000) mod 60)) as [Es | | ];
    [ | reflexivity | Z.div_mod_to_equations; lia].
  cbn [append]. rewrite compare_same_head.
  rewrite compare_field by (rewrite E3; Z.div_mod_to_equations; lia).
  destruct (Z.compare_spec (ms1 mod 1000) (ms2 mod 1000)) as [Ef | | ];
    [ | reflexivity | ]; Z.div_mod_to_equations; lia.
Qed.

(** Between 1970 and the year 10000 a later instant prints as a later
    text, in code-unit order. *)
Lemma toISOString_lt (t1 t2 : Z) :
  0 <= t1 -> t1 < t2 -> t2 < year_10000 ->
  compare (toISOString t1) (toISOString t2) = Lt.
Proof.
  unfold year_10000. intros H0 Hlt Hhi. unfold toISOString, msPerDay.
  assert (Hd : t1 / 86400000 < t2 / 86400000
               \/ (t1 / 86400000 = t2 / 86400000
                   /\ t1 mod 86400000 < t2 mod 86400000))
    by (Z.div_mod_to_equations; lia).
  destruct Hd as [Hd | [Hd Hms]].
  - apply date_string_lt; Z.div_mod_to_equations; lia.
  - rewrite Hd, compare_same_prefix. cbn [append]. rewrite compare_same_head.
    apply time_string_lt; unfold msPerDay; Z.div_mod_to_equations; lia.
Qed.

Lemma digit_mask_app (a b : string) : digit_mask (a ++ b) = digit_mask a ++ digit_mask b.
Proof. induction a as [ | c a IH]; cbn; [reflexivity | ]. now rewrite IH. Qed.

Lemma digit_char_is_digit (d : Z) : 0 <= d < 10 -> is_digit (Json.digit_char d) = true.
Proof.
  intros Hd. unfold is_digit. rewrite digit_char_code by assumption.
  destruct (Z.leb_spec 48 (48 + d)); [ | lia].
  destruct (Z.leb_spec (48 + d) 57); [reflexivity | lia].
Qed.

Lemma digit_mask_pad (w : nat) (n : Z) : digit_mask (pad_digits w n) = repeat_string w "0".
Proof.
  induction w as [ | w IH]; cbn [pad_digits digit_mask repeat_string]; [reflexivity | ].
  rewrite digit_char_is_digit by (apply Z.mod_pos_bound; lia). now rewrite IH.
Qed.

(** In that range the text has the layout of a timestamp. *)
Lemma toISOString_layout (t : Z) :
  0 <= t -> t < year_10000 -> is_iso_timestamp (toISOString t) = true.
Proof.
  unfold year_10000. intros H0 Hhi. unfold is_iso_timestamp, toISOString, date_string.
  pose proof (civil_from_days_range (t / msPerDay)
                ltac:(unfold msPerDay; Z.div_mod_to_equations; lia)) as R.
  destruct (civil_from_days (t / msPerDay)) as [[y m] d].
  rewrite year_string_four by lia. unfold time_string.
  rewrite !digit_mask_app, !digit_mask_pad. reflexivity.
Qed.

End TimestampOrder.

(** ** The public query *)

Section SortFacts.
Import JsArray QuerySpec.
Context {A : Type} (cmp : A -> A -> Z).
Let le (a b : A) : Prop := cmp a b <= 0.
Hypothesis le_total : forall a b, le a b \/ le b a.
Hypothesis le_trans : forall a b c, le a b -> le b c -> le a c.

Lemma insert_perm (x : A) (l : list A) : Permutation (insert cmp x l) (x :: l).
Proof.
  induction l as [ | y l IH]; cbn; [apply Permutation_refl | ].
  destruct (cmp x y <=? 0); [apply Permutation_refl | ].
  apply perm_trans with (y :: x :: l); [now apply perm_skip | apply perm_swap].
Qed.

Lemma sort_perm (l : list A) : Permutation (sort cmp l) l.
Proof.
  induction l as [ | x l IH]; cbn; [apply perm_nil | ].
  apply perm_trans with (x :: sort cmp l); [apply insert_perm | now apply perm_skip].
Qed.

Lemma insert_sorted (x : A) (l : list A) :
  StronglySorted le l -> StronglySorted le (insert cmp x l).
Proof.
  induction l as [ | y l IH]; cbn; intros Hs.
  - constructor; [constructor | constructor].
  - inversion Hs as [ | ? ? Hl Hy]; subst.
    destruct (Z.leb_spec (cmp x y) 0) as [Hxy | Hxy].
    + constructor; [assumption | ]. constructor; [exact Hxy | ].
      eapply Forall_impl; [ | exact Hy]. intros z Hz. exact (le_trans _ _ _ Hxy Hz).
    + constructor; [auto | ].
      apply (Permutation_Forall (x := x :: l));
        [apply Permutation_sym, insert_perm | ].
      constructor; [ | assumption].
      destruct (le_total y x) as [H | H]; [exact H | unfold le in H; lia].
Qed.

Lemma sort_sorted (l : list A) : StronglySorted le (sort cmp l).
Proof.
  induction l as [ | x l IH]; cbn; [constructor | now apply insert_sorted].
Qed.

(** In a sorted list an element that is not below another one comes
    after it. *)
Lemma sorted_before (l : list A) (x y : A) :
  StronglySorted le l -> In x l -> In y l -> ~ le y x -> appears_before x y l.
Proof.
  induction l as [ | a l IH]; intros Hs Hx Hy Hn; [contradiction | ].
  inversion Hs as [ | ? ? Hl Ha]; subst.
  destruct Hx as [-> | Hx].
  - destruct Hy as [-> | Hy].
    + exfalso. apply Hn. destruct (le_total y y); assumption.
    + apply in_split in Hy as (l2 & l3 & ->). now exists [], l2, l3.
  - destruct Hy as [-> | Hy].
    + exfalso. apply Hn. rewrite Forall_forall in Ha. now apply Ha.
    + destruct (IH Hl Hx Hy Hn) as (l1 & l2 & l3 & ->). now exists (a :: l1), l2, l3.
Qed.

End SortFacts.

Section QueryTheorems.
Import JsString JsDate Store JsArray Query QuerySpec MutationSpec IdentifierSpec.

Lemma filter_ext_in' {A} (f g : A -> bool) (l : list A) :
  (forall x, In x l -> f x = g x) -> filter f l = filter g l.
Proof.
  induction l as [ | a l IH]; cbn; intros Hfg; [reflexivity | ].
  rewrite (Hfg a (or_introl eq_refl)), IH; [reflexivity | ].
  intros x Hx. apply Hfg. now right.
Qed.

Lemma has_perm (l l' : list string) (x : string) :
  Permutation l l' -> has l x = has l' x.
Proof.
  intros Hp. destruct (has l' x) eqn:E.
  - apply has_true_iff. apply has_true_iff in E.
    apply Permutation_in with l'; [now apply Permutation_sym | assumption].
  - apply has_false_iff. apply has_false_iff in E. intros Hin. apply E.
    apply Permutation_in with l; assumption.
Qed.

(** C9: the public view holds the stored categories in ascending order
    of name and exactly the products that refer to a stored category,
    newest first; of two such products created at instants [t1 < t2]
    (between 1970 and the year 10000, where timestamps have one layout)
    the later one comes first; nothing is written. *)
Theorem getPublicCatalog_sorted `{Host} {laws : Collation} (w : World) (cat : CatalogData) :
  readCatalogData w = (Ok cat, w) ->
  exists cs ps,
    getPublicCatalog w = (Ok (cs, ps), w)
    /\ Permutation cs (categories cat)
    /\ StronglySorted by_name cs
    /\ Permutation ps
         (filter (fun p => has (category_ids cat) (Product.categoryId p)) (products cat))
    /\ (forall p, In p ps <-> In p (products cat) /\ has_category cat p)
    /\ StronglySorted newest_first ps
    /\ (forall p1 p2 t1 t2,
           In p1 ps -> In p2 ps ->
           Product.createdAt p1 = toISOString t1 ->
           Product.createdAt p2 = toISOString t2 ->
           0 <= t1 -> t1 < t2 -> t2 < year_10000 ->
           appears_before p2 p1 ps).
Proof.
  intros Hread.
  set (by_name_cmp := fun a b : Category.t =>
                        localeCompare (Category.name a) (Category.name b)).
  set (newest_cmp := fun a b : Product.t =>
                       localeCompare (Product.createdAt b) (Product.createdAt a)).
  set (cs := sort by_name_cmp (categories cat)).
  set (ps := sort newest_cmp
               (filter (fun p => has (map Category.id cs) (Product.categoryId p))
                  (products cat))).
  assert (Hcs : Permutation cs (categories cat)) by apply sort_perm.
  assert (Hids : Permutation (map Category.id cs) (category_ids cat))
    by (apply Permutation_map; exact Hcs).
  assert (Hf : filter (fun p => has (map Category.id cs) (Product.categoryId p))
                 (products cat)
               = filter (fun p => has (category_ids cat) (Product.categoryId p))
                   (products cat)).
  { apply filter_ext_in'. intros p _. now apply has_perm. }
  assert (Hps : Permutation ps
                  (filter (fun p => has (category_ids cat) (Product.categoryId p))
                     (products cat))).
  { unfold ps. rewrite Hf. apply sort_perm. }
  assert (Hsorted : StronglySorted newest_first ps).
  { unfold ps. apply (sort_sorted newest_cmp).
    - intros a b. apply collation_total.
    - intros a b c Hab Hbc. exact (collation_trans _ _ _ Hbc Hab). }
  exists cs, ps. split; [ | split; [ | split; [ | split; [ | split; [ | split]]]]].
  - unfold getPublicCatalog. run. rewrite Hread. reflexivity.
  - exact Hcs.
  - unfold cs. apply (sort_sorted by_name_cmp).
    + intros a b. apply collation_total.
    + intros a b c. apply collation_trans.
  - exact Hps.
  - intros p. split.
    + intros Hin. apply (Permutation_in _ Hps) in Hin.
      apply filter_In in Hin as [Hp Hhas]. split; [assumption | ].
      apply has_true_iff in Hhas. apply in_map_iff in Hhas as (c & E & Hc).
      exists c. split; assumption.
    + intros [Hp (c & Hc & E)].
      apply (Permutation_in _ (Permutation_sym Hps)). apply filter_In.
      split; [assumption | ]. apply has_true_iff. rewrite <- E.
      unfold category_ids. now apply in_map.
  - exact Hsorted.
  - intros p1 p2 t1 t2 Hp1 Hp2 E1 E2 Hlo Hlt Hhi.
    refine (sorted_before newest_cmp _ ps p2 p1 Hsorted Hp2 Hp1 _).
    + intros a b. apply collation_total.
    + unfold newest_cmp. rewrite E1, E2.
      assert (Hgt : compare (toISOString t2) (toISOString t1) = Gt).
      { rewrite compare_antisym, toISOString_lt by assumption. reflexivity. }
      pose proof (collation_timestamps (toISOString t2) (toISOString t1)
                    ltac:(apply toISOString_layout; lia)
                    ltac:(apply toISOString_layout; lia) Hgt).
      lia.
Qed.

(** Collation by code units obeys the laws. *)
Lemma ordinal_collation : @Collation Examples.sample_host.
Proof.
  constructor; cbn; unfold Examples.ordinal_compare, Examples.Z_of_comparison.
  - intros a b. rewrite (compare_antisym a b). destruct (compare a b); cbn; lia.
  - intros a b c Hab Hbc.
    pose proof (compare_trans_le a b c) as Ht.
    destruct (compare a b); destruct (compare b c); destruct (compare a c);
      try lia; exfalso; apply Ht; congruence.
  - intros a b _ _ ->. lia.
Defined.

Lemma getPublicCatalog_sorted_witness :
  exists cs ps,
    getPublicCatalog (H := Examples.sample_host) Examples.two_teas
    = (Ok (cs, ps), Examples.two_teas)
    /\ appears_before Examples.matcha Examples.sencha ps.
Proof.
  destruct (getPublicCatalog_sorted (H := Examples.sample_host)
              (laws := ordinal_collation)
              Examples.two_teas Examples.two_teas_catalog)
    as (cs & ps & Hrun & _ & _ & _ & Hin & _ & Hbefore).
  - vm_compute. reflexivity.
  - exists cs, ps. split; [exact Hrun | ].
    apply (Hbefore Examples.sencha Examples.matcha Examples.t0 (Examples.t0 + 1000)).
    + apply Hin. split; [cbn; tauto | ].
      exists Examples.green_tea. split; [cbn; tauto | reflexivity].
    + apply Hin. split; [cbn; tauto | ].
      exists Examples.green_tea. split; [cbn; tauto | reflexivity].
    + vm_compute. reflexivity.
    + vm_compute. reflexivity.
    + vm_compute. discriminate.
    + vm_compute. reflexivity.
    + vm_compute. reflexivity.
Defined.

End QueryTheorems.

(** ** Buffers *)

Section BufferFacts.
Import JsString Buffer.

Lemma chr_code (c : ascii) : chr (code c) = c.
Proof.
  unfold chr, code. pose proof (N_ascii_bounded c) as Hb.
  rewrite Z.mod_small by lia. rewrite N2Z.id. apply ascii_N_embedding.
Qed.

Lemma toUtf8_fromUtf8 (s : string) : toUtf8 (fromUtf8 s) = s.
Proof.
  unfold toUtf8, fromUtf8, of_bytes, bytes_of. rewrite map_map.
  rewrite (map_ext _ (fun c => c)) by apply chr_code.
  rewrite map_id. apply string_of_list_ascii_of_string.
Qed.

Lemma fromUtf8_bytes (s : string) : Forall is_byte (fromUtf8 s).
Proof.
  unfold fromUtf8, bytes_of. apply Forall_forall. intros b Hb.
  apply in_map_iff in Hb as (c & <- & _). apply code_range.
Qed.

Lemma eqb_eq (a b : list Z) : Buffer.eqb a b = true <-> a = b.
Proof.
  revert b. induction a as [ | x a IH]; intros [ | y b]; cbn; split; intros H;
    try reflexivity; try discriminate.
  - apply andb_true_iff in H as [Hx Ha]. apply Z.eqb_eq in Hx. apply IH in Ha.
    congruence.
  - injection H as -> ->. rewrite Z.eqb_refl. cbn. now apply IH.
Qed.

Lemma timingSafeEqual_eq (a b : list Z) : Auth.timingSafeEqual a b = true <-> a = b.
Proof.
  unfold Auth.timingSafeEqual. split.
  - destruct (Nat.eqb _ _); cbn; [apply eqb_eq | discriminate].
  - intros ->. rewrite Nat.eqb_refl. cbn. now apply eqb_eq.
Qed.

(** The decoder reads back the character of every 6-bit group, and none
    of these characters is a padding sign or a dot. *)
Lemma sextet_char_spec (n : Z) :
  0 <= n < 64 ->
  char_sextet (sextet_char n) = Some n
  /\ code (sextet_char n) <> 61 /\ code (sextet_char n) <> 46.
Proof.
  intros Hn. unfold sextet_char.
  destruct (Z.ltb_spec n 26); [ | destruct (Z.ltb_spec n 52);
    [ | destruct (Z.ltb_spec n 62); [ | destruct (Z.eqb_spec n 62)]]].
  - unfold char_sextet. rewrite code_chr by lia.
    destruct (Z.leb_spec 65 (65 + n)); [ | lia].
    destruct (Z.leb_spec (65 + n) 90); [ | lia]. cbn [andb]. split; [f_equal; lia | split; lia].
  - unfold char_sextet. rewrite code_chr by lia.
    destruct (Z.leb_spec 65 (71 + n)); destruct (Z.leb_spec (71 + n) 90); try lia;
      destruct (Z.leb_spec 97 (71 + n)); destruct (Z.leb_spec (71 + n) 122); try lia;
      cbn [andb]; (split; [f_equal; lia | split; lia]).
  - unfold char_sextet. rewrite code_chr by lia.
    destruct (Z.leb_spec 65 (n - 4)); destruct (Z.leb_spec (n - 4) 90); try lia;
      destruct (Z.leb_spec 97 (n - 4)); destruct (Z.leb_spec (n - 4) 122); try lia;
      destruct (Z.leb_spec 48 (n - 4)); destruct (Z.leb_spec (n - 4) 57); try lia;
      cbn [andb]; (split; [f_equal; lia | split; lia]).
  - subst. vm_compute. repeat split; discriminate.
  - assert (n = 63) by lia. subst. vm_compute. repeat split; discriminate.
Qed.

Lemma sextets_cons (n : Z) (r : string) :
  0 <= n < 64 -> sextets (String (sextet_char n) r) = n :: sextets r.
Proof.
  intros Hn. destruct (sextet_char_spec n Hn) as (Hs & H61 & _).
  cbn [sextets]. destruct (Z.eqb_spec (code (sextet_char n)) 61); [contradiction | ].
  now rewrite Hs.
Qed.

(** Decoding undoes encoding. *)
Lemma fromBase64Url_toBase64Url (bs : list Z) :
  Forall is_byte bs -> fromBase64Url (toBase64Url bs) = bs.
Proof.
  unfold fromBase64Url.
  assert (Hgen : forall n bs, (List.length bs <= n)%nat -> Forall is_byte bs ->
                              bytes_of_sextets (sextets (toBase64Url bs)) = bs).
  { clear bs. induction n as [ | n IH]; intros bs Hlen Hb.
    - destruct bs; [reflexivity | cbn in Hlen; lia].
    - destruct bs as [ | a [ | b [ | c rest]]]; [reflexivity | | | ].
      + inversion Hb as [ | ? ? Ha _]; subst. unfold is_byte in Ha.
        cbn [toBase64Url].
        rewrite !sextets_cons by (Z.div_mod_to_equations; lia).
        cbn [sextets bytes_of_sextets]. f_equal. Z.div_mod_to_equations; lia.
      + inversion Hb as [ | ? ? Ha Hb']; subst.
        inversion Hb' as [ | ? ? Hb0 _]; subst. unfold is_byte in *.
        cbn [toBase64Url].
        rewrite !sextets_cons by (Z.div_mod_to_equations; lia).
        cbn [sextets bytes_of_sextets].
        f_equal; [ | f_equal]; Z.div_mod_to_equations; lia.
      + inversion Hb as [ | ? ? Ha Hb']; subst.
        inversion Hb' as [ | ? ? Hb0 Hb'']; subst.
        inversion Hb'' as [ | ? ? Hc Hrest]; subst. unfold is_byte in *.
        cbn [toBase64Url].
        rewrite !sextets_cons by (Z.div_mod_to_equations; lia).
        cbn [bytes_of_sextets].
        rewrite IH by (cbn in Hlen; lia || assumption).
        f_equal; [ | f_equal; [ | f_equal]]; Z.div_mod_to_equations; lia. }
  apply (Hgen (List.length bs)). lia.
Qed.

Lemma toBase64Url_no_dot (bs : list Z) :
  Forall is_byte bs -> string_forall not_dot (toBase64Url bs) = true.
Proof.
  assert (Hc : forall n, 0 <= n < 64 -> not_dot (sextet_char n) = true).
  { intros n Hn. destruct (sextet_char_spec n Hn) as (_ & _ & H46). unfold not_dot.
    destruct (Z.eqb_spec (code (sextet_char n)) 46); [contradiction | reflexivity]. }
  assert (Hgen : forall n bs, (List.length bs <= n)%nat -> Forall is_byte bs ->
                              string_forall not_dot (toBase64Url bs) = true).
  { clear bs. induction n as [ | n IH]; intros bs Hlen Hb.
    - destruct bs; [reflexivity | cbn in Hlen; lia].
    - destruct bs as [ | a [ | b [ | c rest]]]; [reflexivity | | | ].
      + inversion Hb as [ | ? ? Ha _]; subst. unfold is_byte in Ha.
        cbn [toBase64Url string_forall].
        rewrite !Hc by (Z.div_mod_to_equations; lia). reflexivity.
      + inversion Hb as [ | ? ? Ha Hb']; subst.
        inversion Hb' as [ | ? ? Hb0 _]; subst. unfold is_byte in *.
        cbn [toBase64Url string_forall].
        rewrite !Hc by (Z.div_mod_to_equations; lia). reflexivity.
      + inversion Hb as [ | ? ? Ha Hb']; subst.
        inversion Hb' as [ | ? ? Hb0 Hb'']; subst.
        inversion Hb'' as [ | ? ? Hc0 Hrest]; subst. unfold is_byte in *.
        cbn [toBase64Url string_forall].
        rewrite !Hc by (Z.div_mod_to_equations; lia).
        rewrite IH by (cbn in Hlen; lia || assumption). reflexivity. }
  apply (Hgen (List.length bs)). lia.
Qed.

End BufferFacts.

(** ** The session payload *)

Section PayloadFacts.
Import JsString Json.

Lemma digits_value_app (a : Z) (x y : string) :
  digits_value a (x ++ y) = digits_value (digits_value a x) y.
Proof. revert a. induction x as [ | c x IH]; intros a; cbn; [reflexivity | apply IH]. Qed.

Lemma string_forall_app (p : ascii -> bool) (x y : string) :
  string_forall p (x ++ y) = string_forall p x && string_forall p y.
Proof.
  induction x as [ | c x IH]; cbn; [reflexivity | ]. now rewrite IH, andb_assoc.
Qed.

(** The digits of a non-negative integer: a first digit that is zero
    only for zero itself, more digits, and the value they denote. *)
Lemma digits_go_spec (fuel : nat) :
  forall n acc,
    0 <= n < 2 ^ Z.of_nat (S fuel) ->
    exists c ds,
      digits_go (S fuel) n acc = String c (ds ++ acc)
      /\ is_digit c = true
      /\ string_forall is_digit ds = true
      /\ (n = 0 -> ds = EmptyString)
      /\ (0 < n -> code c <> 48)
      /\ (forall a, digits_value a (String c ds)
                    = a * 10 ^ Z.of_nat (S (String.length ds)) + n).
Proof.
  assert (Hone : forall n acc,
             0 <= n < 10 ->
             exists c ds,
               String (digit_char (n mod 10)) acc = String c (ds ++ acc)
               /\ is_digit c = true /\ string_forall is_digit ds = true
               /\ (n = 0 -> ds = EmptyString) /\ (0 < n -> code c <> 48)
               /\ (forall a, digits_value a (String c ds)
                             = a * 10 ^ Z.of_nat (S (String.length ds)) + n)).
  { intros n acc Hn. exists (digit_char n), EmptyString.
    rewrite Z.mod_small by assumption. cbn [append String.length digits_value].
    repeat split.
    - apply digit_char_is_digit. assumption.
    - rewrite digit_char_code by assumption. lia.
    - intros a. rewrite digit_char_code by assumption.
      change (10 ^ Z.of_nat 1) with 10. lia. }
  induction fuel as [ | fuel IH]; intros n acc Hn.
  - cbn [digits_go]. cbn in Hn. destruct (Z.ltb_spec n 10); [ | lia].
    apply Hone. lia.
  - cbn [digits_go]. destruct (Z.ltb_spec n 10) as [Hs | Hl]; [apply Hone; lia | ].
    assert (Hq : 0 <= n / 10 < 2 ^ Z.of_nat (S fuel)).
    { rewrite (Nat2Z.inj_succ (S fuel)), Z.pow_succ_r in Hn by lia.
      Z.div_mod_to_equations. lia. }
    destruct (IH (n / 10) (String (digit_char (n mod 10)) acc) Hq)
      as (c & ds & Hrun & Hc & Hds & _ & Hnz & Hval).
    exists c, (ds ++ String (digit_char (n mod 10)) EmptyString).
    pose proof (Z.mod_pos_bound n 10 ltac:(lia)) as Hm.
    repeat split.
    + cbn [digits_go] in Hrun. rewrite Hrun, app_assoc_string. reflexivity.
    + assumption.
    + rewrite string_forall_app, Hds. cbn. now rewrite digit_char_is_digit.
    + lia.
    + intros _. apply Hnz. Z.div_mod_to_equations. lia.
    + intros a. change (String c (ds ++ String (digit_char (n mod 10)) EmptyString))
        with (String c ds ++ String (digit_char (n mod 10)) EmptyString).
      rewrite digits_value_app, Hval. cbn [digits_value].
      rewrite digit_char_code by assumption.
      rewrite length_app_string. cbn [String.length].
      replace (Z.of_nat (S (String.length ds + 1)))
        with (Z.succ (Z.of_nat (S (String.length ds)))) by lia.
      rewrite Z.pow_succ_r by lia. Z.div_mod_to_equations. lia.
Qed.

Lemma digits_of_spec (n : Z) :
  0 <= n ->
  exists c ds,
    digits_of n = String c ds
    /\ is_digit c = true /\ string_forall is_digit ds = true
    /\ (n = 0 -> ds = EmptyString) /\ (0 < n -> code c <> 48)
    /\ digits_value 0 (String c ds) = n.
Proof.
  intros Hn. unfold digits_of.
  assert (Hb : 0 <= n < 2 ^ Z.of_nat (S (Z.to_nat (Z.log2 n)))).
  { split; [assumption | ]. rewrite Nat2Z.inj_succ, Z2Nat.id by apply Z.log2_nonneg.
    destruct (Z.eq_dec n 0) as [-> | Hne]; [reflexivity | ].
    apply Z.log2_spec. lia. }
  destruct (digits_go_spec _ n EmptyString Hb) as (c & ds & Hrun & Hc & Hds & Hz & Hnz & Hv).
  exists c, ds. rewrite Hrun. repeat split; try assumption.
  - now rewrite app_empty_r.
  - rewrite Hv. lia.
Qed.

Lemma span_digits_app (ds rest : string) :
  string_forall is_digit ds = true ->
  match rest with String c _ => is_digit c = false | EmptyString => True end ->
  span_digits (ds ++ rest) = (ds, rest).
Proof.
  intros Hds Hrest. induction ds as [ | c ds IH]; cbn.
  - destruct rest as [ | c r]; [reflexivity | ]. cbn. now rewrite Hrest.
  - cbn in Hds. apply andb_true_iff in Hds as [Hc Hds]. rewrite Hc, (IH Hds).
    reflexivity.
Qed.

Lemma parse_digits (n : Z) (c0 : ascii) (rest : string) :
  0 <= n -> ends_number c0 ->
  exists c ds,
    digits_of n = String c ds /\ is_digit c = true
    /\ span_int (digits_of n ++ String c0 rest) = Some (digits_of n, String c0 rest)
    /\ digits_value 0 (digits_of n) = n.
Proof.
  intros Hn (Hd & _).
  destruct (digits_of_spec n Hn) as (c & ds & E & Hc & Hds & Hz & Hnz & Hv).
  exists c, ds. rewrite E. repeat split; try assumption.
  cbn [append span_int].
  destruct (Z.eqb_spec (code c) 48) as [E48 | N48].
  - assert (n = 0) by (destruct (Z.eq_dec n 0); [assumption | exfalso; apply Hnz; lia]).
    rewrite (Hz H). reflexivity.
  - rewrite Hc. change (String c (ds ++ String c0 rest)) with (String c ds ++ String c0 rest).
    rewrite span_digits_app; [reflexivity | cbn; now rewrite Hc, Hds | exact Hd].
Qed.

Lemma parse_number_nonneg (n : Z) (c0 : ascii) (rest : string) :
  0 <= n -> ends_number c0 ->
  forall neg : bool,
    match span_int (digits_of n ++ String c0 rest) with
    | None => None
    | Some (ip, s2) =>
        match span_frac s2 with
        | None => None
        | Some (fp, s3) =>
            match span_exp s3 with
            | None => None
            | Some (ex, s4) =>
                Some (JNum (if neg
                            then - digits_value (digits_value 0 ip) fp
                            else digits_value (digits_value 0 ip) fp)
                        (ex - size fp), s4)
            end
        end
    end = Some (JNum (if neg then - n else n) 0, String c0 rest).
Proof.
  intros Hn Hend neg.
  destruct (parse_digits n c0 rest Hn Hend) as (c & ds & _ & _ & Hspan & Hv).
  destruct Hend as (_ & H46 & H101 & H69).
  rewrite Hspan. unfold span_frac.
  destruct (Z.eqb_spec (code c0) 46); [contradiction | ].
  unfold span_exp.
  destruct (Z.eqb_spec (code c0) 101); [contradiction | ].
  destruct (Z.eqb_spec (code c0) 69); [contradiction | ].
  cbn [orb digits_value]. rewrite Hv. reflexivity.
Qed.

Lemma parse_number_string_of_Z (z : Z) (c0 : ascii) (rest : string) :
  ends_number c0 ->
  parse_number (string_of_Z z ++ String c0 rest) = Some (JNum z 0, String c0 rest).
Proof.
  intros Hend. unfold string_of_Z, parse_number.
  destruct (Z.ltb_spec z 0) as [Hneg | Hpos].
  - cbn [append]. change (code "-"%char =? 45) with true. cbv iota beta.
    rewrite (parse_number_nonneg (- z) c0 rest ltac:(lia) Hend true).
    rewrite Z.opp_involutive. reflexivity.
  - destruct (digits_of_spec z Hpos) as (c & ds & E & Hc & _).
    rewrite E. cbn [append].
    assert (H45 : (code c =? 45) = false).
    { unfold is_digit in Hc. apply andb_true_iff in Hc as [Hlo _].
      apply Z.leb_le in Hlo. apply Z.eqb_neq. lia. }
    rewrite H45. change (String c (ds ++ String c0 rest)) with (String c ds ++ String c0 rest).
    rewrite <- E. exact (parse_number_nonneg z c0 rest Hpos Hend false).
Qed.

Lemma string_of_Z_head (z : Z) :
  exists c r, string_of_Z z = String c r /\ (code c = 45 \/ 48 <= code c <= 57).
Proof.
  unfold string_of_Z. destruct (Z.ltb_spec z 0) as [Hneg | Hpos].
  - exists "-"%char, (digits_of (- z)). split; [reflexivity | now left].
  - destruct (digits_of_spec z Hpos) as (c & ds & E & Hc & _).
    exists c, ds. split; [assumption | right].
    unfold is_digit in Hc. apply andb_true_iff in Hc as [Hlo Hhi].
    apply Z.leb_le in Hlo. apply Z.leb_le in Hhi. lia.
Qed.

End PayloadFacts.

Section PayloadParse.
Import JsString Json.

Lemma stringify_exp (z : Z) :
  JSON_stringify (JObj [("exp", JNum z 0)])
  = String "{" (String dquote (String "e" (String "x" (String "p" (String dquote
      (String ":" (string_of_Z z ++ "}"))))))).
Proof.
  unfold JSON_stringify. cbn [stringify map join fst snd repeat_string].
  unfold string_of_num, pow10. cbn [Z.leb Z.compare Z.pow Z.pow_pos Pos.iter].
  rewrite Z.mul_1_r.
  change (quote "exp") with
    (String dquote (String "e" (String "x" (String "p" (String dquote EmptyString))))).
  cbn [append]. reflexivity.
Qed.

Lemma closing_brace_ends_number : ends_number "}"%char.
Proof. unfold ends_number. vm_compute. repeat split; discriminate. Qed.

Lemma skip_ws_head (c : ascii) (r : string) :
  is_json_ws c = false -> skip_ws (String c r) = String c r.
Proof. intros H. unfold skip_ws. cbn [dropWhile]. now rewrite H. Qed.

(** A number followed by a closing brace is read as that number. *)
Lemma parse_value_number (z : Z) (fuel : nat) :
  parse_value (S fuel) (string_of_Z z ++ "}") = Some (JNum z 0, "}").
Proof.
  pose proof (parse_number_string_of_Z z "}"%char EmptyString closing_brace_ends_number)
    as Hnum.
  destruct (string_of_Z_head z) as (c & r & E & Hc).
  rewrite E in *. cbn [append] in *. cbn [parse_value].
  rewrite skip_ws_head.
  2:{ unfold is_json_ws. destruct Hc as [Hc | Hc];
      repeat match goal with
             | |- context [code c =? ?k] => destruct (Z.eqb_spec (code c) k); [lia | ]
             end; reflexivity. }
  repeat match goal with
         | |- context [code c =? ?k] => destruct (Z.eqb_spec (code c) k); [lia | ]
         end.
  exact Hnum.
Qed.

(** [JSON.parse(JSON.stringify({exp}))] gives the object back. *)
Lemma parse_exp_payload (z : Z) :
  JSON_parse (JSON_stringify (JObj [("exp", JNum z 0)]))
  = Some (JObj [("exp", JNum z 0)]).
Proof.
  rewrite stringify_exp. unfold JSON_parse.
  set (rest := string_of_Z z ++ "}").
  cbn [String.length].
  replace (2 * S (S (S (S (S (S (S (String.length rest))))))) + 2)%nat
    with (S (S (S (2 * String.length rest + 13)))) by lia.
  cbn [parse_value].
  rewrite ?skip_ws_head by reflexivity.
  change (code "{" =? 123) with true. cbv iota.
  rewrite ?skip_ws_head by reflexivity.
  change (code dquote =? 125) with false. cbv iota.
  rewrite ?skip_ws_head by reflexivity.
  cbn [parse_members].
  change (code dquote =? 34) with true. cbv iota.
  change (parse_string_body (String "e" (String "x" (String "p" (String dquote
            (String ":" rest))))))
    with (Some ("exp", String ":" rest)).
  cbv iota. rewrite ?skip_ws_head by reflexivity.
  change (code ":" =? 58) with true. cbv iota.
  unfold rest. rewrite parse_value_number.
  cbv iota. rewrite ?skip_ws_head by reflexivity.
  change (code "}" =? 125) with true. cbv iota.
  reflexivity.
Qed.

End PayloadParse.

(** ** Session cookies *)

Section AuthFacts.
Import JsString Json Buffer Auth AuthSpec.

Lemma decode_encode (exp : Z) : decodePayload (encodePayload exp) = Some (mkPayload exp 0).
Proof.
  unfold decodePayload, encodePayload.
  rewrite fromBase64Url_toBase64Url by apply fromUtf8_bytes.
  rewrite toUtf8_fromUtf8, parse_exp_payload. reflexivity.
Qed.

Lemma ascii_eqb_dot (c : ascii) : Ascii.eqb c "." = negb (not_dot c).
Proof.
  unfold not_dot. rewrite negb_involutive.
  destruct (Ascii.eqb_spec c "."%char) as [-> | Hne]; [reflexivity | ].
  symmetry. apply Z.eqb_neq. intros E. apply Hne. apply code_inj. exact E.
Qed.

Lemma split_go_no_dot (cur s : string) :
  string_forall not_dot s = true -> split_go "." cur s = [cur ++ s].
Proof.
  revert cur. induction s as [ | c s IH]; intros cur Hs; cbn.
  - now rewrite app_empty_r.
  - cbn in Hs. apply andb_true_iff in Hs as [Hc Hs].
    rewrite ascii_eqb_dot, Hc. cbn [negb]. rewrite (IH _ Hs), app_assoc_string.
    reflexivity.
Qed.

(** Two dot-free parts joined by a dot split into these two parts. *)
Lemma split_two (a b : string) :
  string_forall not_dot a = true -> string_forall not_dot b = true ->
  split "." (a ++ "." ++ b) = [a; b].
Proof.
  intros Ha Hb. unfold split.
  assert (Hgen : forall cur, split_go "." cur (a ++ "." ++ b) = [cur ++ a; b]).
  { induction a as [ | c a IH]; intros cur.
    - cbn. rewrite (split_go_no_dot EmptyString b Hb), app_empty_r. reflexivity.
    - cbn in Ha. apply andb_true_iff in Ha as [Hc Ha].
      cbn [append split_go]. rewrite ascii_eqb_dot, Hc. cbn [negb].
      rewrite (IH Ha), app_assoc_string. reflexivity. }
  apply (Hgen EmptyString).
Qed.

Lemma be_bytes_range (n : nat) (x : Z) : Forall is_byte (Crypto.be_bytes n x).
Proof.
  induction n as [ | n IH]; cbn [Crypto.be_bytes]; constructor; [ | assumption].
  unfold is_byte. change 0xff with (Z.ones 8). rewrite Z.land_ones by lia.
  apply Z.mod_pos_bound. reflexivity.
Qed.

Lemma sha256_bytes (msg : list Z) : Forall is_byte (Crypto.sha256 msg).
Proof.
  unfold Crypto.sha256. apply Forall_flat_map. apply Forall_forall.
  intros x _. apply be_bytes_range.
Qed.

Lemma hmac_bytes (key msg : list Z) : Forall is_byte (Crypto.hmac_sha256 key msg).
Proof. unfold Crypto.hmac_sha256. apply sha256_bytes. Qed.

Lemma encodePayload_no_dot (exp : Z) : string_forall not_dot (encodePayload exp) = true.
Proof. unfold encodePayload. apply toBase64Url_no_dot, fromUtf8_bytes. Qed.

Lemma token_parts (secret : string) (exp : Z) :
  split "." (token secret exp)
  = [encodePayload exp;
     toBase64Url (Crypto.hmac_sha256 (fromUtf8 secret) (fromUtf8 (encodePayload exp)))].
Proof.
  unfold token. cbv zeta. apply split_two.
  - apply encodePayload_no_dot.
  - apply toBase64Url_no_dot, hmac_bytes.
Qed.

Lemma sessionSecret_world (w : World) : snd (sessionSecret w) = w.
Proof.
  unfold sessionSecret, requiredEnv.
  destruct (process_env w "BACKOFFICE_SESSION_SECRET"); [reflexivity | ].
  destruct (process_env w "BACKOFFICE_PASSWORD") as [v | ]; [ | reflexivity].
  destruct (falsy v); reflexivity.
Qed.

Lemma num_leb_false (m e z : Z) : num_leb_Z m e z = false <-> num_compare_Z m e z = Gt.
Proof. unfold num_leb_Z. destruct (num_compare_Z m e z); split; congruence. Qed.

(** What [isBackofficeAuthed] computes once the secret is known. *)
Lemma isBackofficeAuthed_run (w : World) (secret : string) :
  sessionSecret w = (Ok secret, w) ->
  isBackofficeAuthed w
  = (Ok match cookie_of COOKIE_NAME w with
        | None => false
        | Some value =>
            if falsy value then false
            else match split "." value with
                 | [data; sigB64] =>
                     if negb (timingSafeEqual (fromBase64Url sigB64)
                                (Crypto.hmac_sha256 (fromUtf8 secret) (fromUtf8 data)))
                     then false
                     else match decodePayload data with
                          | None => false
                          | Some payload =>
                              negb (num_leb_Z (exp_m payload) (exp_e payload) (clock w))
                          end
                 | _ => false
                 end
        end, w).
Proof.
  intros Hsecret. unfold isBackofficeAuthed, cookies_get, sign. run.
  destruct (cookie_of COOKIE_NAME w) as [value | ]; [ | reflexivity].
  destruct (falsy value); [reflexivity | ].
  destruct (split "." value) as [ | data [ | sigB64 [ | x l]]]; try reflexivity.
  rewrite Hsecret.
  destruct (timingSafeEqual _ _); cbn [negb]; [ | reflexivity].
  destruct (decodePayload data) as [payload | ]; [ | reflexivity].
  destruct (num_leb_Z _ _ _); reflexivity.
Qed.

End AuthFacts.

Section AuthTheorems.
Import JsString Json Buffer Auth AuthSpec.

Lemma expires_after_integer (exp now : Z) :
  expires_after (mkPayload exp 0) now <-> now < exp.
Proof.
  unfold expires_after, num_compare_Z, pow10. cbn [exp_m exp_e Z.leb Z.compare Z.pow].
  rewrite Z.mul_1_r. rewrite Z.compare_gt_iff. reflexivity.
Qed.

Lemma split_empty_not_two (data sigB64 : string) :
  split "." EmptyString <> [data; sigB64].
Proof. cbn. discriminate. Qed.



(** Without a signing secret the configuration error of [requiredEnv]
    leaves [isBackofficeAuthed] as soon as the cookie has two parts. *)
Lemma isBackofficeAuthed_raises_unconfigured :
  cookie_of COOKIE_NAME AuthExamples.unconfigured = Some "a.b"
  /\ isBackofficeAuthed AuthExamples.unconfigured
     = (Throw (Error "Missing required env var: BACKOFFICE_PASSWORD"),
        AuthExamples.unconfigured).
Proof. split; reflexivity. Qed.

(** A request carrying the token of the configured secret, before the
    expiry the token names, is authenticated. *)
Lemma issued_token_accepted (w : World) (secret : string) (exp : Z) :
  cookie_of COOKIE_NAME w = Some (token secret exp) ->
  sessionSecret w = (Ok secret, w) ->
  clock w < exp ->
  isBackofficeAuthed w = (Ok true, w).
Proof.
  intros Hc Hs Hlt. rewrite (isBackofficeAuthed_run w secret Hs), Hc.
  pose proof (token_parts secret exp) as Hparts.
  destruct (token secret exp) as [ | c0 r0] eqn:Et;
    [exfalso; exact (split_empty_not_two _ _ Hparts) | ].
  cbn [falsy]. rewrite Hparts.
  rewrite (fromBase64Url_toBase64Url _ (hmac_bytes _ _)).
  rewrite (proj2 (timingSafeEqual_eq _ _) eq_refl). cbn [negb].
  rewrite decode_encode. cbn [exp_m exp_e].
  assert (He : num_leb_Z exp 0 (clock w) = false).
  { apply num_leb_false. apply (expires_after_integer exp (clock w)). exact Hlt. }
  rewrite He. reflexivity.
Qed.

(** C10: the cookie that [setBackofficeSessionCookie] stores is the
    token for [now + 30 days], and every later request that carries it,
    under the same secret and strictly before that expiry, is
    authenticated. *)
Theorem issued_session_is_accepted (w0 : World) (secret : string) :
  sessionSecret w0 = (Ok secret, w0) ->
  exists w1,
    setBackofficeSessionCookie w0 = (Ok tt, w1)
    /\ cookie_of COOKIE_NAME w1 = Some (issued_value secret (clock w0))
    /\ (forall w,
          cookie_of COOKIE_NAME w = Some (issued_value secret (clock w0)) ->
          sessionSecret w = (Ok secret, w) ->
          clock w < clock w0 + SESSION_TTL_MS ->
          isBackofficeAuthed w = (Ok true, w)).
Proof.
  intros Hsecret. unfold setBackofficeSessionCookie, sign, is_production, cookies_set. run.
  rewrite Hsecret. eexists. split; [reflexivity | split].
  - unfold cookie_of. cbn [cookie_store find fst]. rewrite String.eqb_refl. reflexivity.
  - intros w Hc Hs Hlt.
    exact (issued_token_accepted w secret (clock w0 + SESSION_TTL_MS) Hc Hs Hlt).
Qed.

(** The cookie issued at [t0] is accepted one millisecond before its
    expiry. *)
Lemma issued_session_is_accepted_witness :
  isBackofficeAuthed (AuthExamples.returning (Examples.t0 + SESSION_TTL_MS - 1))
  = (Ok true, AuthExamples.returning (Examples.t0 + SESSION_TTL_MS - 1)).
Proof.
  destruct (issued_session_is_accepted Examples.fresh "hunter2" eq_refl)
    as (w1 & _ & _ & Hlater).
  apply Hlater.
  - reflexivity.
  - reflexivity.
  - vm_compute. reflexivity.
Defined.

End AuthTheorems.

(* ================================================================== *)
(** * Further properties of the code *)
(* ================================================================== *)

(** ** Names and slugs *)

Section RunFacts.
Import JsString Shape.
Variable p : ascii -> bool.
Variable r : ascii.

Let by_ : string := String r EmptyString.

Lemma string_forall_impl (f g : ascii -> bool) (s : string) :
  (forall c, f c = true -> g c = true) ->
  string_forall f s = true -> string_forall g s = true.
Proof.
  intros Hfg. induction s as [ | c s IH]; cbn; [reflexivity | ].
  intros H. apply andb_true_iff in H as [Hc Hs]. now rewrite (Hfg c Hc), IH.
Qed.

Lemma dropWhile_forall (f q : ascii -> bool) (s : string) :
  string_forall f s = true -> string_forall f (dropWhile q s) = true.
Proof.
  induction s as [ | c s IH]; cbn; [reflexivity | ]. intros H.
  destruct (q c); [ | exact H]. apply andb_true_iff in H as [_ Hs]. auto.
Qed.

Lemma dropWhileEnd_forall (f q : ascii -> bool) (s : string) :
  string_forall f s = true -> string_forall f (dropWhileEnd q s) = true.
Proof.
  induction s as [ | c s IH]; cbn; [reflexivity | ]. intros H.
  apply andb_true_iff in H as [Hc Hs]. specialize (IH Hs).
  destruct (dropWhileEnd q s) as [ | c' s'].
  - destruct (q c); cbn; [reflexivity | now rewrite Hc].
  - cbn [string_forall] in *. now rewrite Hc.
Qed.

Lemma dropWhile_head (q : ascii -> bool) (s : string) :
  head_not q (dropWhile q s) = true.
Proof.
  induction s as [ | c s IH]; cbn; [reflexivity | ].
  destruct (q c) eqn:E; [exact IH | cbn; now rewrite E].
Qed.

Lemma dropWhileEnd_last (q : ascii -> bool) (s : string) :
  last_not q (dropWhileEnd q s) = true.
Proof.
  induction s as [ | c s IH]; cbn; [reflexivity | ].
  destruct (dropWhileEnd q s) as [ | c' s'] eqn:E.
  - destruct (q c) eqn:Ec; cbn; [reflexivity | now rewrite Ec].
  - exact IH.
Qed.

Lemma dropWhileEnd_head (q : ascii -> bool) (s : string) :
  head_not q s = true -> head_not q (dropWhileEnd q s) = true.
Proof.
  destruct s as [ | c s]; cbn; [reflexivity | ]. intros Hc.
  destruct (dropWhileEnd q s); [ | exact Hc].
  apply negb_true_iff in Hc. rewrite Hc. cbn. now rewrite Hc.
Qed.

Lemma no_adjacent_tail (q : ascii -> bool) (c : ascii) (s : string) :
  no_adjacent q (String c s) = true -> no_adjacent q s = true.
Proof.
  destruct s as [ | b s]; [reflexivity | ]. cbn [no_adjacent]. intros H.
  apply andb_true_iff in H as [_ H]. exact H.
Qed.

Lemma dropWhile_no_adjacent (q f : ascii -> bool) (s : string) :
  no_adjacent q s = true -> no_adjacent q (dropWhile f s) = true.
Proof.
  induction s as [ | c s IH]; [reflexivity | ]. intros H. cbn [dropWhile].
  destruct (f c); [ | exact H]. apply IH. exact (no_adjacent_tail _ _ _ H).
Qed.

Lemma dropWhileEnd_no_adjacent (q f : ascii -> bool) (s : string) :
  no_adjacent q s = true -> no_adjacent q (dropWhileEnd f s) = true.
Proof.
  induction s as [ | c s IH]; [reflexivity | ]. intros H. cbn [dropWhileEnd].
  pose proof (IH (no_adjacent_tail _ _ _ H)) as IH'.
  destruct s as [ | b s]; [cbn; destruct (f c); reflexivity | ].
  destruct (dropWhileEnd f (String b s)) as [ | b' s'] eqn:E.
  - destruct (f c); reflexivity.
  - assert (Hb : b' = b).
    { cbn [dropWhileEnd] in E. destruct (dropWhileEnd f s); [ | congruence].
      destruct (f b); congruence. }
    subst b'. cbn [no_adjacent] in *. apply andb_true_iff in H as [Hcb _].
    now rewrite Hcb, IH'.
Qed.

(** Unchanged by a strip when no character is in the class. *)
Lemma dropWhile_id (q : ascii -> bool) (s : string) :
  head_not q s = true -> dropWhile q s = s.
Proof.
  destruct s as [ | c s]; cbn; [reflexivity | ]. intros H.
  apply negb_true_iff in H. now rewrite H.
Qed.

Lemma dropWhileEnd_id (q : ascii -> bool) (s : string) :
  last_not q s = true -> dropWhileEnd q s = s.
Proof.
  induction s as [ | c s IH]; [reflexivity | ]. intros H. cbn [dropWhileEnd].
  destruct s as [ | b s].
  - cbn in *. apply negb_true_iff in H. now rewrite H.
  - rewrite (IH H). reflexivity.
Qed.

(** Every character of the output is outside the class or is [r]. *)
Lemma replaceRuns_chars (b : bool) (s : string) :
  string_forall (fun c => negb (p c) || Ascii.eqb c r) (replaceRuns p by_ b s) = true.
Proof.
  revert b. induction s as [ | c s IH]; intros b; cbn [replaceRuns]; [reflexivity | ].
  destruct (p c) eqn:Ec.
  - destruct b; [apply IH | ]. unfold by_. cbn [append string_forall].
    rewrite Ascii.eqb_refl, orb_true_r. apply IH.
  - cbn [string_forall]. rewrite Ec. cbn. apply IH.
Qed.

(** Inside a run the output does not start with a character of the
    class, and no two characters of the class are neighbours. *)
Lemma replaceRuns_runs (b : bool) (s : string) :
  no_adjacent p (replaceRuns p by_ b s) = true
  /\ (b = true -> head_not p (replaceRuns p by_ b s) = true).
Proof.
  revert b. induction s as [ | c s IH]; intros b; cbn [replaceRuns];
    [split; reflexivity | ].
  destruct (p c) eqn:Ec.
  - destruct b.
    + apply IH.
    + split; [ | discriminate].
      destruct (IH true) as [Hn Hh]. specialize (Hh eq_refl).
      destruct (replaceRuns p by_ true s) as [ | x t] eqn:E;
        unfold by_; cbn [append]; [reflexivity | ].
      change (no_adjacent p (String r (String x t)))
        with (negb (p r && p x) && no_adjacent p (String x t)).
      cbn [head_not] in Hh. apply negb_true_iff in Hh.
      now rewrite Hh, andb_false_r, Hn.
  - split; [ | intros _; cbn; now rewrite Ec].
    destruct (IH false) as [Hn _].
    destruct (replaceRuns p by_ false s) as [ | x t] eqn:E; [reflexivity | ].
    change (no_adjacent p (String c (String x t)))
      with (negb (p c && p x) && no_adjacent p (String x t)).
    now rewrite Ec, Hn.
Qed.

Lemma replaceRuns_head (s : string) :
  head_not p s = true -> head_not p (replaceRuns p by_ false s) = true.
Proof.
  destruct s as [ | c s]; cbn; [reflexivity | ]. intros H.
  apply negb_true_iff in H. rewrite H. cbn. now rewrite H.
Qed.

Lemma last_not_cons (q : ascii -> bool) (c : ascii) (s : string) :
  s <> EmptyString -> last_not q (String c s) = last_not q s.
Proof. destruct s; [congruence | reflexivity]. Qed.

Lemma replaceRuns_nonempty (b : bool) (s : string) :
  s <> EmptyString -> last_not p s = true -> replaceRuns p by_ b s <> EmptyString.
Proof.
  revert b. induction s as [ | c s IH]; intros b Hne Hl; [congruence | ].
  cbn [replaceRuns].
  destruct (string_dec s EmptyString) as [-> | Hs].
  - cbn in Hl. apply negb_true_iff in Hl. rewrite Hl. discriminate.
  - rewrite (last_not_cons p c s Hs) in Hl.
    destruct (p c); [ | discriminate].
    destruct b; [exact (IH true Hs Hl) | unfold by_; cbn; discriminate].
Qed.

Lemma replaceRuns_last (b : bool) (s : string) :
  last_not p s = true -> last_not p (replaceRuns p by_ b s) = true.
Proof.
  revert b. induction s as [ | c s IH]; intros b Hl; [reflexivity | ].
  cbn [replaceRuns].
  destruct (string_dec s EmptyString) as [-> | Hs].
  - cbn in Hl. apply negb_true_iff in Hl. rewrite Hl. cbn. now rewrite Hl.
  - rewrite (last_not_cons p c s Hs) in Hl.
    destruct (p c).
    + destruct b; [exact (IH true Hl) | ].
      unfold by_. cbn [append]. fold by_.
      rewrite last_not_cons by (apply replaceRuns_nonempty; assumption).
      exact (IH true Hl).
    + rewrite last_not_cons by (apply replaceRuns_nonempty; assumption).
      exact (IH false Hl).
Qed.

(** A text whose runs already are single [r]'s is left as it is. *)
Lemma replaceRuns_id (s : string) :
  string_forall (fun c => negb (p c) || Ascii.eqb c r) s = true ->
  no_adjacent p s = true ->
  replaceRuns p by_ false s = s.
Proof.
  induction s as [ | c s IH]; [reflexivity | ]. intros Hc Hn.
  cbn [string_forall] in Hc. apply andb_true_iff in Hc as [Hc Hs].
  pose proof (no_adjacent_tail _ _ _ Hn) as Hn'.
  cbn [replaceRuns]. destruct (p c) eqn:Ec.
  - cbn in Hc. apply Ascii.eqb_eq in Hc. subst c. unfold by_. cbn [append]. f_equal.
    destruct s as [ | x s]; [reflexivity | ].
    cbn [no_adjacent] in Hn. rewrite Ec in Hn. cbn in Hn.
    apply andb_true_iff in Hn as [Hx _]. apply negb_true_iff in Hx.
    cbn [replaceRuns]. rewrite Hx. f_equal.
    specialize (IH Hs Hn'). cbn [replaceRuns] in IH. rewrite Hx in IH.
    injection IH as IH. exact IH.
  - f_equal. exact (IH Hs Hn').
Qed.

End RunFacts.

Section CharCuts.
Import JsString Shape.

Lemma append_assoc (a b c : string) : (a ++ b) ++ c = a ++ (b ++ c).
Proof. induction a as [ | x a IH]; cbn; [reflexivity | ]. now rewrite IH. Qed.

Lemma append_empty (a : string) : a ++ EmptyString = a.
Proof. induction a as [ | x a IH]; cbn; [reflexivity | ]. now rewrite IH. Qed.

(** Continuation bytes that the character still expects join it. *)
Lemma chars_go_tail (tail : string) (pending : nat) (cur rest : string) :
  string_forall is_continuation tail = true ->
  (String.length tail <= pending)%nat ->
  chars_go pending cur (tail ++ rest)
  = chars_go (pending - String.length tail) (cur ++ tail) rest.
Proof.
  revert pending cur. induction tail as [ | b tl IH]; intros pending cur Hc Hl.
  - cbn. now rewrite Nat.sub_0_r, append_empty.
  - cbn [string_forall] in Hc. apply andb_true_iff in Hc as [Hb Htl].
    cbn [String.length] in Hl. destruct pending as [ | k]; [lia | ].
    cbn [append chars_go String.length Nat.sub]. rewrite Hb.
    rewrite (IH k _ Htl) by lia. now rewrite append_assoc.
Qed.

Lemma well_cut_tail (t : string) (l : list string) :
  well_cut (t :: l) -> well_cut l.
Proof. cbn. tauto. Qed.

(** Cutting the bytes of a well cut list gives the list back. *)
Lemma chars_glue (l : list string) : well_cut l -> chars (glue l) = l.
Proof.
  induction l as [ | t rest IH]; [reflexivity | ]. intros Hw.
  specialize (IH (well_cut_tail _ _ Hw)).
  destruct Hw as (Ht & Hfit & Hrest).
  destruct t as [ | c tail]; [contradiction | ]. destruct Ht as [Hc Hl].
  cbn [glue append chars]. rewrite (chars_go_tail tail _ _ _ Hc Hl).
  cbn [append].
  destruct rest as [ | t' rest'].
  - reflexivity.
  - destruct t' as [ | c' tail']; [destruct Hrest as [[] _] | ].
    cbn [glue append] in *. cbn [chars] in IH. cbn [chars_go].
    destruct (trail c - String.length tail)%nat as [ | k] eqn:Ek.
    + now rewrite IH.
    + destruct Hfit as [Hfit | Hfit]; [cbn in Hfit; lia | ].
      cbn in Hfit. rewrite Hfit. now rewrite IH.
Qed.

(** What [chars_go] returns starts with the character being read and is
    well cut. *)
Lemma chars_go_cut (s : string) (c : ascii) (tail : string) (pending : nat) :
  string_forall is_continuation tail = true ->
  (String.length tail + pending)%nat = trail c ->
  exists tail' rest,
    chars_go pending (String c tail) s = String c tail' :: rest
    /\ well_cut (String c tail' :: rest).
Proof.
  revert c tail pending. induction s as [ | b r IH]; intros c tail pending Hc Hl.
  - exists tail, []. cbn. repeat split; [exact Hc | lia].
  - cbn [chars_go].
    assert (Hnext : complete (String c tail) \/ is_continuation b = false ->
              exists tail' rest,
                String c tail :: chars_go (trail b) (String b EmptyString) r
                = String c tail' :: rest
                /\ well_cut (String c tail' :: rest)).
    { intros Hfit.
      destruct (IH b EmptyString (trail b) eq_refl eq_refl) as (tail' & rest & E & Hw).
      exists tail, (String b tail' :: rest). rewrite E. split; [reflexivity | ].
      cbn [well_cut]. split; [split; [exact Hc | lia] | ]. split; [exact Hfit | exact Hw]. }
    destruct pending as [ | k]; [apply Hnext; left; cbn; lia | ].
    destruct (is_continuation b) eqn:Eb; [ | apply Hnext; now right].
    cbn [append].
    apply (IH c (tail ++ String b EmptyString) k).
    + rewrite string_forall_app, Hc. cbn. now rewrite Eb.
    + rewrite length_app_string. cbn. lia.
Qed.

Lemma well_cut_chars (s : string) : well_cut (chars s).
Proof.
  destruct s as [ | c r]; [exact I | ]. cbn [chars].
  destruct (chars_go_cut r c EmptyString (trail c) eq_refl eq_refl)
    as (tail' & rest & -> & Hw).
  exact Hw.
Qed.

Lemma glue_chars_go (s cur : string) (pending : nat) :
  glue (chars_go pending cur s) = cur ++ s.
Proof.
  revert cur pending. induction s as [ | b r IH]; intros cur pending; cbn [chars_go].
  - cbn. now rewrite append_empty.
  - assert (Hnext : glue (cur :: chars_go (trail b) (String b EmptyString) r)
                    = cur ++ String b r).
    { cbn [glue]. now rewrite IH. }
    destruct pending as [ | k]; [exact Hnext | ].
    destruct (is_continuation b); [ | exact Hnext].
    rewrite IH, append_assoc. reflexivity.
Qed.

(** The characters of a text are its bytes, cut. *)
Lemma glue_chars (s : string) : glue (chars s) = s.
Proof.
  destruct s as [ | c r]; [reflexivity | ]. cbn [chars]. now rewrite glue_chars_go.
Qed.

Lemma well_cut_drop_while (p : string -> bool) (l : list string) :
  well_cut l -> well_cut (drop_while p l).
Proof.
  induction l as [ | x l IH]; [trivial | ]. intros Hw. cbn [drop_while].
  destruct (p x); [ | exact Hw]. exact (IH (well_cut_tail _ _ Hw)).
Qed.

Lemma drop_while_end_first {A} (p : A -> bool) (l : list A) (y : A) (m : list A) :
  drop_while_end p l = y :: m -> exists l', l = y :: l'.
Proof.
  destruct l as [ | x l]; [discriminate | ]. cbn [drop_while_end].
  destruct (drop_while_end p l).
  - destruct (p x); [discriminate | ]. intros E. injection E as -> _. eauto.
  - intros E. injection E as -> _. eauto.
Qed.

Lemma well_cut_drop_while_end (p : string -> bool) (l : list string) :
  well_cut l -> well_cut (drop_while_end p l).
Proof.
  induction l as [ | x l IH]; [trivial | ]. intros Hw. cbn [drop_while_end].
  specialize (IH (well_cut_tail _ _ Hw)). destruct Hw as (Hx & Hfit & _).
  destruct (drop_while_end p l) as [ | y m] eqn:E.
  - destruct (p x); [exact I | ]. cbn. tauto.
  - destruct (drop_while_end_first p l y m E) as (l' & ->).
    cbn [well_cut]. split; [exact Hx | ]. split; [exact Hfit | exact IH].
Qed.

Lemma replace_runs_first {A} (p : A -> bool) (r : A) (l : list A) (y : A) (m : list A) :
  replace_runs p r false l = y :: m -> y = r \/ exists l', l = y :: l'.
Proof.
  destruct l as [ | x l]; [discriminate | ]. cbn [replace_runs].
  destruct (p x); intros E; injection E as <- _; eauto.
Qed.

(** A character of one byte below 128 stands anywhere in a well cut
    list. *)
Lemma well_cut_replace_runs (p : string -> bool) (a : ascii) (b : bool) (l : list string) :
  is_ascii a = true ->
  well_cut l ->
  well_cut (replace_runs p (String a EmptyString) b l).
Proof.
  intros Ha. unfold is_ascii in Ha. apply Z.ltb_lt in Ha.
  assert (Hk : is_continuation a = false).
  { unfold is_continuation. cbn zeta. apply andb_false_iff. left. apply Z.leb_gt. lia. }
  assert (Ht : trail a = 0%nat).
  { unfold trail. cbn zeta. destruct (Z.ltb_spec (code a) 192); [reflexivity | lia]. }
  revert b. induction l as [ | x l IH]; intros b Hw; [exact I | ].
  pose proof (well_cut_tail _ _ Hw) as Hl. destruct Hw as (Hx & Hfit & _).
  cbn [replace_runs]. destruct (p x).
  - destruct b; [exact (IH true Hl) | ].
    cbn [well_cut]. split; [split; [reflexivity | cbn; lia] | ].
    split; [ | exact (IH true Hl)].
    destruct (replace_runs p (String a EmptyString) true l); [exact I | ].
    left. cbn. now rewrite Ht.
  - cbn [well_cut]. split; [exact Hx | ]. split; [ | exact (IH false Hl)].
    destruct (replace_runs p (String a EmptyString) false l) as [ | y m] eqn:E; [exact I | ].
    destruct (replace_runs_first p _ l y m E) as [-> | (l' & ->)]; [now right | exact Hfit].
Qed.

End CharCuts.

(** ** Runs in a list *)

Section ListRuns.
Import JsString Shape.
Context {A : Type}.
Variable p : A -> bool.
Variable r : A.

Lemma drop_while_first (l : list A) : first_not p (drop_while p l) = true.
Proof.
  induction l as [ | x l IH]; cbn; [reflexivity | ].
  destruct (p x) eqn:E; [exact IH | cbn; now rewrite E].
Qed.

Lemma drop_while_end_final (l : list A) : final_not p (drop_while_end p l) = true.
Proof.
  induction l as [ | x l IH]; cbn; [reflexivity | ].
  destruct (drop_while_end p l) as [ | y m] eqn:E.
  - destruct (p x) eqn:Ex; cbn; [reflexivity | now rewrite Ex].
  - exact IH.
Qed.

Lemma drop_while_end_keeps_first (l : list A) :
  first_not p l = true -> first_not p (drop_while_end p l) = true.
Proof.
  destruct l as [ | x l]; cbn; [reflexivity | ]. intros Hx.
  destruct (drop_while_end p l); [ | exact Hx].
  apply negb_true_iff in Hx. rewrite Hx. cbn. now rewrite Hx.
Qed.

Lemma drop_while_id (l : list A) : first_not p l = true -> drop_while p l = l.
Proof.
  destruct l as [ | x l]; cbn; [reflexivity | ]. intros Hx.
  apply negb_true_iff in Hx. now rewrite Hx.
Qed.

Lemma drop_while_end_id (l : list A) : final_not p l = true -> drop_while_end p l = l.
Proof.
  induction l as [ | x l IH]; [reflexivity | ]. intros Hl. cbn [drop_while_end].
  destruct l as [ | y l].
  - cbn in *. apply negb_true_iff in Hl. now rewrite Hl.
  - rewrite (IH Hl). reflexivity.
Qed.

Lemma no_neighbours_tail (x : A) (l : list A) :
  no_neighbours p (x :: l) = true -> no_neighbours p l = true.
Proof.
  destruct l as [ | y l]; [reflexivity | ]. cbn [no_neighbours]. intros Hn.
  apply andb_true_iff in Hn as [_ Hn]. exact Hn.
Qed.

(** Every element of the output is outside the class or is [r]. *)
Lemma replace_runs_elements (f : A -> bool) (b : bool) (l : list A) :
  f r = true -> (forall x, p x = false -> f x = true) ->
  forallb f (replace_runs p r b l) = true.
Proof.
  intros Hr Hf. revert b. induction l as [ | x l IH]; intros b; cbn [replace_runs];
    [reflexivity | ].
  destruct (p x) eqn:Ex.
  - destruct b; [apply IH | ]. cbn [forallb]. now rewrite Hr, IH.
  - cbn [forallb]. now rewrite (Hf x Ex), IH.
Qed.

(** Inside a run the output does not start with an element of the
    class, and no two elements of the class are neighbours. *)
Lemma replace_runs_runs (b : bool) (l : list A) :
  no_neighbours p (replace_runs p r b l) = true
  /\ (b = true -> first_not p (replace_runs p r b l) = true).
Proof.
  revert b. induction l as [ | x l IH]; intros b; cbn [replace_runs];
    [split; reflexivity | ].
  destruct (p x) eqn:Ex.
  - destruct b.
    + apply IH.
    + split; [ | discriminate].
      destruct (IH true) as [Hn Hh]. specialize (Hh eq_refl).
      destruct (replace_runs p r true l) as [ | y m] eqn:E; [reflexivity | ].
      change (no_neighbours p (r :: y :: m))
        with (negb (p r && p y) && no_neighbours p (y :: m)).
      cbn [first_not] in Hh. apply negb_true_iff in Hh.
      now rewrite Hh, andb_false_r, Hn.
  - split; [ | intros _; cbn; now rewrite Ex].
    destruct (IH false) as [Hn _].
    destruct (replace_runs p r false l) as [ | y m] eqn:E; [reflexivity | ].
    change (no_neighbours p (x :: y :: m))
      with (negb (p x && p y) && no_neighbours p (y :: m)).
    now rewrite Ex, Hn.
Qed.

Lemma replace_runs_keeps_first (l : list A) :
  first_not p l = true -> first_not p (replace_runs p r false l) = true.
Proof.
  destruct l as [ | x l]; cbn; [reflexivity | ]. intros Hx.
  apply negb_true_iff in Hx. rewrite Hx. cbn. now rewrite Hx.
Qed.

Lemma final_not_cons (x : A) (l : list A) :
  l <> [] -> final_not p (x :: l) = final_not p l.
Proof. destruct l; [congruence | reflexivity]. Qed.

Lemma replace_runs_nonempty (b : bool) (l : list A) :
  l <> [] -> final_not p l = true -> replace_runs p r b l <> [].
Proof.
  revert b. induction l as [ | x l IH]; intros b Hne Hl; [congruence | ].
  cbn [replace_runs].
  destruct l as [ | y l].
  - cbn in Hl. apply negb_true_iff in Hl. rewrite Hl. discriminate.
  - rewrite final_not_cons in Hl by discriminate.
    destruct (p x); [ | discriminate].
    destruct b; [apply (IH true); [discriminate | exact Hl] | discriminate].
Qed.

Lemma replace_runs_keeps_final (b : bool) (l : list A) :
  final_not p l = true -> final_not p (replace_runs p r b l) = true.
Proof.
  revert b. induction l as [ | x l IH]; intros b Hl; [reflexivity | ].
  cbn [replace_runs].
  destruct l as [ | y l].
  - cbn in Hl. apply negb_true_iff in Hl. rewrite Hl. cbn. now rewrite Hl.
  - rewrite final_not_cons in Hl by discriminate.
    destruct (p x).
    + destruct b; [exact (IH true Hl) | ].
      rewrite final_not_cons by (apply replace_runs_nonempty; [discriminate | exact Hl]).
      exact (IH true Hl).
    + rewrite final_not_cons by (apply replace_runs_nonempty; [discriminate | exact Hl]).
      exact (IH false Hl).
Qed.

(** A list whose runs already are single [r]'s is left as it is. *)
Lemma replace_runs_id (odd : A -> bool) (l : list A) :
  (forall x, p x = true -> odd x = false -> x = r) ->
  forallb (fun x => negb (odd x)) l = true ->
  no_neighbours p l = true ->
  replace_runs p r false l = l.
Proof.
  intros Hsame. induction l as [ | x l IH]; [reflexivity | ]. intros Hc Hn.
  cbn [forallb] in Hc. apply andb_true_iff in Hc as [Hc Hs].
  pose proof (no_neighbours_tail _ _ Hn) as Hn'.
  cbn [replace_runs]. destruct (p x) eqn:Ex.
  - apply negb_true_iff in Hc. pose proof (Hsame x Ex Hc) as Hx. subst x. f_equal.
    destruct l as [ | y l]; [reflexivity | ].
    cbn [no_neighbours] in Hn. rewrite Ex in Hn. cbn in Hn.
    apply andb_true_iff in Hn as [Hy _]. apply negb_true_iff in Hy.
    cbn [replace_runs]. rewrite Hy. f_equal.
    specialize (IH Hs Hn'). cbn [replace_runs] in IH. rewrite Hy in IH.
    injection IH as IH. exact IH.
  - f_equal. exact (IH Hs Hn').
Qed.

End ListRuns.

(** ** Lengths through trimming and collapsing *)

Section UnitSums.
Import JsString Shape.

Lemma units_drop_while (p : string -> bool) (l : list string) :
  fold_right (fun ch n => units ch + n) 0 (drop_while p l)
  <= fold_right (fun ch n => units ch + n) 0 l.
Proof.
  induction l as [ | x l IH]; cbn [drop_while]; [lia | ].
  destruct (p x); [ | lia]. cbn [fold_right]. pose proof (units_pos x). lia.
Qed.

Lemma units_drop_while_end (p : string -> bool) (l : list string) :
  fold_right (fun ch n => units ch + n) 0 (drop_while_end p l)
  <= fold_right (fun ch n => units ch + n) 0 l.
Proof.
  induction l as [ | x l IH]; cbn [drop_while_end]; [lia | ].
  pose proof (units_pos x). pose proof (sum_units_nonneg l).
  destruct (drop_while_end p l) as [ | y m].
  - destruct (p x); cbn [fold_right] in *; lia.
  - cbn [fold_right] in *. lia.
Qed.

Lemma units_replace_runs (p : string -> bool) (b : bool) (l : list string) :
  fold_right (fun ch n => units ch + n) 0 (replace_runs p " " b l)
  <= fold_right (fun ch n => units ch + n) 0 l.
Proof.
  revert b. induction l as [ | x l IH]; intros b; cbn [replace_runs]; [lia | ].
  pose proof (units_pos x).
  destruct (p x).
  - destruct b; [specialize (IH true); cbn [fold_right]; lia | ].
    specialize (IH true). cbn [fold_right].
    change (units " ") with 1. lia.
  - specialize (IH false). cbn [fold_right]. lia.
Qed.

End UnitSums.

Section NameTheorems.
Import JsString JsCase Shape Mutate.

Lemma no_adjacent_impl (q q' : ascii -> bool) (s : string) :
  (forall c, q' c = true -> q c = true) ->
  no_adjacent q s = true -> no_adjacent q' s = true.
Proof.
  intros Hq. induction s as [ | a s IH]; [reflexivity | ]. intros H.
  pose proof (IH (no_adjacent_tail _ _ _ H)) as IH'.
  destruct s as [ | b s]; [reflexivity | ].
  change (no_adjacent q (String a (String b s)))
    with (negb (q a && q b) && no_adjacent q (String b s)) in H.
  change (no_adjacent q' (String a (String b s)))
    with (negb (q' a && q' b) && no_adjacent q' (String b s)).
  apply andb_true_iff in H as [Hab _]. rewrite IH', andb_true_r.
  apply negb_true_iff. apply negb_true_iff in Hab.
  destruct (q' a) eqn:Ea; [ | reflexivity]. destruct (q' b) eqn:Eb; [ | reflexivity].
  rewrite (Hq a Ea), (Hq b Eb) in Hab. discriminate.
Qed.

Lemma forall_head_last (f q : ascii -> bool) (s : string) :
  (forall c, f c = true -> q c = false) ->
  string_forall f s = true -> head_not q s = true /\ last_not q s = true.
Proof.
  intros Hfq. induction s as [ | c s IH]; [split; reflexivity | ]. intros H.
  cbn [string_forall] in H. apply andb_true_iff in H as [Hc Hs].
  split; [cbn; now rewrite (Hfq c Hc) | ].
  destruct s as [ | b s]; [cbn; now rewrite (Hfq c Hc) | ]. apply IH. exact Hs.
Qed.

Lemma fold_ascii_id (s : string) :
  string_forall (fun c => negb (is_upper c)) s = true -> fold_ascii s = s.
Proof.
  induction s as [ | c s IH]; [reflexivity | ]. cbn. intros Hu.
  apply andb_true_iff in Hu as [Hc Hs]. apply negb_true_iff in Hc.
  unfold lower_char. now rewrite Hc, IH.
Qed.

(** Text of ASCII without capitals is its own lower case. *)
Lemma toLowerCase_id `{Host} (s : string) :
  string_forall is_ascii s = true ->
  string_forall (fun c => negb (is_upper c)) s = true -> toLowerCase s = s.
Proof. intros Ha Hu. unfold toLowerCase. rewrite Ha. now apply fold_ascii_id. Qed.

Lemma is_space_char_byte (c : ascii) :
  is_space_char (String c EmptyString) = is_ascii_space c.
Proof. destruct c as [[] [] [] [] [] [] [] []]; reflexivity. Qed.

(** ASCII text is cut into its bytes. *)
Lemma chars_go_ascii (r cur : string) :
  string_forall is_ascii r = true ->
  chars_go 0 cur r = cur :: map (fun c => String c EmptyString) (list_ascii_of_string r).
Proof.
  revert cur. induction r as [ | b r IH]; intros cur Ha; [reflexivity | ].
  cbn [string_forall] in Ha. apply andb_true_iff in Ha as [Hb Hr].
  cbn [chars_go list_ascii_of_string map]. f_equal.
  assert (Ht : trail b = 0%nat).
  { unfold is_ascii in Hb. apply Z.ltb_lt in Hb. unfold trail. cbn zeta.
    destruct (Z.ltb_spec (code b) 192); [reflexivity | lia]. }
  rewrite Ht. exact (IH _ Hr).
Qed.

Lemma chars_ascii (t : string) :
  string_forall is_ascii t = true ->
  chars t = map (fun c => String c EmptyString) (list_ascii_of_string t).
Proof.
  destruct t as [ | c r]; [reflexivity | ]. intros Ha. cbn [chars].
  cbn [string_forall] in Ha. apply andb_true_iff in Ha as [Hc Hr].
  assert (Ht : trail c = 0%nat).
  { unfold is_ascii in Hc. apply Z.ltb_lt in Hc. unfold trail. cbn zeta.
    destruct (Z.ltb_spec (code c) 192); [reflexivity | lia]. }
  rewrite Ht. exact (chars_go_ascii r _ Hr).
Qed.

Lemma final_not_bytes (t : string) :
  final_not is_space_char (map (fun c => String c EmptyString) (list_ascii_of_string t))
  = last_not is_ascii_space t.
Proof.
  induction t as [ | c t IH]; [reflexivity | ].
  destruct t as [ | b t];
    [cbn [list_ascii_of_string map final_not last_not]; now rewrite is_space_char_byte | ].
  exact IH.
Qed.

(** ASCII text with no white space at either end is its own trim. *)
Lemma trim_id_ascii (t : string) :
  string_forall is_ascii t = true ->
  head_not is_ascii_space t = true -> last_not is_ascii_space t = true -> trim t = t.
Proof.
  intros Ha Hh Hl. unfold trim.
  rewrite drop_while_id, drop_while_end_id; [apply glue_chars | | ];
    rewrite (chars_ascii t Ha).
  - now rewrite final_not_bytes.
  - destruct t as [ | c t]; [reflexivity | ].
    cbn [list_ascii_of_string map first_not]. now rewrite is_space_char_byte.
Qed.

Lemma removeAll_id (q : ascii -> bool) (s : string) :
  string_forall (fun c => negb (q c)) s = true -> removeAll q s = s.
Proof.
  induction s as [ | c s IH]; [reflexivity | ]. cbn. intros H.
  apply andb_true_iff in H as [Hc Hs]. apply negb_true_iff in Hc. now rewrite Hc, IH.
Qed.

Lemma slug_char_code (c : ascii) :
  is_slug_char c = true <->
  97 <= code c <= 122 \/ 48 <= code c <= 57 \/ code c = 45.
Proof.
  unfold is_slug_char, is_lower_alnum, is_digit, is_hyphen.
  destruct (Z.leb_spec 97 (code c)); destruct (Z.leb_spec (code c) 122);
    destruct (Z.leb_spec 48 (code c)); destruct (Z.leb_spec (code c) 57);
    destruct (Z.eqb_spec (code c) 45); cbn; split; intros; try lia; try reflexivity;
    discriminate.
Qed.

Lemma ascii_eqb_code (c d : ascii) : Ascii.eqb c d = (code c =? code d).
Proof.
  destruct (Ascii.eqb_spec c d) as [-> | Hne]; [now rewrite Z.eqb_refl | ].
  symmetry. apply Z.eqb_neq. intros E. apply Hne, code_inj, E.
Qed.

(** The class replaced by [slugify]: everything outside [a-z0-9]. *)
Let not_alnum (c : ascii) : bool := negb (is_lower_alnum c).

Lemma is_slug_slugify `{host : Host} (input : string) : is_slug (slugify input) = true.
Proof.
  unfold slugify, is_slug.
  set (u := removeAll is_quote (toLowerCase (trim input))).
  pose proof (replaceRuns_chars not_alnum "-" false u) as Hchars.
  pose proof (proj1 (replaceRuns_runs not_alnum "-" false u)) as Hruns.
  change (String "-" EmptyString) with "-" in *.
  change (fun c => negb (is_lower_alnum c)) with not_alnum.
  set (v := replaceRuns not_alnum "-" false u) in *.
  assert (Hslug : string_forall is_slug_char v = true).
  { revert Hchars. apply string_forall_impl. intros c Hc. unfold is_slug_char, is_hyphen.
    unfold not_alnum in Hc. rewrite negb_involutive, ascii_eqb_code in Hc. exact Hc. }
  assert (Hadj : no_adjacent is_hyphen v = true).
  { revert Hruns. apply no_adjacent_impl. intros c Hc. unfold is_hyphen in Hc.
    apply Z.eqb_eq in Hc. unfold not_alnum, is_lower_alnum, is_digit. rewrite Hc.
    reflexivity. }
  rewrite (dropWhileEnd_forall _ _ _ (dropWhile_forall _ _ _ Hslug)).
  rewrite (dropWhileEnd_head _ _ (dropWhile_head is_hyphen v)).
  rewrite dropWhileEnd_last.
  rewrite (dropWhileEnd_no_adjacent _ _ _ (dropWhile_no_adjacent _ is_hyphen _ Hadj)).
  reflexivity.
Qed.

Lemma slugify_fixes_slugs `{host : Host} (t : string) : is_slug t = true -> slugify t = t.
Proof.
  unfold is_slug. intros H.
  apply andb_true_iff in H as [H Hadj]. apply andb_true_iff in H as [H Hlast].
  apply andb_true_iff in H as [Hchars Hhead].
  assert (Hsp : head_not is_ascii_space t = true /\ last_not is_ascii_space t = true).
  { apply (forall_head_last is_slug_char); [ | exact Hchars].
    intros c Hc. apply slug_char_code in Hc. unfold is_ascii_space.
    destruct (Z.leb_spec 9 (code c)); destruct (Z.leb_spec (code c) 13);
      destruct (Z.eqb_spec (code c) 32); cbn; try reflexivity; lia. }
  assert (Hascii : string_forall is_ascii t = true).
  { revert Hchars. apply string_forall_impl. intros c Hc. apply slug_char_code in Hc.
    unfold is_ascii. apply Z.ltb_lt. lia. }
  unfold slugify.
  rewrite (trim_id_ascii t Hascii (proj1 Hsp) (proj2 Hsp)).
  rewrite (toLowerCase_id t Hascii).
  2:{ revert Hchars. apply string_forall_impl. intros c Hc. apply slug_char_code in Hc.
      unfold is_upper.
      destruct (Z.leb_spec 65 (code c)); destruct (Z.leb_spec (code c) 90); cbn;
        try reflexivity; lia. }
  rewrite removeAll_id.
  2:{ revert Hchars. apply string_forall_impl. intros c Hc. apply slug_char_code in Hc.
      unfold is_quote.
      destruct (Z.eqb_spec (code c) 39); destruct (Z.eqb_spec (code c) 34); cbn;
        try reflexivity; lia. }
  change (fun c => negb (is_lower_alnum c)) with not_alnum.
  change "-" with (String "-" EmptyString).
  rewrite (replaceRuns_id not_alnum "-").
  - rewrite (dropWhile_id _ _ Hhead), (dropWhileEnd_id _ _ Hlast). reflexivity.
  - revert Hchars. apply string_forall_impl. intros c Hc.
    unfold is_slug_char, is_hyphen in Hc. unfold not_alnum.
    rewrite negb_involutive, ascii_eqb_code. exact Hc.
  - assert (Hgen : forall s, string_forall is_slug_char s = true ->
                             no_adjacent is_hyphen s = true ->
                             no_adjacent not_alnum s = true).
    { clear. induction s as [ | a s IH]; [reflexivity | ]. intros Hc Hn.
      cbn [string_forall] in Hc. apply andb_true_iff in Hc as [Ha Hs].
      pose proof (IH Hs (no_adjacent_tail _ _ _ Hn)) as IH'.
      destruct s as [ | b s]; [reflexivity | ].
      change (no_adjacent is_hyphen (String a (String b s)))
        with (negb (is_hyphen a && is_hyphen b) && no_adjacent is_hyphen (String b s))
        in Hn.
      change (no_adjacent not_alnum (String a (String b s)))
        with (negb (not_alnum a && not_alnum b) && no_adjacent not_alnum (String b s)).
      rewrite IH', andb_true_r. apply andb_true_iff in Hn as [Hab _].
      cbn [string_forall] in Hs. apply andb_true_iff in Hs as [Hb _].
      unfold is_slug_char in Ha, Hb. unfold not_alnum.
      destruct (is_lower_alnum a); [reflexivity | ].
      destruct (is_lower_alnum b); [reflexivity | ].
      cbn in Ha, Hb. rewrite Ha, Hb in Hab. discriminate. }
    apply Hgen; assumption.
Qed.

(** X1: [slugify] gives a URL-safe slug (only [a-z], [0-9] and single
    hyphens, none at either end), and a slug is its own slug. *)
Theorem slugify_url_safe `{Host} (input : string) :
  is_slug (slugify input) = true
  /\ slugify (slugify input) = slugify input
  /\ (forall t, is_slug t = true -> slugify t = t).
Proof.
  split; [apply is_slug_slugify | split].
  - apply slugify_fixes_slugs, is_slug_slugify.
  - apply slugify_fixes_slugs.
Qed.

(** The new name is normalized. *)
Lemma is_normalized_normalizeName (s : string) :
  is_normalized (normalizeName s) = true.
Proof.
  unfold normalizeName, trim, collapse_spaces.
  set (t := drop_while_end is_space_char (drop_while is_space_char (chars s))).
  assert (Hw : well_cut t).
  { apply well_cut_drop_while_end, well_cut_drop_while, well_cut_chars. }
  rewrite (chars_glue t Hw).
  unfold is_normalized. cbn zeta.
  rewrite (chars_glue _ (well_cut_replace_runs is_space_char " "%char false t eq_refl Hw)).
  assert (Hf : first_not is_space_char t = true).
  { apply drop_while_end_keeps_first, drop_while_first. }
  assert (Hl : final_not is_space_char t = true) by apply drop_while_end_final.
  rewrite (replace_runs_keeps_first is_space_char " " t Hf).
  rewrite (replace_runs_keeps_final is_space_char " " false t Hl).
  rewrite (proj1 (replace_runs_runs is_space_char " " false t)).
  rewrite replace_runs_elements; [reflexivity | reflexivity | ].
  intros x Hx. unfold is_odd_space. now rewrite Hx.
Qed.

(** A normalized name is left as it is. *)
Lemma normalizeName_fixes_normalized (s : string) :
  is_normalized s = true -> normalizeName s = s.
Proof.
  unfold is_normalized. cbn zeta. intros Hn.
  apply andb_true_iff in Hn as [Hn Hadj]. apply andb_true_iff in Hn as [Hn Hl].
  apply andb_true_iff in Hn as [Hc Hf].
  unfold normalizeName, trim.
  rewrite (drop_while_id _ _ Hf), (drop_while_end_id _ _ Hl), glue_chars.
  unfold collapse_spaces.
  rewrite (replace_runs_id is_space_char " " is_odd_space);
    [apply glue_chars | | exact Hc | exact Hadj].
  intros x Hx Hodd. unfold is_odd_space in Hodd. rewrite Hx in Hodd.
  apply negb_false_iff, String.eqb_eq in Hodd. exact Hodd.
Qed.

(** X2: [normalizeName] gives a name without white space at its ends and
    with single spaces inside; it leaves such a name as it is and never
    makes a name longer. *)
Theorem normalizeName_normalizes (s : string) :
  is_normalized (normalizeName s) = true
  /\ normalizeName (normalizeName s) = normalizeName s
  /\ len (normalizeName s) <= len s.
Proof.
  split; [apply is_normalized_normalizeName | ].
  split; [apply normalizeName_fixes_normalized, is_normalized_normalizeName | ].
  unfold normalizeName, trim, collapse_spaces, len.
  set (t := drop_while_end is_space_char (drop_while is_space_char (chars s))).
  assert (Hw : well_cut t).
  { apply well_cut_drop_while_end, well_cut_drop_while, well_cut_chars. }
  rewrite (chars_glue t Hw).
  rewrite (chars_glue _ (well_cut_replace_runs is_space_char " "%char false t eq_refl Hw)).
  pose proof (units_replace_runs is_space_char false t).
  pose proof (units_drop_while_end is_space_char (drop_while is_space_char (chars s))).
  pose proof (units_drop_while is_space_char (chars s)).
  fold t in H0. lia.
Qed.

End NameTheorems.

(** ** [JSON.parse] after [JSON.stringify] *)

Section JsonRoundTrip.
Import JsString Json JsonShape.

Lemma json_induction (P : json -> Prop) :
  P JNull -> (forall b, P (JBool b)) -> (forall m e, P (JNum m e)) ->
  (forall s, P (JStr s)) ->
  (forall items, Forall P items -> P (JArr items)) ->
  (forall members, Forall (fun kv => P (snd kv)) members -> P (JObj members)) ->
  forall v, P v.
Proof.
  intros Hnull Hbool Hnum Hstr Harr Hobj.
  fix IH 1. intros [ | b | m e | s | items | members].
  - exact Hnull.
  - apply Hbool.
  - apply Hnum.
  - apply Hstr.
  - apply Harr.
    exact ((fix all (l : list json) : Forall P l :=
              match l with
              | [] => Forall_nil P
              | x :: r => Forall_cons x (IH x) (all r)
              end) items).
  - apply Hobj.
    exact ((fix all (l : list (string * json)) : Forall (fun kv => P (snd kv)) l :=
              match l with
              | [] => Forall_nil _
              | kv :: r => Forall_cons kv (IH (snd kv)) (all r)
              end) members).
Qed.

Lemma skip_ws_pre (pre s : string) :
  string_forall is_json_ws pre = true -> skip_ws (pre ++ s) = skip_ws s.
Proof.
  induction pre as [ | c pre IH]; [reflexivity | ]. cbn [string_forall append].
  intros H. apply andb_true_iff in H as [Hc Hp]. unfold skip_ws in *.
  cbn [dropWhile]. rewrite Hc. exact (IH Hp).
Qed.

Lemma spaces_ws (n : nat) : string_forall is_json_ws (repeat_string n " ") = true.
Proof. induction n as [ | n IH]; [reflexivity | exact IH]. Qed.

Lemma newline_ws (gap level : nat) : string_forall is_json_ws (newline gap level) = true.
Proof. destruct gap; [reflexivity | ]. cbn [newline string_forall]. apply spaces_ws. Qed.

Lemma hex_value_hex_char (d : Z) : 0 <= d < 16 -> hex_value (hex_char d) = Some d.
Proof.
  intros Hd. unfold hex_char, hex_value, is_digit.
  destruct (Z.ltb_spec d 10).
  - rewrite code_chr by lia.
    destruct (Z.leb_spec 48 (48 + d)); [ | lia].
    destruct (Z.leb_spec (48 + d) 57); [ | lia]. cbn [andb]. f_equal. lia.
  - rewrite code_chr by lia.
    destruct (Z.leb_spec 48 (87 + d)); destruct (Z.leb_spec (87 + d) 57); try lia;
      cbn [andb]; destruct (Z.leb_spec 97 (87 + d)); try lia;
      destruct (Z.leb_spec (87 + d) 102); try lia; cbn [andb]; f_equal; lia.
Qed.

(** The body of a quoted string is read back, escapes undone. *)
Lemma parse_quote_body (s rest : string) :
  parse_string_body (quote_body s ++ String dquote rest) = Some (s, rest).
Proof.
  induction s as [ | c s IH]; [reflexivity | ].
  cbn [quote_body]. rewrite app_assoc_string. unfold quote_char.
  pose proof (code_range c) as Hr.
  destruct (Z.eqb_spec (code c) 34) as [E | N34].
  { assert (c = dquote) by (apply code_inj; exact E). subst c.
    cbn [append parse_string_body]. cbn. rewrite IH. reflexivity. }
  destruct (Z.eqb_spec (code c) 92) as [E | N92].
  { assert (c = "\"%char) by (apply code_inj; exact E). subst c.
    cbn [append parse_string_body]. cbn. rewrite IH. reflexivity. }
  destruct (Z.eqb_spec (code c) 8) as [E | N8].
  { assert (c = chr 8) by (apply code_inj; exact E). subst c.
    cbn [append parse_string_body]. cbn. rewrite IH. reflexivity. }
  destruct (Z.eqb_spec (code c) 12) as [E | N12].
  { assert (c = chr 12) by (apply code_inj; exact E). subst c.
    cbn [append parse_string_body]. cbn. rewrite IH. reflexivity. }
  destruct (Z.eqb_spec (code c) 10) as [E | N10].
  { assert (c = chr 10) by (apply code_inj; exact E). subst c.
    cbn [append parse_string_body]. cbn. rewrite IH. reflexivity. }
  destruct (Z.eqb_spec (code c) 13) as [E | N13].
  { assert (c = chr 13) by (apply code_inj; exact E). subst c.
    cbn [append parse_string_body]. cbn. rewrite IH. reflexivity. }
  destruct (Z.eqb_spec (code c) 9) as [E | N9].
  { assert (c = chr 9) by (apply code_inj; exact E). subst c.
    cbn [append parse_string_body]. cbn. rewrite IH. reflexivity. }
  destruct (Z.ltb_spec (code c) 32) as [Hlow | Hhigh].
  - cbn [append parse_string_body].
    change (code "\" =? 34) with false. change (code "\" =? 92) with true. cbv iota.
    unfold hex4. change (hex_value "0") with (Some 0).
    rewrite !hex_value_hex_char by (Z.div_mod_to_equations; lia).
    rewrite IH.
    replace (((0 * 16 + 0) * 16 + code c / 16) * 16 + code c mod 16) with (code c)
      by (Z.div_mod_to_equations; lia).
    assert (Hs : is_high_surrogate (code c) = false).
    { unfold is_high_surrogate. apply andb_false_iff. left. apply Z.leb_gt. lia. }
    rewrite Hs.
    unfold utf8_of_unit. destruct (Z.ltb_spec (code c) 128); [ | lia].
    rewrite chr_code. reflexivity.
  - cbn [append parse_string_body].
    destruct (Z.eqb_spec (code c) 34); [contradiction | ].
    destruct (Z.eqb_spec (code c) 92); [contradiction | ].
    destruct (Z.ltb_spec (code c) 32); [lia | ].
    rewrite IH. reflexivity.
Qed.

Lemma parse_value_int (z : Z) (fuel : nat) (pre : string) (c0 : ascii) (rest : string) :
  string_forall is_json_ws pre = true -> ends_number c0 ->
  parse_value (S fuel) (pre ++ string_of_Z z ++ String c0 rest)
  = Some (JNum z 0, String c0 rest).
Proof.
  intros Hpre Hend.
  pose proof (parse_number_string_of_Z z c0 rest Hend) as Hnum.
  destruct (string_of_Z_head z) as (c & r & E & Hc).
  rewrite E in *. cbn [append] in Hnum. cbn [parse_value].
  rewrite (skip_ws_pre pre _ Hpre). cbn [append].
  rewrite skip_ws_head.
  2:{ unfold is_json_ws. destruct Hc as [Hc | Hc];
      repeat match goal with
             | |- context [code c =? ?k] => destruct (Z.eqb_spec (code c) k); [lia | ]
             end; reflexivity. }
  repeat match goal with
         | |- context [code c =? ?k] => destruct (Z.eqb_spec (code c) k); [lia | ]
         end.
  exact Hnum.
Qed.

Lemma opens_value_skip (s : string) : opens_value s -> skip_ws s = s.
Proof. intros (c & r & -> & Hc & _). now apply skip_ws_head. Qed.

Lemma stringify_opens (gap level : nat) (v : json) (tail : string) :
  plain v = true -> opens_value (stringify gap level v ++ tail).
Proof.
  intros Hv. destruct v as [ | [ | ] | m e | s | [ | x items] | [ | kv members]];
    try (cbn; eexists _, _; split; [reflexivity | ]; repeat split; cbn; lia).
  cbn [plain] in Hv. apply Z.eqb_eq in Hv. subst e.
  cbn [stringify]. unfold string_of_num. cbn [Z.leb Z.compare].
  destruct (string_of_Z_head (m * pow10 0)) as (c & r & E & Hc).
  rewrite E. cbn [append]. exists c, (r ++ tail). split; [reflexivity | ].
  unfold is_json_ws.
  destruct Hc as [Hc | Hc];
    repeat match goal with
           | |- context [code c =? ?k] => destruct (Z.eqb_spec (code c) k); [lia | ]
           end; repeat split; lia.
Qed.

Lemma newline_closer (gap level : nat) (closer : ascii) (tail : string) :
  ends_number closer -> is_json_ws closer = false ->
  exists c0 r, newline gap level ++ String closer tail = String c0 r
               /\ ends_number c0
               /\ skip_ws (String c0 r) = String closer tail.
Proof.
  intros Hend Hws. destruct gap as [ | gap].
  - exists closer, tail. cbn. repeat split; try apply Hend.
    now apply skip_ws_head.
  - exists (chr 10), (repeat_string (level * S gap) " " ++ String closer tail).
    split; [reflexivity | ]. split.
    + repeat split; cbn; lia.
    + change (String (chr 10) (repeat_string (level * S gap) " " ++ String closer tail))
        with (newline (S gap) level ++ String closer tail).
      rewrite skip_ws_pre by apply newline_ws. now apply skip_ws_head.
Qed.

Lemma comma_ends_number : ends_number ",".
Proof. repeat split; cbn; lia. Qed.

Lemma bracket_ends_number : ends_number "]".
Proof. repeat split; cbn; lia. Qed.

Lemma brace_ends_number : ends_number "}".
Proof. repeat split; cbn; lia. Qed.

Section Gap.
Variable gap : nat.

Lemma elements_read_back (level : nat) (items : list json) :
  Forall (reads_back gap) items -> forallb plain items = true ->
  forall (x : json) (fuel : nat) (pre tail : string),
    reads_back gap x -> plain x = true ->
    string_forall is_json_ws pre = true ->
    (list_sum (map (fun y => S (weight y)) (x :: items)) < fuel)%nat ->
    parse_elements fuel
      (pre ++ join (separator gap level) (map (stringify gap (S level)) (x :: items))
           ++ newline gap level ++ String "]" tail)
    = Some (x :: items, tail).
Proof.
  induction 1 as [ | y items Hy Hitems IH]; intros Hplain x fuel pre tail Hx Px Hpre Hfuel.
  - destruct fuel as [ | f]; [cbn in Hfuel; lia | ].
    cbn [map join] in *. cbn [map list_sum fold_right] in Hfuel. cbn [parse_elements].
    destruct (newline_closer gap level "]" tail bracket_ends_number eq_refl)
      as (c0 & r & E & Hend & Hskip).
    rewrite E, (Hx Px (S level) f pre c0 r Hpre Hend) by lia.
    rewrite Hskip. reflexivity.
  - destruct fuel as [ | f]; [cbn in Hfuel; lia | ].
    cbn [forallb] in Hplain. apply andb_true_iff in Hplain as [Py Pitems].
    change (join (separator gap level) (map (stringify gap (S level)) (x :: y :: items)))
      with (stringify gap (S level) x
            ++ separator gap level
            ++ join (separator gap level) (map (stringify gap (S level)) (y :: items))).
    rewrite !app_assoc_string. unfold separator at 1. cbn [append].
    cbn [parse_elements].
    cbn [map list_sum fold_right] in Hfuel.
    rewrite (Hx Px (S level) f pre ","%char _ Hpre comma_ends_number) by lia.
    rewrite skip_ws_head by reflexivity.
    change (code "," =? 93) with false. change (code "," =? 44) with true. cbv iota.
    rewrite (IH Pitems y f (newline gap (S level)) tail Hy Py (newline_ws _ _)).
    + reflexivity.
    + cbn [map list_sum fold_right]. lia.
Qed.

Lemma colon_eq : colon gap = String ":" (colon_space gap).
Proof. unfold colon, colon_space. now destruct gap. Qed.

Lemma colon_space_ws : string_forall is_json_ws (colon_space gap) = true.
Proof. unfold colon_space. now destruct gap. Qed.

Lemma members_head (level : nat) (kv : string * json) (members : list (string * json))
    (tail : string) :
  exists r, join (separator gap level) (map (member_text gap level) (kv :: members)) ++ tail
            = String dquote r.
Proof.
  destruct members as [ | kv' members]; cbn [map join]; unfold member_text at 1, quote;
    cbn [append]; eexists; reflexivity.
Qed.

Lemma members_read_back (level : nat) (members : list (string * json)) :
  Forall (fun kv => reads_back gap (snd kv)) members ->
  forallb (fun kv : string * json => plain (snd kv)) members = true ->
  forall (kv : string * json) (fuel : nat) (tail : string),
    reads_back gap (snd kv) -> plain (snd kv) = true ->
    (list_sum (map (fun y : string * json => S (weight (snd y))) (kv :: members)) < fuel)%nat ->
    parse_members fuel
      (join (separator gap level) (map (member_text gap level) (kv :: members))
         ++ newline gap level ++ String "}" tail)
    = Some (kv :: members, tail).
Proof.
  induction 1 as [ | kv' members Hkv' Hmembers IH];
    intros Hplain [k v] fuel tail Hv Pv Hfuel; cbn [snd] in Hv, Pv.
  - destruct fuel as [ | f]; [cbn in Hfuel; lia | ].
    cbn [map join snd] in *. cbn [map list_sum fold_right snd] in Hfuel. unfold member_text, quote. cbn [fst snd].
    rewrite colon_eq. cbn [append]. rewrite !app_assoc_string. cbn [append].
    cbn [parse_members]. change (code dquote =? 34) with true. cbv iota.
    rewrite parse_quote_body. rewrite skip_ws_head by reflexivity.
    change (code ":" =? 58) with true. cbv iota. rewrite ?app_assoc_string.
    destruct (newline_closer gap level "}" tail brace_ends_number eq_refl)
      as (c0 & r & E & Hend & Hskip).
    rewrite E, (Hv Pv (S level) f (colon_space gap) c0 r colon_space_ws Hend) by lia.
    rewrite Hskip. reflexivity.
  - destruct fuel as [ | f]; [cbn in Hfuel; lia | ].
    cbn [forallb] in Hplain. apply andb_true_iff in Hplain as [Pkv' Pmembers].
    change (join (separator gap level) (map (member_text gap level) ((k, v) :: kv' :: members)))
      with (member_text gap level (k, v)
            ++ separator gap level
            ++ join (separator gap level) (map (member_text gap level) (kv' :: members))).
    unfold member_text at 1, quote. cbn [fst snd].
    rewrite colon_eq. cbn [append]. rewrite !app_assoc_string. cbn [append].
    rewrite !app_assoc_string. unfold separator at 1. cbn [append].
    cbn [parse_members]. change (code dquote =? 34) with true. cbv iota.
    rewrite parse_quote_body. rewrite skip_ws_head by reflexivity.
    change (code ":" =? 58) with true. cbv iota. rewrite ?app_assoc_string.
    cbn [map list_sum fold_right snd] in Hfuel.
    rewrite (Hv Pv (S level) f (colon_space gap) ","%char _ colon_space_ws comma_ends_number) by lia.
    rewrite skip_ws_head by reflexivity.
    change (code "," =? 125) with false. change (code "," =? 44) with true. cbv iota.
    rewrite skip_ws_pre by apply newline_ws.
    destruct (members_head level kv' members (newline gap level ++ String "}" tail))
      as (r & E).
    rewrite E, skip_ws_head by reflexivity. rewrite <- E.
    rewrite (IH Pmembers kv' f tail Hkv' Pkv').
    + reflexivity.
    + cbn [map list_sum fold_right]. lia.
Qed.

Lemma parse_value_stringify (v : json) : reads_back gap v.
Proof.
  induction v as [ | b | m e | s | items IH | members IH] using json_induction;
    intros Pv level fuel pre c0 rest Hpre Hend Hfuel;
    (destruct fuel as [ | f]; [cbn in Hfuel; lia | ]).
  - cbn [stringify parse_value]. rewrite skip_ws_pre by assumption. reflexivity.
  - destruct b; cbn [stringify parse_value]; rewrite skip_ws_pre by assumption;
      reflexivity.
  - cbn [plain] in Pv. apply Z.eqb_eq in Pv. subst e.
    cbn [stringify]. unfold string_of_num. cbn [Z.leb Z.compare].
    change (pow10 0) with 1. rewrite Z.mul_1_r.
    now apply parse_value_int.
  - cbn [stringify parse_value]. rewrite skip_ws_pre by assumption.
    unfold quote. cbn [append]. rewrite skip_ws_head by reflexivity.
    change (code dquote =? 123) with false. change (code dquote =? 91) with false.
    change (code dquote =? 34) with true. cbv iota.
    rewrite app_assoc_string. cbn [append]. rewrite parse_quote_body. reflexivity.
  - destruct items as [ | x items].
    { cbn [stringify parse_value]. rewrite skip_ws_pre by assumption. reflexivity. }
    change (stringify gap level (JArr (x :: items)))
      with (String "[" (newline gap (S level)
              ++ join (separator gap level) (map (stringify gap (S level)) (x :: items))
              ++ newline gap level ++ "]")).
    cbn [append]. rewrite !app_assoc_string. cbn [append].
    cbn [parse_value]. rewrite skip_ws_pre by assumption.
    rewrite skip_ws_head by reflexivity.
    change (code "[" =? 123) with false. change (code "[" =? 91) with true. cbv iota.
    cbn [plain forallb] in Pv. apply andb_true_iff in Pv as [Px Pitems].
    inversion IH as [ | ? ? Hx Hitems]; subst.
    rewrite skip_ws_pre by apply newline_ws.
    assert (Hopen : opens_value
              (join (separator gap level) (map (stringify gap (S level)) (x :: items))
                 ++ newline gap level ++ String "]" (String c0 rest))).
    { destruct items as [ | y items]; cbn [map join].
      - now apply stringify_opens.
      - rewrite app_assoc_string. now apply stringify_opens. }
    rewrite (opens_value_skip _ Hopen).
    destruct Hopen as (c & r & E & _ & H93 & _).
    rewrite E. destruct (Z.eqb_spec (code c) 93) as [ | _]; [contradiction | ].
    rewrite <- E.
    rewrite (elements_read_back level items Hitems Pitems x f _ _ Hx Px (newline_ws _ _)).
    + reflexivity.
    + cbn [weight map list_sum fold_right] in *. lia.
  - destruct members as [ | kv members].
    { cbn [stringify parse_value]. rewrite skip_ws_pre by assumption. reflexivity. }
    change (stringify gap level (JObj (kv :: members)))
      with (String "{" (newline gap (S level)
              ++ join (separator gap level) (map (member_text gap level) (kv :: members))
              ++ newline gap level ++ "}")).
    cbn [append]. rewrite !app_assoc_string. cbn [append].
    cbn [parse_value]. rewrite skip_ws_pre by assumption.
    rewrite skip_ws_head by reflexivity.
    change (code "{" =? 123) with true. cbv iota.
    cbn [plain forallb] in Pv. apply andb_true_iff in Pv as [Pkv Pmembers].
    inversion IH as [ | ? ? Hkv Hmembers]; subst.
    rewrite !skip_ws_pre by apply newline_ws.
    destruct (members_head level kv members
                (newline gap level ++ String "}" (String c0 rest))) as (r & E).
    rewrite E, !skip_ws_head by reflexivity.
    change (code dquote =? 125) with false. cbv iota. rewrite <- E.
    rewrite (members_read_back level members Hmembers Pmembers kv f _ Hkv Pkv).
    + reflexivity.
    + cbn [weight map list_sum fold_right] in *. lia.
Qed.

End Gap.

Lemma join_length (sep : string) (l : list string) :
  (list_sum (map String.length l) <= String.length (join sep l))%nat.
Proof.
  induction l as [ | x l IH]; [cbn; lia | ].
  destruct l as [ | y l].
  - cbn. lia.
  - change (join sep (x :: y :: l)) with (x ++ sep ++ join sep (y :: l)).
    rewrite !length_app_string. cbn [map list_sum fold_right] in *. lia.
Qed.

Lemma string_of_Z_length (z : Z) : (1 <= String.length (string_of_Z z))%nat.
Proof.
  destruct (string_of_Z_head z) as (c & r & E & _). rewrite E. cbn. lia.
Qed.

(** The fuel [JSON.parse] starts with is enough: a value weighs less
    than twice the length of its text. *)
Lemma weight_bound (gap : nat) (v : json) :
  plain v = true ->
  forall level, (weight v + 1 <= 2 * String.length (stringify gap level v))%nat.
Proof.
  induction v as [ | b | m e | s | items IH | members IH] using json_induction;
    intros Pv level.
  - cbn. lia.
  - destruct b; cbn; lia.
  - cbn [plain] in Pv. apply Z.eqb_eq in Pv. subst e.
    cbn [stringify weight]. unfold string_of_num. cbn [Z.leb Z.compare].
    pose proof (string_of_Z_length (m * pow10 0)). lia.
  - cbn. lia.
  - destruct items as [ | x items]; [cbn; lia | ].
    change (stringify gap level (JArr (x :: items)))
      with (String "[" (newline gap (S level)
              ++ join (separator gap level) (map (stringify gap (S level)) (x :: items))
              ++ newline gap level ++ "]")).
    cbn [String.length weight]. rewrite !length_app_string.
    pose proof (join_length (separator gap level)
                  (map (stringify gap (S level)) (x :: items))) as Hjoin.
    assert (Hsum : (list_sum (map (fun y => S (weight y)) (x :: items))
                    <= 2 * list_sum (map String.length
                                       (map (stringify gap (S level)) (x :: items))))%nat).
    { cbn [plain] in Pv. clear Hjoin. revert Pv IH. generalize (x :: items) as l.
      induction l as [ | y l IHl]; intros Pl IHF; [cbn; lia | ].
      cbn [forallb] in Pl. apply andb_true_iff in Pl as [Py Pl].
      inversion IHF as [ | ? ? Hy Hl]; subst.
      cbn [map list_sum fold_right].
      specialize (Hy Py (S level)). specialize (IHl Pl Hl).
      unfold list_sum in IHl. lia. }
    cbn [String.length]. lia.
  - destruct members as [ | kv members]; [cbn; lia | ].
    change (stringify gap level (JObj (kv :: members)))
      with (String "{" (newline gap (S level)
              ++ join (separator gap level) (map (member_text gap level) (kv :: members))
              ++ newline gap level ++ "}")).
    cbn [String.length weight]. rewrite !length_app_string.
    pose proof (join_length (separator gap level)
                  (map (member_text gap level) (kv :: members))) as Hjoin.
    assert (Hsum : (list_sum (map (fun y : string * json => S (weight (snd y)))
                                (kv :: members))
                    <= 2 * list_sum (map String.length
                                       (map (member_text gap level) (kv :: members))))%nat).
    { cbn [plain] in Pv. clear Hjoin. revert Pv IH. generalize (kv :: members) as l.
      induction l as [ | y l IHl]; intros Pl IHF; [cbn; lia | ].
      cbn [forallb] in Pl. apply andb_true_iff in Pl as [Py Pl].
      inversion IHF as [ | ? ? Hy Hl]; subst.
      cbn [map list_sum fold_right].
      specialize (Hy Py (S level)). specialize (IHl Pl Hl).
      unfold member_text at 1. rewrite !length_app_string.
      unfold list_sum in IHl. lia. }
    cbn [String.length]. lia.
Qed.

Lemma line_feed_ends_number : ends_number (chr 10).
Proof. repeat split; cbn; lia. Qed.

(** A document written with [JSON.stringify(v, null, gap) + "\n"] is
    parsed back to [v]. *)
Lemma JSON_parse_stringify (gap : nat) (v : json) :
  plain v = true ->
  JSON_parse (JSON_stringify_pretty v gap ++ String (chr 10) EmptyString) = Some v.
Proof.
  intros Pv. unfold JSON_parse, JSON_stringify_pretty.
  pose proof (weight_bound gap v Pv 0) as Hw.
  rewrite (parse_value_stringify gap v Pv 0%nat _ EmptyString (chr 10) EmptyString
             eq_refl line_feed_ends_number).
  - reflexivity.
  - rewrite length_app_string. cbn [String.length]. lia.
Qed.

End JsonRoundTrip.

Section TypedRoundTrip.
Import JsString Json JsonShape Typed.

Lemma as_Category_json (c : Category.t) : as_Category (json_of_Category c) = Some c.
Proof. destruct c. reflexivity. Qed.

Lemma as_Product_json (p : Product.t) : as_Product (json_of_Product p) = Some p.
Proof.
  destruct p as [i ci n d pl iu ia [bt | ] [bv | ] c]; reflexivity.
Qed.

Lemma all_as_map {A} (f : json -> option A) (g : A -> json) (l : list A) :
  (forall x, f (g x) = Some x) -> all_as f (map g l) = Some l.
Proof.
  intros H. induction l as [ | x l IH]; [reflexivity | ].
  cbn [map all_as]. now rewrite H, IH.
Qed.

Lemma get_version (d : CatalogData) :
  get "version" (json_of_CatalogData d) = Some (JNum (version d) 0).
Proof. reflexivity. Qed.

Lemma as_CatalogData_json (d : CatalogData) :
  version d = 1 -> as_CatalogData (json_of_CatalogData d) = Some d.
Proof.
  destruct d as [v u cs ps]. cbn [version]. intros ->.
  unfold as_CatalogData.
  change (get "version" (json_of_CatalogData (mkCatalog 1 u cs ps)))
    with (Some (JNum 1 0)).
  change (get_string "updatedAt" (json_of_CatalogData (mkCatalog 1 u cs ps)))
    with (Some u).
  change (get "categories" (json_of_CatalogData (mkCatalog 1 u cs ps)))
    with (Some (JArr (map json_of_Category cs))).
  change (get "products" (json_of_CatalogData (mkCatalog 1 u cs ps)))
    with (Some (JArr (map json_of_Product ps))).
  change (num_eqb_Z 1 0 1) with true. cbv iota.
  rewrite (all_as_map as_Category json_of_Category cs as_Category_json).
  rewrite (all_as_map as_Product json_of_Product ps as_Product_json).
  reflexivity.
Qed.

Lemma plain_json_of_CatalogData (d : CatalogData) :
  plain (json_of_CatalogData d) = true.
Proof.
  destruct d as [v u cs ps]. unfold json_of_CatalogData.
  cbn [plain forallb snd version updatedAt categories products].
  rewrite Z.eqb_refl. cbn [andb].
  assert (Hc : forallb plain (map json_of_Category cs) = true).
  { induction cs as [ | c cs IH]; [reflexivity | ]. cbn [map forallb]. now rewrite IH. }
  assert (Hp : forallb plain (map json_of_Product ps) = true).
  { induction ps as [ | p ps IH]; [reflexivity | ]. cbn [map forallb]. rewrite IH.
    destruct p as [i ci n d pl iu ia [bt | ] [bv | ] c]; reflexivity. }
  now rewrite Hc, Hp.
Qed.

Lemma bad_shape_json (d : CatalogData) :
  version d = 1 -> Store.bad_shape (json_of_CatalogData d) = false.
Proof. destruct d as [v u cs ps]. cbn [version]. intros ->. reflexivity. Qed.

End TypedRoundTrip.

(** ** Identifiers are URL-safe *)

Section IdentifierShape.
Import JsString JsCase Json Buffer Mutate MutationSpec Shape Consistency.

Lemma hex_char_slug (d : Z) : 0 <= d < 16 -> is_slug_char (hex_char d) = true.
Proof.
  intros Hd. apply slug_char_code. unfold hex_char.
  destruct (Z.ltb_spec d 10); rewrite code_chr by lia; lia.
Qed.

Lemma toHex_slug (bs : list Z) :
  Forall is_byte bs -> string_forall is_slug_char (toHex bs) = true.
Proof.
  induction 1 as [ | b bs Hb _ IH]; [reflexivity | ].
  unfold is_byte in Hb. cbn [toHex string_forall].
  rewrite !hex_char_slug by (Z.div_mod_to_equations; lia). exact IH.
Qed.

Lemma next_bytes_bytes (n : nat) (w : World) : Forall is_byte (next_bytes n w).
Proof.
  unfold next_bytes. apply Forall_forall. intros b Hin.
  apply in_map_iff in Hin as (i & <- & _). unfold is_byte.
  apply Z.mod_pos_bound. lia.
Qed.

Lemma nth_byte (i : nat) (bs : list Z) : Forall is_byte bs -> is_byte (nth i bs 0).
Proof.
  intros Hbs. destruct (Nat.lt_ge_cases i (List.length bs)) as [Hlt | Hge].
  - apply (proj1 (Forall_forall _ _) Hbs). now apply nth_In.
  - rewrite nth_overflow by assumption. unfold is_byte. lia.
Qed.

Lemma lor_byte (a b : Z) : is_byte a -> is_byte b -> is_byte (Z.lor a b).
Proof.
  unfold is_byte. intros Ha Hb.
  assert (Hnn : 0 <= Z.lor a b) by (apply Z.lor_nonneg; lia).
  split; [assumption | ].
  destruct (Z.eq_dec (Z.lor a b) 0) as [E | Hne]; [lia | ].
  change 256 with (2 ^ 8). apply Z.log2_lt_pow2; [lia | ].
  rewrite Z.log2_lor by lia.
  apply Z.max_lub_lt.
  - destruct (Z.eq_dec a 0) as [-> | Hane]; [reflexivity | ].
    apply Z.log2_lt_pow2; lia.
  - destruct (Z.eq_dec b 0) as [-> | Hbne]; [reflexivity | ].
    apply Z.log2_lt_pow2; lia.
Qed.

Lemma land_byte (a mask : Z) : is_byte a -> is_byte mask -> is_byte (Z.land a mask).
Proof.
  unfold is_byte. intros Ha Hm.
  assert (Hnn : 0 <= Z.land a mask) by (apply Z.land_nonneg; lia).
  split; [assumption | ].
  destruct (Z.eq_dec (Z.land a mask) 0) as [E | Hne]; [lia | ].
  destruct (Z.eq_dec mask 0) as [-> | Hmne]; [rewrite Z.land_0_r in Hne; lia | ].
  change 256 with (2 ^ 8). apply Z.log2_lt_pow2; [lia | ].
  pose proof (Z.log2_land a mask ltac:(lia) ltac:(lia)) as Hl.
  assert (Z.log2 mask < 8) by (apply Z.log2_lt_pow2; lia). lia.
Qed.

Lemma url_safe_app (a b : string) :
  string_forall is_slug_char a = true -> url_safe b = true -> url_safe (a ++ b) = true.
Proof.
  unfold url_safe. intros Ha Hb. apply andb_true_iff in Hb as [Hne Hb].
  rewrite string_forall_app, Ha, Hb.
  destruct a; cbn [append falsy]; [now rewrite Hne | reflexivity].
Qed.

(** A version-4 UUID is made of hexadecimal digits and hyphens. *)
Lemma uuid_text_url_safe (bs : list Z) : Forall is_byte bs -> url_safe (uuid_text bs) = true.
Proof.
  intros Hbs. unfold uuid_text.
  assert (Hb : forall i, is_byte (nth i bs 0)) by (intros i; now apply nth_byte).
  assert (H15 : is_byte 15) by (unfold is_byte; lia).
  assert (H63 : is_byte 63) by (unfold is_byte; lia).
  assert (H64 : is_byte 64) by (unfold is_byte; lia).
  assert (H128 : is_byte 128) by (unfold is_byte; lia).
  assert (Hall : forall l, Forall is_byte l -> string_forall is_slug_char (toHex l) = true)
    by apply toHex_slug.
  repeat (apply url_safe_app;
          [first [apply Hall;
                  repeat (apply Forall_cons; [auto using lor_byte, land_byte | ]);
                  apply Forall_nil
                 | reflexivity] | ]).
  unfold url_safe. rewrite Hall.
  - reflexivity.
  - repeat (apply Forall_cons; [auto | ]). apply Forall_nil.
Qed.

Lemma url_safe_suffix (base : string) (bs : list Z) :
  url_safe base = true -> Forall is_byte bs ->
  url_safe (base ++ "-" ++ toHex bs) = true.
Proof.
  unfold url_safe. intros Hbase Hbs. apply andb_true_iff in Hbase as [Hne Hchars].
  rewrite !string_forall_app, Hchars, toHex_slug by assumption.
  destruct base; [discriminate | reflexivity].
Qed.

Lemma uniqueId_retry_url_safe (i : nat) (base : string) (used : list string)
    (w w' : World) (id : string) :
  url_safe base = true ->
  uniqueId_retry i base used w = (Ok id, w') -> url_safe id = true.
Proof.
  intros Hbase. revert w id. induction i as [ | i IH]; intros w id Hrun.
  - cbn [uniqueId_retry] in Hrun. rewrite randomUUID_run in Hrun.
    injection Hrun as <- _. apply uuid_text_url_safe, next_bytes_bytes.
  - cbn [uniqueId_retry] in Hrun. unfold randomBytes in Hrun. run.
    destruct (negb (JsArray.has used (base ++ "-" ++ toHex (next_bytes 2 w)))).
    + injection Hrun as <- _.
      apply (url_safe_suffix base (next_bytes 2 w) Hbase (next_bytes_bytes 2 w)).
    + exact (IH _ _ Hrun).
Qed.

Lemma uniqueId_url_safe (base : string) (used : list string) (w w' : World) (id : string) :
  url_safe base = true -> uniqueId base used w = (Ok id, w') -> url_safe id = true.
Proof.
  intros Hbase. unfold uniqueId.
  destruct (negb (JsArray.has used base)).
  - run. intros [= <- _]. exact Hbase.
  - apply uniqueId_retry_url_safe. exact Hbase.
Qed.

Lemma baseId_of_url_safe `{Host} (name : string) (w w' : World) (base : string) :
  baseId_of name w = (Ok base, w') -> url_safe base = true.
Proof.
  unfold baseId_of. destruct (falsy (slugify name)) eqn:Hf.
  - rewrite randomUUID_run. intros [= <- _]. apply uuid_text_url_safe, next_bytes_bytes.
  - run. intros [= <- _]. unfold url_safe. rewrite Hf.
    pose proof (is_slug_slugify name) as Hs. unfold is_slug in Hs.
    apply andb_true_iff in Hs as [Hs _]. apply andb_true_iff in Hs as [Hs _].
    apply andb_true_iff in Hs as [Hs _]. now rewrite Hs.
Qed.

End IdentifierShape.

(** ** Reading back what was written *)

Section ReadBack.
Import JsString JsCase Json Store Typed Mutate MutationSpec Verdicts Shape Consistency.

Lemma as_CatalogData_version (v : json) (d : CatalogData) :
  as_CatalogData v = Some d -> version d = 1.
Proof.
  unfold as_CatalogData.
  destruct (get "version" v) as [[ | | m e | | | ] | ]; try discriminate.
  destruct (get_string "updatedAt" v); try discriminate.
  destruct (get "categories" v) as [[ | | | | cs | ] | ]; try discriminate.
  destruct (get "products" v) as [[ | | | | ps | ] | ]; try discriminate.
  destruct (num_eqb_Z m e 1); try discriminate.
  destruct (all_as as_Category cs); try discriminate.
  destruct (all_as as_Product ps); try discriminate.
  intros [= <-]. reflexivity.
Qed.

Lemma read_version (w : World) (cat : CatalogData) :
  fst (readCatalogData w) = Ok cat -> version cat = 1.
Proof.
  unfold readCatalogData. run.
  destruct (readCatalog w) as [[parsed | e] w1]; cbn [fst]; [ | discriminate].
  destruct (as_CatalogData parsed) eqn:E; cbn [fst]; [ | discriminate].
  intros [= <-]. exact (as_CatalogData_version _ _ E).
Qed.

Lemma read_ok (w : World) (cat : CatalogData) :
  fst (readCatalogData w) = Ok cat -> readCatalogData w = (Ok cat, w).
Proof. intros H. rewrite (readCatalogData_eq w), H. reflexivity. Qed.

(** The document [writeCatalog] leaves is read back as the catalog
    written. *)
Lemma read_persisted (d : CatalogData) (w : World) :
  version d = 1 -> readCatalogData (persisted d w) = (Ok d, persisted d w).
Proof.
  intros Hv. unfold readCatalogData, readCatalog, fs_readFile, parse. run.
  cbn [persisted set_files catalog_json].
  rewrite (JSON_parse_stringify 2 _ (plain_json_of_CatalogData d)).
  cbv beta iota. rewrite (bad_shape_json d Hv).
  cbv beta iota. rewrite (as_CatalogData_json d Hv). reflexivity.
Qed.

Lemma read_persisted_draw (d : CatalogData) (n : nat) (w : World) :
  version d = 1 ->
  readCatalogData (persisted d (draw n w)) = (Ok d, persisted d (draw n w)).
Proof. apply read_persisted. Qed.

(** What a successful [createCategory] did. *)
Lemma createCategory_ok `{Host} (nameRaw : string) (w w' : World) (c : Category.t) :
  createCategory nameRaw w = (Ok c, w') ->
  exists cat n,
    readCatalogData w = (Ok cat, w)
    /\ w' = persisted (with_category c cat) (draw n w)
    /\ c = new_category (Category.id c) nameRaw w
    /\ admissible_category cat c.
Proof.
  intros Hrun. pose proof (createCategory_cases nameRaw w) as Hc.
  destruct (category_verdict nameRaw w) as [m | e | cat] eqn:V;
    [rewrite Hc in Hrun; discriminate | rewrite Hc in Hrun; discriminate | ].
  destruct Hc as (base & k & id & n & Hbase & Hid & Hc).
  rewrite Hc in Hrun. injection Hrun as <- <-.
  unfold category_verdict, verdict in V.
  destruct (first_violation (category_input_rules (normalizeName nameRaw))) eqn:Vin;
    [discriminate | ].
  destruct (fst (readCatalogData w)) as [cat0 | e] eqn:Hread; [ | discriminate].
  destruct (first_violation (category_catalog_rules (normalizeName nameRaw) cat0)) eqn:Vcat;
    [discriminate | ].
  injection V as ->.
  exists cat, (k + n)%nat. split; [now apply read_ok | ].
  split; [reflexivity | ]. split; [reflexivity | ].
  unfold category_input_rules in Vin. cbn [first_violation] in Vin.
  unfold category_catalog_rules in Vcat. cbn [first_violation] in Vcat.
  unfold missing, longer_than in Vin.
  destruct (Z.eqb_spec (len (normalizeName nameRaw)) 0) as [ | Hne]; [discriminate | ].
  destruct (Z.ltb_spec 60 (len (normalizeName nameRaw))) as [ | Hle]; [discriminate | ].
  destruct (name_taken (normalizeName nameRaw) cat) eqn:Ht; [discriminate | ].
  unfold admissible_category, new_category. cbn [Category.name Category.id].
  split; [apply is_normalized_normalizeName | ].
  split; [pose proof (len_nonneg (normalizeName nameRaw)); lia | ].
  split; [assumption | ].
  eapply uniqueId_url_safe; [ | exact Hid].
  eapply baseId_of_url_safe. exact Hbase.
Qed.

Lemma or_else_nonempty (a b : string) : 1 <= len b -> 1 <= len (or_else a b).
Proof.
  unfold or_else. destruct a as [ | c a]; cbn [falsy]; [tauto | ].
  intros _. apply len_pos.
Qed.

Lemma badgeText_of_nonempty (v : option string) : badgeText_of v <> Some EmptyString.
Proof.
  destruct v as [s | ]; cbn [badgeText_of]; [ | discriminate].
  destruct (trim s) eqn:E; cbn [falsy]; discriminate.
Qed.

(** What a successful [createProduct] did. *)
Lemma createProduct_ok `{Host} (i : CreateProductInput) (w w' : World) (p : Product.t) :
  createProduct i w = (Ok p, w') ->
  exists cat n,
    readCatalogData w = (Ok cat, w)
    /\ w' = persisted (with_product p cat) (draw n w)
    /\ p = new_product (Product.id p) i w
    /\ admissible_product cat p.
Proof.
  intros Hrun. pose proof (createProduct_cases i w) as Hc.
  destruct (product_verdict i w) as [m | e | cat] eqn:V;
    [rewrite Hc in Hrun; discriminate | rewrite Hc in Hrun; discriminate | ].
  destruct Hc as (base & k & id & n & Hbase & Hid & Hc).
  rewrite Hc in Hrun. injection Hrun as <- <-.
  unfold product_verdict, verdict in V.
  destruct (first_violation (product_input_rules i)) eqn:Vin; [discriminate | ].
  destruct (fst (readCatalogData w)) as [cat0 | e] eqn:Hread; [ | discriminate].
  destruct (first_violation (product_catalog_rules i cat0)) eqn:Vcat; [discriminate | ].
  injection V as ->.
  exists cat, (k + n)%nat. split; [now apply read_ok | ].
  split; [reflexivity | ]. split; [reflexivity | ].
  unfold product_catalog_rules in Vcat. cbn [first_violation] in Vcat.
  destruct (category_known (trim (categoryId i)) cat) eqn:Hknown; [ | discriminate].
  unfold product_input_rules in Vin. cbn [first_violation] in Vin.
  unfold missing, longer_than, not_a_url, not_https in Vin.
  destruct (Z.eqb_spec (len (trim (categoryId i))) 0); [discriminate | ].
  destruct (Z.eqb_spec (len (normalizeName (name i))) 0); [discriminate | ].
  destruct (Z.ltb_spec 80 (len (normalizeName (name i)))); [discriminate | ].
  destruct (Z.eqb_spec (len (trim (description i))) 0); [discriminate | ].
  destruct (Z.ltb_spec 200 (len (trim (description i)))); [discriminate | ].
  destruct (Z.eqb_spec (len (trim (priceLabel i))) 0); [discriminate | ].
  destruct (Z.ltb_spec 20 (len (trim (priceLabel i)))); [discriminate | ].
  destruct (Z.eqb_spec (len (trim (imageUrl i))) 0); [discriminate | ].
  destruct (Z.ltb_spec 2000 (len (trim (imageUrl i)))); [discriminate | ].
  destruct (URL_protocol (trim (imageUrl i))) as [protocol | ] eqn:Hurl; [ | discriminate].
  destruct (String.eqb_spec protocol "https:") as [-> | ]; [ | discriminate].
  cbn [negb] in Vin.
  destruct (variant_not_enumerated (badgeVariant i)) eqn:Hvar; [discriminate | ].
  assert (Hlen : forall s, 0 <= len s) by (intros s; apply len_nonneg).
  pose proof (Hlen (trim (categoryId i))). pose proof (Hlen (normalizeName (name i))).
  pose proof (Hlen (trim (description i))). pose proof (Hlen (trim (priceLabel i))).
  pose proof (Hlen (trim (imageUrl i))).
  unfold admissible_product, new_product.
  cbn [Product.id Product.categoryId Product.name Product.description Product.priceLabel
         Product.imageUrl Product.imageAlt Product.badgeText Product.badgeVariant].
  repeat split; try assumption; try lia.
  - apply is_normalized_normalizeName.
  - apply or_else_nonempty. lia.
  - apply badgeText_of_nonempty.
  - eapply uniqueId_url_safe; [ | exact Hid].
    eapply baseId_of_url_safe. exact Hbase.
Qed.

Lemma createCategory_throws `{Host} (nameRaw : string) (w w' : World) (e : Exn) :
  createCategory nameRaw w = (Throw e, w') -> w' = w.
Proof.
  intros Hrun. pose proof (createCategory_cases nameRaw w) as Hc.
  destruct (category_verdict nameRaw w) as [m | e0 | cat].
  - rewrite Hc in Hrun. now injection Hrun as _ <-.
  - rewrite Hc in Hrun. now injection Hrun as _ <-.
  - destruct Hc as (base & k & id & n & _ & _ & Hc). rewrite Hc in Hrun. discriminate.
Qed.

Lemma createProduct_throws `{Host} (i : CreateProductInput) (w w' : World) (e : Exn) :
  createProduct i w = (Throw e, w') -> w' = w.
Proof.
  intros Hrun. pose proof (createProduct_cases i w) as Hc.
  destruct (product_verdict i w) as [m | e0 | cat].
  - rewrite Hc in Hrun. now injection Hrun as _ <-.
  - rewrite Hc in Hrun. now injection Hrun as _ <-.
  - destruct Hc as (base & k & id & n & _ & _ & Hc). rewrite Hc in Hrun. discriminate.
Qed.

(** The two ways [deleteCategory] ends when the catalog is readable. *)
Lemma deleteCategory_run (id : string) (w : World) (cat : CatalogData) :
  readCatalogData w = (Ok cat, w) ->
  (~ In id (map Category.id (categories cat)) /\ deleteCategory id w = (Ok tt, w))
  \/ (In id (map Category.id (categories cat))
      /\ deleteCategory id w
         = (Ok tt,
            persisted (mkCatalog (version cat) (JsDate.toISOString (clock w))
                         (without_category id (categories cat))
                         (without_products_of id (products cat))) w)).
Proof.
  intros Hread. unfold deleteCategory. run. rewrite Hread.
  destruct (in_dec string_dec id (map Category.id (categories cat))) as [Hin | Hn].
  - right. split; [assumption | ].
    destruct (Nat.eqb _ _) eqn:E; [ | reflexivity].
    apply Nat.eqb_eq in E. exfalso. exact (id_present_filter Category.id id _ Hin E).
  - left. split; [assumption | ].
    rewrite (id_absent_filter Category.id id _ Hn), Nat.eqb_refl. reflexivity.
Qed.

Lemma deleteProduct_run (id : string) (w : World) (cat : CatalogData) :
  readCatalogData w = (Ok cat, w) ->
  (~ In id (map Product.id (products cat)) /\ deleteProduct id w = (Ok tt, w))
  \/ (In id (map Product.id (products cat))
      /\ deleteProduct id w
         = (Ok tt,
            persisted (mkCatalog (version cat) (JsDate.toISOString (clock w))
                         (categories cat) (without_product id (products cat))) w)).
Proof.
  intros Hread. unfold deleteProduct. run. rewrite Hread.
  destruct (in_dec string_dec id (map Product.id (products cat))) as [Hin | Hn].
  - right. split; [assumption | ].
    destruct (Nat.eqb _ _) eqn:E; [ | reflexivity].
    apply Nat.eqb_eq in E. exfalso. exact (id_present_filter Product.id id _ Hin E).
  - left. split; [assumption | ].
    rewrite (id_absent_filter Product.id id _ Hn), Nat.eqb_refl. reflexivity.
Qed.

Lemma delete_throws (w : World) (e : Exn) :
  fst (readCatalogData w) = Throw e ->
  forall id, deleteCategory id w = (Throw e, w) /\ deleteProduct id w = (Throw e, w).
Proof.
  intros Hread id. unfold deleteCategory, deleteProduct. run.
  rewrite (readCatalogData_eq w), Hread. split; reflexivity.
Qed.

Lemma filter_keeps_all {A} (f : A -> bool) (l : list A) :
  List.length (filter f l) = List.length l -> filter f l = l.
Proof.
  intros Hlen. pose proof (proj1 (filter_length_same f l) Hlen) as Hall. clear Hlen.
  induction l as [ | a l IH]; [reflexivity | ]. cbn [filter].
  rewrite (Hall a (or_introl eq_refl)). f_equal. apply IH.
  intros x Hx. apply Hall. now right.
Qed.

End ReadBack.

Section ReadBackTheorems.
Import JsString JsCase Json Store Typed Mutate MutationSpec Verdicts Shape Consistency.

(** X3: [writeCatalog] then [readCatalog] is the identity on catalogs:
    when the write has returned, no temporary file is left and the next
    read returns the catalog that was written, whatever the world was
    before. *)
Theorem written_catalog_reads_back (d : CatalogData) (w w' : World) :
  version d = 1 ->
  writeCatalogData d w = (Ok tt, w') ->
  readCatalogData w' = (Ok d, w') /\ catalog_json_tmp w' = None.
Proof.
  intros Hv Hrun. rewrite writeCatalogData_run in Hrun. injection Hrun as <-.
  split; [now apply read_persisted | reflexivity].
Qed.

Lemma written_catalog_reads_back_witness :
  readCatalogData (persisted Examples.two_teas_catalog Examples.fresh)
  = (Ok Examples.two_teas_catalog, persisted Examples.two_teas_catalog Examples.fresh)
  /\ catalog_json_tmp (persisted Examples.two_teas_catalog Examples.fresh) = None.
Proof.
  apply (written_catalog_reads_back Examples.two_teas_catalog Examples.fresh
           (persisted Examples.two_teas_catalog Examples.fresh)).
  - reflexivity.
  - vm_compute. reflexivity.
Defined.

(** X4: after a successful [createCategory] the next read returns the
    catalog that was read before with the new category appended last,
    the products untouched and [updatedAt] set to the creation time; the
    category carries the normalized name, of 1 to 60 characters and not
    the name of a stored category up to letter case, and a URL-safe
    id. *)
Theorem created_category_is_read_back `{Host}
    (nameRaw : string) (w w' : World) (c : Category.t) :
  createCategory nameRaw w = (Ok c, w') ->
  exists cat,
    readCatalogData w = (Ok cat, w)
    /\ readCatalogData w'
       = (Ok (mkCatalog 1 (JsDate.toISOString (clock w))
                (categories cat ++ [c]) (products cat)), w')
    /\ Category.name c = normalizeName nameRaw
    /\ Category.createdAt c = JsDate.toISOString (clock w)
    /\ admissible_category cat c.
Proof.
  intros Hrun.
  destruct (createCategory_ok nameRaw w w' c Hrun) as (cat & n & Hread & -> & Hc & Hadm).
  exists cat. split; [assumption | ].
  assert (Hv : version cat = 1) by (apply (read_version w); now rewrite Hread).
  assert (Hat : Category.createdAt c = JsDate.toISOString (clock w)) by now rewrite Hc.
  assert (Hname : Category.name c = normalizeName nameRaw) by now rewrite Hc.
  split; [ | auto].
  rewrite <- Hat, <- Hv. apply (read_persisted (with_category c cat)). exact Hv.
Qed.

Lemma created_category_is_read_back_witness :
  exists cat,
    readCatalogData Examples.shop = (Ok cat, Examples.shop)
    /\ readCatalogData (Examples.after (createCategory (H := Examples.sample_host) "Oolong") Examples.shop)
       = (Ok (mkCatalog 1 (JsDate.toISOString (clock Examples.shop))
                (categories cat ++ [new_category "oolong" "Oolong" Examples.shop])
                (products cat)),
          Examples.after (createCategory (H := Examples.sample_host) "Oolong") Examples.shop)
    /\ Category.name (new_category "oolong" "Oolong" Examples.shop)
       = normalizeName "Oolong"
    /\ Category.createdAt (new_category "oolong" "Oolong" Examples.shop)
       = JsDate.toISOString (clock Examples.shop)
    /\ admissible_category (H := Examples.sample_host) cat (new_category "oolong" "Oolong" Examples.shop).
Proof.
  apply (created_category_is_read_back (H := Examples.sample_host) "Oolong" Examples.shop
           (Examples.after (createCategory (H := Examples.sample_host) "Oolong") Examples.shop)
           (new_category "oolong" "Oolong" Examples.shop)).
  vm_compute. reflexivity.
Defined.

(** X5: after a successful [createProduct] the next read returns the
    catalog that was read before with the new product appended last and
    the categories untouched; the product holds the trimmed fields of
    the input, refers to a stored category, has an https image URL, a
    non-empty alternative text, no empty badge text, every field within
    its limit and a URL-safe id. *)
Theorem created_product_is_read_back `{Host}
    (i : CreateProductInput) (w w' : World) (p : Product.t) :
  createProduct i w = (Ok p, w') ->
  exists cat,
    readCatalogData w = (Ok cat, w)
    /\ readCatalogData w'
       = (Ok (mkCatalog 1 (JsDate.toISOString (clock w))
                (categories cat) (products cat ++ [p])), w')
    /\ p = new_product (Product.id p) i w
    /\ admissible_product cat p.
Proof.
  intros Hrun.
  destruct (createProduct_ok i w w' p Hrun) as (cat & n & Hread & -> & Hp & Hadm).
  exists cat. split; [assumption | ].
  assert (Hv : version cat = 1) by (apply (read_version w); now rewrite Hread).
  assert (Hat : Product.createdAt p = JsDate.toISOString (clock w)) by now rewrite Hp.
  split; [ | auto].
  rewrite <- Hat, <- Hv. apply (read_persisted (with_product p cat)). exact Hv.
Qed.

Lemma created_product_is_read_back_witness :
  exists cat,
    readCatalogData Examples.shop = (Ok cat, Examples.shop)
    /\ readCatalogData Examples.stocked
       = (Ok (mkCatalog 1 (JsDate.toISOString (clock Examples.shop))
                (categories cat) (products cat ++ [Examples.sencha])), Examples.stocked)
    /\ Examples.sencha
       = new_product (Product.id Examples.sencha)
           (Examples.tea_input "Sencha" "https://example.com/a.png") Examples.shop
    /\ admissible_product (H := Examples.sample_host) cat Examples.sencha.
Proof.
  apply (created_product_is_read_back (H := Examples.sample_host)
           (Examples.tea_input "Sencha" "https://example.com/a.png")
           Examples.shop Examples.stocked Examples.sencha).
  vm_compute. reflexivity.
Defined.

(** X6: once [createCategory] has returned, a second call with a name
    that normalizes to the same name up to letter case fails and leaves
    the world as it is: with the conflict error when the normalized name
    has 1 to 60 characters, with the error of the violated length rule
    otherwise. *)
Theorem repeated_name_conflicts `{Host}
    (nameRaw again : string) (w w' : World) (c : Category.t) :
  createCategory nameRaw w = (Ok c, w') ->
  toLowerCase (normalizeName again) = toLowerCase (normalizeName nameRaw) ->
  createCategory again w'
  = (Throw (Error (if missing (normalizeName again)
                   then "Category name is required."
                   else if longer_than 60 (normalizeName again)
                        then "Category name is too long (max 60 chars)."
                        else "Category already exists.")), w')
  /\ (1 <= len (normalizeName again) <= 60 ->
      createCategory again w' = (Throw ConflictError, w')).
Proof.
  intros Hrun Hsame.
  destruct (createCategory_ok nameRaw w w' c Hrun)
    as (cat & n & Hread & -> & Hc & _).
  assert (Hv : version (with_category c cat) = 1)
    by (change (version cat = 1); apply (read_version w); now rewrite Hread).
  pose proof (read_persisted (with_category c cat) (draw n w) Hv) as Hread'.
  assert (Hname : Category.name c = normalizeName nameRaw) by now rewrite Hc.
  assert (Hthrow := taken_name_rejected _ (with_category c cat) again c Hread').
  rewrite Hname in Hthrow.
  assert (Hin : In c (categories (with_category c cat))).
  { cbn [with_category categories]. apply in_or_app. right. now left. }
  specialize (Hthrow Hin (eq_sym Hsame)).
  split; [exact Hthrow | ].
  intros Hlen. rewrite Hthrow. unfold missing, longer_than.
  destruct (Z.eqb_spec (len (normalizeName again)) 0) as [E | _]; [lia | ].
  destruct (Z.ltb_spec 60 (len (normalizeName again))) as [E | _]; [lia | ].
  reflexivity.
Qed.

Lemma repeated_name_conflicts_witness :
  createCategory (H := Examples.sample_host) "  green   TEA " Examples.shop
  = (Throw ConflictError, Examples.shop).
Proof.
  refine (proj2 (repeated_name_conflicts (H := Examples.sample_host)
                   "Green Tea" "  green   TEA " Examples.fresh Examples.shop
                   Examples.green_tea _ _) _).
  - vm_compute. reflexivity.
  - vm_compute. reflexivity.
  - vm_compute. split; discriminate.
Defined.

(** X7: once [deleteCategory] has returned, the next read shows no
    category with that id and, when a category had it, no product
    referring to it; every other category and product is still there.
    When no category had the id nothing was written. *)
Theorem deleted_category_is_gone (id : string) (w w' : World) :
  deleteCategory id w = (Ok tt, w') ->
  exists cat cat',
    readCatalogData w = (Ok cat, w)
    /\ readCatalogData w' = (Ok cat', w')
    /\ (forall c, In c (categories cat') <-> In c (categories cat) /\ Category.id c <> id)
    /\ (In id (map Category.id (categories cat)) ->
        forall p, In p (products cat')
                  <-> In p (products cat) /\ Product.categoryId p <> id)
    /\ (~ In id (map Category.id (categories cat)) -> w' = w /\ cat' = cat).
Proof.
  intros Hrun.
  destruct (fst (readCatalogData w)) as [cat | e] eqn:Hread.
  2:{ destruct (delete_throws w e Hread id) as [Hd _]. rewrite Hd in Hrun. discriminate. }
  apply read_ok in Hread.
  assert (Hv : version cat = 1) by (apply (read_version w); now rewrite Hread).
  destruct (deleteCategory_run id w cat Hread) as [[Hn Hd] | [Hin Hd]];
    rewrite Hd in Hrun; injection Hrun as <-.
  - exists cat, cat. split; [assumption | ]. split; [assumption | ].
    split; [ | split].
    + intros c. split; [ | tauto].
      intros Hc. split; [assumption | ].
      intros E. apply Hn. apply in_map_iff. exists c. split; assumption.
    + intros Hin. contradiction.
    + intros _. split; reflexivity.
  - eexists cat, _. split; [assumption | ]. split; [apply read_persisted; exact Hv | ].
    cbn [categories products]. split; [ | split].
    + intros c. apply (in_without Category.id id (categories cat) c).
    + intros _ p. apply (in_without Product.categoryId id (products cat) p).
    + intros Hn. contradiction.
Qed.

Lemma deleted_category_is_gone_witness :
  exists cat cat',
    readCatalogData Examples.stocked = (Ok cat, Examples.stocked)
    /\ readCatalogData (Examples.after (deleteCategory "green-tea") Examples.stocked)
       = (Ok cat', Examples.after (deleteCategory "green-tea") Examples.stocked)
    /\ (forall c, In c (categories cat')
                  <-> In c (categories cat) /\ Category.id c <> "green-tea")
    /\ (In "green-tea" (map Category.id (categories cat)) ->
        forall p, In p (products cat')
                  <-> In p (products cat) /\ Product.categoryId p <> "green-tea")
    /\ (~ In "green-tea" (map Category.id (categories cat)) ->
        Examples.after (deleteCategory "green-tea") Examples.stocked = Examples.stocked
        /\ cat' = cat).
Proof.
  apply (deleted_category_is_gone "green-tea" Examples.stocked
           (Examples.after (deleteCategory "green-tea") Examples.stocked)).
  vm_compute. reflexivity.
Defined.

(** X8: once [deleteProduct] has returned, the next read shows no
    product with that id, every other product in its place, and the
    categories as they were; when no product had the id nothing was
    written. *)
Theorem deleted_product_is_gone (id : string) (w w' : World) :
  deleteProduct id w = (Ok tt, w') ->
  exists cat cat',
    readCatalogData w = (Ok cat, w)
    /\ readCatalogData w' = (Ok cat', w')
    /\ products cat' = without_product id (products cat)
    /\ (forall p, In p (products cat') <-> In p (products cat) /\ Product.id p <> id)
    /\ categories cat' = categories cat
    /\ (~ In id (map Product.id (products cat)) -> w' = w /\ cat' = cat).
Proof.
  intros Hrun.
  destruct (fst (readCatalogData w)) as [cat | e] eqn:Hread.
  2:{ destruct (delete_throws w e Hread id) as [_ Hd]. rewrite Hd in Hrun. discriminate. }
  apply read_ok in Hread.
  assert (Hv : version cat = 1) by (apply (read_version w); now rewrite Hread).
  destruct (deleteProduct_run id w cat Hread) as [[Hn Hd] | [Hin Hd]];
    rewrite Hd in Hrun; injection Hrun as <-.
  - exists cat, cat. split; [assumption | ]. split; [assumption | ].
    assert (Hsame : without_product id (products cat) = products cat).
    { apply filter_keeps_all, (id_absent_filter Product.id id _ Hn). }
    split; [now rewrite Hsame | ]. split.
    + intros p. rewrite <- Hsame at 1.
      apply (in_without Product.id id (products cat) p).
    + split; [reflexivity | tauto].
  - eexists cat, _. split; [assumption | ]. split; [apply read_persisted; exact Hv | ].
    cbn [categories products]. split; [reflexivity | ]. split; [ | split].
    + intros p. apply (in_without Product.id id (products cat) p).
    + reflexivity.
    + intros Hn. contradiction.
Qed.

Lemma deleted_product_is_gone_witness :
  exists cat cat',
    readCatalogData Examples.two_teas = (Ok cat, Examples.two_teas)
    /\ readCatalogData (Examples.after (deleteProduct "sencha") Examples.two_teas)
       = (Ok cat', Examples.after (deleteProduct "sencha") Examples.two_teas)
    /\ products cat' = without_product "sencha" (products cat)
    /\ (forall p, In p (products cat') <-> In p (products cat) /\ Product.id p <> "sencha")
    /\ categories cat' = categories cat
    /\ (~ In "sencha" (map Product.id (products cat)) ->
        Examples.after (deleteProduct "sencha") Examples.two_teas = Examples.two_teas
        /\ cat' = cat).
Proof.
  apply (deleted_product_is_gone "sencha" Examples.two_teas
           (Examples.after (deleteProduct "sencha") Examples.two_teas)).
  vm_compute. reflexivity.
Defined.

End ReadBackTheorems.

(** ** What every sequence of calls keeps *)

Section Invariants.
Import JsString JsCase Json Store Typed Mutate MutationSpec Verdicts Shape Consistency.

Lemma as_default (nowIso : string) :
  as_CatalogData (defaultCatalog nowIso) = Some (mkCatalog 1 nowIso [] []).
Proof. reflexivity. Qed.

(** A read depends on the clock only through the [updatedAt] of the
    empty catalog it makes up. *)
Lemma read_same_file (w w' : World) (cat : CatalogData) :
  catalog_json w' = catalog_json w ->
  fst (readCatalogData w) = Ok cat ->
  exists cat',
    fst (readCatalogData w') = Ok cat'
    /\ categories cat' = categories cat /\ products cat' = products cat.
Proof.
  intros Hfile. unfold readCatalogData, readCatalog, fs_readFile, parse. run.
  rewrite Hfile.
  destruct (catalog_json w) as [ | errno | raw]; cbv beta iota.
  - cbn [code_of]. change (String.eqb "ENOENT" "ENOENT") with true. cbv beta iota.
    rewrite !as_default. cbn [fst]. intros [= <-]. eexists. split; [reflexivity | ].
    split; reflexivity.
  - cbn [code_of]. destruct (String.eqb errno "ENOENT"); cbv beta iota.
    + rewrite !as_default. cbn [fst]. intros [= <-]. eexists. split; [reflexivity | ].
      split; reflexivity.
    + cbn [fst]. discriminate.
  - destruct (JSON_parse raw) as [parsed | ]; cbv beta iota.
    + destruct (bad_shape parsed); cbv beta iota.
      * rewrite !as_default. cbn [fst]. intros [= <-]. eexists.
        split; [reflexivity | ]. split; reflexivity.
      * destruct (as_CatalogData parsed) as [d | ]; cbn [fst]; [ | discriminate].
        intros [= <-]. exists d. repeat split; reflexivity.
    + cbn [code_of fst]. discriminate.
Qed.

Lemma stored_persisted (P : list Category.t -> list Product.t -> Prop)
    (d : CatalogData) (w : World) :
  version d = 1 -> P (categories d) (products d) -> stored P (persisted d w).
Proof.
  intros Hv HP. exists d. rewrite (read_persisted d w Hv). split; [reflexivity | exact HP].
Qed.

(** A property of the stored categories and products that the four
    updates keep holds after every sequence of calls. *)
Lemma stored_invariant `{Host} (P : list Category.t -> list Product.t -> Prop) :
  (forall cat c, P (categories cat) (products cat) -> admissible_category cat c ->
                 P (categories cat ++ [c])%list (products cat)) ->
  (forall cat p, P (categories cat) (products cat) -> admissible_product cat p ->
                 P (categories cat) (products cat ++ [p])%list) ->
  (forall cs ps id, P cs ps -> P (without_category id cs) (without_products_of id ps)) ->
  (forall cs ps id, P cs ps -> P cs (without_product id ps)) ->
  forall w0 w, reachable w0 w -> stored P w0 -> stored P w.
Proof.
  intros Hcat Hprod Hdelc Hdelp w0 w Hreach Hstart.
  induction Hreach as [ | w call _ IH | w w' _ IH Hfile]; [exact Hstart | | ].
  - destruct IH as (cat & Hread & HP).
    assert (Hv : version cat = 1) by exact (read_version w cat Hread).
    assert (Hsame : stored P w) by (exists cat; split; assumption).
    apply read_ok in Hread.
    destruct call as [nameRaw | id | input | id]; cbn [perform].
    + destruct (createCategory nameRaw w) as [[c | e] w1] eqn:Hrun; cbn [snd].
      * destruct (createCategory_ok nameRaw w w1 c Hrun)
          as (cat0 & n & Hread0 & -> & _ & Hadm).
        rewrite Hread in Hread0. injection Hread0 as <-.
        apply stored_persisted; [exact Hv | ].
        cbn [with_category categories products]. now apply Hcat.
      * now rewrite (createCategory_throws nameRaw w w1 e Hrun).
    + destruct (deleteCategory_run id w cat Hread) as [[_ Hd] | [_ Hd]];
        rewrite Hd; cbn [snd]; [exact Hsame | ].
      apply stored_persisted; [exact Hv | ]. cbn [categories products]. now apply Hdelc.
    + destruct (createProduct input w) as [[p | e] w1] eqn:Hrun; cbn [snd].
      * destruct (createProduct_ok input w w1 p Hrun)
          as (cat0 & n & Hread0 & -> & _ & Hadm).
        rewrite Hread in Hread0. injection Hread0 as <-.
        apply stored_persisted; [exact Hv | ].
        cbn [with_product categories products]. now apply Hprod.
      * now rewrite (createProduct_throws input w w1 e Hrun).
    + destruct (deleteProduct_run id w cat Hread) as [[_ Hd] | [_ Hd]];
        rewrite Hd; cbn [snd]; [exact Hsame | ].
      apply stored_persisted; [exact Hv | ]. cbn [categories products]. now apply Hdelp.
  - destruct IH as (cat & Hread & HP).
    destruct (read_same_file w w' cat Hfile Hread) as (cat' & Hread' & Hc & Hp).
    exists cat'. split; [assumption | ]. now rewrite Hc, Hp.
Qed.

Lemma known_in_ids (id : string) (cat : CatalogData) :
  category_known id cat = true -> In id (map Category.id (categories cat)).
Proof.
  unfold category_known. intros Hk. apply existsb_exists in Hk as (c & Hin & E).
  apply String.eqb_eq in E. subst id. now apply in_map.
Qed.

Lemma not_taken `{Host} (name : string) (cat : CatalogData) :
  name_taken name cat = false ->
  ~ In (toLowerCase name)
       (map (fun c => toLowerCase (Category.name c)) (categories cat)).
Proof.
  unfold name_taken, same_name. intros Hn Hin.
  apply in_map_iff in Hin as (c & E & Hin).
  assert (Ht : existsb (fun c => String.eqb (toLowerCase (Category.name c))
                                   (toLowerCase name)) (categories cat) = true).
  { apply existsb_exists. exists c. split; [assumption | ]. rewrite E.
    apply String.eqb_refl. }
  rewrite Ht in Hn. discriminate.
Qed.

Lemma Forall_snoc {A} (P : A -> Prop) (l : list A) (x : A) :
  Forall P l -> P x -> Forall P (l ++ [x]).
Proof. intros Hl Hx. apply Forall_app. split; [assumption | now constructor]. Qed.

Lemma Forall_filter {A} (P : A -> Prop) (f : A -> bool) (l : list A) :
  Forall P l -> Forall P (filter f l).
Proof.
  intros Hl. apply Forall_forall. intros x Hx. apply filter_In in Hx as [Hx _].
  exact (proj1 (Forall_forall P l) Hl x Hx).
Qed.

End Invariants.

Section InvariantTheorems.
Import JsString JsCase Json Store Typed Mutate MutationSpec Verdicts Shape Consistency.

(** X9: referential integrity is kept.  If every product of the stored
    catalog refers to a stored category, it is so after every sequence
    of calls to the four mutations, returning or throwing, whatever the
    clock, the entropy, the environment and the cookies do in between,
    and the catalog stays readable. *)
Theorem references_always_resolve `{Host} (w0 w : World) :
  reachable w0 w -> stored references_resolve w0 -> stored references_resolve w.
Proof.
  apply (stored_invariant references_resolve); unfold references_resolve.
  - intros cat c HP _ p Hin. rewrite map_app. apply in_or_app. left. now apply HP.
  - intros cat p HP (Hknown & _) q Hin. apply in_app_or in Hin as [Hin | [<- | []]].
    + now apply HP.
    + now apply known_in_ids.
  - intros cs ps id HP p Hin.
    apply (in_without Product.categoryId id ps p) in Hin as [Hin Hne].
    specialize (HP p Hin). apply in_map_iff in HP as (c & E & Hc).
    apply in_map_iff. exists c. split; [assumption | ].
    apply (in_without Category.id id cs c). split; [assumption | congruence].
  - intros cs ps id HP p Hin.
    apply (in_without Product.id id ps p) in Hin as [Hin _]. now apply HP.
Qed.

Lemma references_always_resolve_witness :
  stored references_resolve
    (perform (H := Examples.sample_host)
       (CreateProduct (Examples.tea_input "Sencha" "https://example.com/a.png"))
       (perform (H := Examples.sample_host) (CreateCategory "Green Tea") Examples.fresh)).
Proof.
  refine (references_always_resolve (H := Examples.sample_host) Examples.fresh _
            (reach_call _ _ _ (reach_call _ _ _ (reach_start _))) _).
  exists (mkCatalog 1 "2025-12-01T00:00:00.000Z" [] []).
  split; [vm_compute; reflexivity | intros p []].
Defined.

(** X10: category names stay distinct.  If no two stored categories
    have the same name up to letter case, it is so after every sequence
    of calls. *)
Theorem category_names_stay_distinct `{Host} (w0 w : World) :
  reachable w0 w -> stored names_distinct w0 -> stored names_distinct w.
Proof.
  apply (stored_invariant names_distinct); unfold names_distinct.
  - intros cat c HP (_ & _ & Hfree & _). rewrite map_app. cbn [map].
    apply NoDup_snoc; [assumption | now apply not_taken].
  - intros cat p HP _. exact HP.
  - intros cs ps id HP.
    apply (NoDup_map_filter (fun c => toLowerCase (Category.name c))). exact HP.
  - intros cs ps id HP. exact HP.
Qed.

Lemma category_names_stay_distinct_witness :
  stored (names_distinct (H := Examples.sample_host))
    (perform (H := Examples.sample_host) (CreateCategory "Oolong?")
       (perform (H := Examples.sample_host) (CreateCategory "Oolong") Examples.fresh)).
Proof.
  refine (category_names_stay_distinct (H := Examples.sample_host) Examples.fresh _
            (reach_call _ _ _ (reach_call _ _ _ (reach_start _))) _).
  exists (mkCatalog 1 "2025-12-01T00:00:00.000Z" [] []).
  split; [vm_compute; reflexivity | constructor].
Defined.

(** X11: identifiers stay URL-safe.  If every stored id is a non-empty
    text of [a-z], [0-9] and hyphens, it is so after every sequence of
    calls: a new id is a slug, a slug with a hexadecimal suffix, or a
    UUID. *)
Theorem stored_ids_stay_url_safe `{Host} (w0 w : World) :
  reachable w0 w -> stored ids_url_safe w0 -> stored ids_url_safe w.
Proof.
  apply (stored_invariant ids_url_safe); unfold ids_url_safe.
  - intros cat c [Hc Hp] (_ & _ & _ & Hid). split; [ | assumption].
    now apply Forall_snoc.
  - intros cat p [Hc Hp] Hadm. split; [assumption | ].
    apply Forall_snoc; [assumption | ]. apply Hadm.
  - intros cs ps id [Hc Hp]. split; now apply Forall_filter.
  - intros cs ps id [Hc Hp]. split; [assumption | now apply Forall_filter].
Qed.

Lemma stored_ids_stay_url_safe_witness :
  stored ids_url_safe
    (perform (H := Examples.sample_host) (CreateCategory "!!!")
       (perform (H := Examples.sample_host) (DeleteCategory "oolong")
          (perform (H := Examples.sample_host) (CreateCategory "Oolong") Examples.fresh))).
Proof.
  refine (stored_ids_stay_url_safe (H := Examples.sample_host) Examples.fresh _
            (reach_call _ _ _ (reach_call _ _ _ (reach_call _ _ _ (reach_start _)))) _).
  exists (mkCatalog 1 "2025-12-01T00:00:00.000Z" [] []).
  split; [vm_compute; reflexivity | split; constructor].
Defined.

(** X12: stored records stay within the limits.  If every stored
    category has a normalized name of 1 to 60 characters and every
    stored product has its fields within the limits of [createProduct],
    an https image URL, a non-empty alternative text, no empty badge
    text and an enumerated badge variant, it is so after every sequence
    of calls. *)
Theorem stored_records_stay_within_limits `{Host} (w0 w : World) :
  reachable w0 w -> stored within_limits w0 -> stored within_limits w.
Proof.
  apply (stored_invariant within_limits); unfold within_limits.
  - intros cat c [Hc Hp] (Hnorm & Hlen & _). split; [ | assumption].
    apply Forall_snoc; [assumption | now split].
  - intros cat p [Hc Hp] (_ & Hn & Hl1 & Hl2 & Hl3 & Hl4 & Hu & Ha & Hb & Hv & _).
    split; [assumption | ]. apply Forall_snoc; [assumption | ].
    repeat (split; [assumption | ]). assumption.
  - intros cs ps id [Hc Hp]. split; now apply Forall_filter.
  - intros cs ps id [Hc Hp]. split; [assumption | now apply Forall_filter].
Qed.

Lemma stored_records_stay_within_limits_witness :
  stored (within_limits (H := Examples.sample_host))
    (perform (H := Examples.sample_host) (DeleteProduct "sencha")
       (perform (H := Examples.sample_host)
          (CreateProduct (Examples.tea_input "Sencha" "https://example.com/a.png"))
          (perform (H := Examples.sample_host) (CreateCategory "Green Tea")
             Examples.fresh))).
Proof.
  refine (stored_records_stay_within_limits (H := Examples.sample_host) Examples.fresh _
            (reach_call _ _ _ (reach_call _ _ _ (reach_call _ _ _ (reach_start _)))) _).
  exists (mkCatalog 1 "2025-12-01T00:00:00.000Z" [] []).
  split; [vm_compute; reflexivity | split; constructor].
Defined.

End InvariantTheorems.

(** ** Password check and logout *)

Section LoginTheorems.
Import JsString Json Buffer Auth AuthSpec Login.

Lemma find_filter_other (name other : string) (l : list (string * Cookie)) :
  name <> other ->
  find (fun kv => String.eqb (fst kv) name)
    (filter (fun kv => negb (String.eqb (fst kv) other)) l)
  = find (fun kv => String.eqb (fst kv) name) l.
Proof.
  intros Hne. induction l as [ | [k c] l IH]; [reflexivity | ].
  cbn [filter find fst].
  destruct (String.eqb_spec k other) as [-> | Hk]; cbn [negb].
  - destruct (String.eqb_spec other name) as [E | _]; [congruence | exact IH].
  - cbn [find fst]. destruct (String.eqb k name); [reflexivity | exact IH].
Qed.

(** The three ways [verifyBackofficePassword] ends. *)
Lemma verifyBackofficePassword_cases (w : World) (candidate : string) :
  snd (verifyBackofficePassword candidate w) = w
  /\ (forall expected,
        process_env w "BACKOFFICE_PASSWORD" = Some expected ->
        expected <> EmptyString ->
        (sha256 candidate = sha256 expected ->
         verifyBackofficePassword candidate w = (Ok true, w))
        /\ (sha256 candidate <> sha256 expected ->
            verifyBackofficePassword candidate w = (Ok false, w)))
  /\ (unset "BACKOFFICE_PASSWORD" w ->
        verifyBackofficePassword candidate w
        = (Throw (Error "Missing required env var: BACKOFFICE_PASSWORD"), w)).
Proof.
  unfold verifyBackofficePassword, requiredEnv, unset. run.
  split; [ | split].
  - destruct (process_env w "BACKOFFICE_PASSWORD") as [v | ]; [ | reflexivity].
    destruct (falsy v); reflexivity.
  - intros expected Henv Hne. rewrite Henv.
    destruct expected as [ | c0 r0]; [congruence | ]. cbn [falsy].
    split.
    + intros E. now rewrite (proj2 (timingSafeEqual_eq _ _) E).
    + intros Hd. destruct (timingSafeEqual _ _) eqn:Et; [ | reflexivity].
      exfalso. apply Hd. now apply timingSafeEqual_eq.
  - intros [Henv | Henv]; rewrite Henv; reflexivity.
Qed.

(** What [clearBackofficeSessionCookie] leaves. *)
Lemma cleared_session_run (w : World) :
  exists w',
    clearBackofficeSessionCookie w = (Ok tt, w')
    /\ isBackofficeAuthed w' = (Ok false, w')
    /\ catalog_json w' = catalog_json w.
Proof.
  unfold clearBackofficeSessionCookie, is_production, cookies_set. run.
  eexists. split; [reflexivity | ]. split; [ | reflexivity].
  unfold isBackofficeAuthed, cookies_get, cookie_of. run.
  cbn [cookie_store find fst]. rewrite String.eqb_refl. reflexivity.
Qed.

(** X13: [verifyBackofficePassword] never changes the state.  With
    [BACKOFFICE_PASSWORD] set to a non-empty text it accepts that text,
    and it accepts a candidate exactly when the candidate has the same
    SHA-256 digest; with the variable unset or empty it raises the
    missing-variable error for every candidate instead of answering
    [false]. *)
Theorem verifyBackofficePassword_spec (w : World) (candidate : string) :
  snd (verifyBackofficePassword candidate w) = w
  /\ (forall expected,
        process_env w "BACKOFFICE_PASSWORD" = Some expected ->
        expected <> EmptyString ->
        verifyBackofficePassword expected w = (Ok true, w)
        /\ (verifyBackofficePassword candidate w = (Ok true, w)
            <-> sha256 candidate = sha256 expected)
        /\ (verifyBackofficePassword candidate w = (Ok false, w)
            <-> sha256 candidate <> sha256 expected))
  /\ (unset "BACKOFFICE_PASSWORD" w ->
        verifyBackofficePassword candidate w
        = (Throw (Error "Missing required env var: BACKOFFICE_PASSWORD"), w)).
Proof.
  unfold verifyBackofficePassword, requiredEnv, unset. run.
  split; [ | split].
  - destruct (process_env w "BACKOFFICE_PASSWORD") as [v | ]; [ | reflexivity].
    destruct (falsy v); reflexivity.
  - intros expected Henv Hne. rewrite Henv.
    destruct expected as [ | c0 r0]; [congruence | ]. cbn [falsy].
    split; [ | split].
    + now rewrite (proj2 (timingSafeEqual_eq _ _) eq_refl).
    + split.
      * intros [= Ht]. now apply timingSafeEqual_eq.
      * intros E. now rewrite (proj2 (timingSafeEqual_eq _ _) E).
    + split.
      * intros [= Ht] E. rewrite (proj2 (timingSafeEqual_eq _ _) E) in Ht. discriminate.
      * intros Hd. destruct (timingSafeEqual _ _) eqn:Et; [ | reflexivity].
        exfalso. apply Hd. now apply timingSafeEqual_eq.
  - intros [Henv | Henv]; rewrite Henv; reflexivity.
Qed.

(** X14: logging out ends the session.  [clearBackofficeSessionCookie]
    always returns; afterwards [isBackofficeAuthed] answers [false]
    without raising, whether or not a secret is configured; the other
    cookies and the catalog file are untouched. *)
Theorem cleared_session_is_refused (w : World) :
  exists w',
    clearBackofficeSessionCookie w = (Ok tt, w')
    /\ isBackofficeAuthed w' = (Ok false, w')
    /\ cookie_of COOKIE_NAME w' = Some EmptyString
    /\ (forall name, name <> COOKIE_NAME -> cookie_of name w' = cookie_of name w)
    /\ catalog_json w' = catalog_json w
    /\ process_env w' = process_env w.
Proof.
  unfold clearBackofficeSessionCookie, is_production, cookies_set. run.
  eexists. split; [reflexivity | ].
  assert (Hc : forall c rest,
             find (fun kv : string * Cookie => String.eqb (fst kv) COOKIE_NAME)
               ((COOKIE_NAME, c) :: rest) = Some (COOKIE_NAME, c)).
  { intros c rest. cbn [find fst]. now rewrite String.eqb_refl. }
  split; [ | split; [ | split; [ | split]]].
  - unfold isBackofficeAuthed, cookies_get, cookie_of. run.
    cbn [cookie_store]. rewrite Hc. reflexivity.
  - unfold cookie_of. cbn [cookie_store]. rewrite Hc. reflexivity.
  - intros name Hne. unfold cookie_of. cbn [cookie_store find fst].
    destruct (String.eqb_spec COOKIE_NAME name) as [E | _]; [congruence | ].
    now rewrite find_filter_other.
  - reflexivity.
  - reflexivity.
Qed.

(** X15: the session payload round trip.  For every integer expiry,
    [decodePayload] reads back what [encodePayload] wrote; the encoded
    payload contains no dot, so that the cookie value splits into exactly
    the payload and the signature. *)
Theorem payload_round_trip (secret : string) (exp : Z) :
  decodePayload (encodePayload exp) = Some (mkPayload exp 0)
  /\ string_forall not_dot (encodePayload exp) = true
  /\ split "." (token secret exp)
     = [encodePayload exp;
        toBase64Url (Crypto.hmac_sha256 (fromUtf8 secret) (fromUtf8 (encodePayload exp)))].
Proof.
  split; [apply decode_encode | ].
  split; [apply encodePayload_no_dot | apply token_parts].
Qed.

End LoginTheorems.

(** ** The server actions *)

Section ActionFacts.
Import JsString JsCase Json Buffer Auth AuthSpec Login Mutate Actions.

Lemma isBackofficeAuthed_world (w : World) : snd (isBackofficeAuthed w) = w.
Proof.
  unfold isBackofficeAuthed, cookies_get, sign. run.
  destruct (cookie_of COOKIE_NAME w) as [value | ]; [ | reflexivity].
  destruct (falsy value); [reflexivity | ].
  destruct (split "." value) as [ | data [ | sigB64 [ | x l]]]; try reflexivity.
  pose proof (sessionSecret_world w) as Hw.
  destruct (sessionSecret w) as [[secret | e] w1]; cbn [snd] in Hw; subst w1;
    [ | reflexivity].
  destruct (negb (timingSafeEqual _ _)); [reflexivity | ].
  destruct (decodePayload data) as [payload | ]; [ | reflexivity].
  destruct (num_leb_Z _ _ _); reflexivity.
Qed.

Lemma isBackofficeAuthed_eq (w : World) :
  isBackofficeAuthed w = (fst (isBackofficeAuthed w), w).
Proof.
  rewrite <- (isBackofficeAuthed_world w) at 3. apply surjective_pairing.
Qed.

Lemma server_eta (s : Server) : mkServer (world s) (revalidated s) = s.
Proof. now destruct s. Qed.

Lemma requireAuth_passes (s : Server) :
  fst (isBackofficeAuthed (world s)) = Ok true -> requireAuth s = (Next tt, s).
Proof.
  intros Ha. unfold requireAuth, and_then, await.
  rewrite (isBackofficeAuthed_eq (world s)), Ha, server_eta. reflexivity.
Qed.

Lemma requireAuth_refuses (s : Server) :
  fst (isBackofficeAuthed (world s)) = Ok false ->
  requireAuth s = (Stop (Redirect "/backoffice?error=auth-required"), s).
Proof.
  intros Ha. unfold requireAuth, and_then, await.
  rewrite (isBackofficeAuthed_eq (world s)), Ha, server_eta. reflexivity.
Qed.

Lemma requireAuth_raises (s : Server) (e : Exn) :
  fst (isBackofficeAuthed (world s)) = Throw e ->
  requireAuth s = (Stop (Raised e), s).
Proof.
  intros Ha. unfold requireAuth, and_then, await.
  rewrite (isBackofficeAuthed_eq (world s)), Ha, server_eta. reflexivity.
Qed.

(** Whoever is not authenticated is stopped by [requireAuth], the
    state untouched. *)
Lemma requireAuth_stops (s : Server) :
  fst (isBackofficeAuthed (world s)) <> Ok true ->
  exists t,
    requireAuth s = (Stop t, s)
    /\ (t = Redirect "/backoffice?error=auth-required"
        \/ exists e, t = Raised e /\ fst (isBackofficeAuthed (world s)) = Throw e).
Proof.
  intros Hn. destruct (fst (isBackofficeAuthed (world s))) as [[ | ] | e] eqn:Ha.
  - congruence.
  - exists (Redirect "/backoffice?error=auth-required").
    split; [exact (requireAuth_refuses s Ha) | now left].
  - exists (Raised e). split; [exact (requireAuth_raises s e Ha) | ].
    right. exists e. split; reflexivity.
Qed.

Lemma sessionSecret_eq (w : World) : sessionSecret w = (fst (sessionSecret w), w).
Proof. rewrite <- (sessionSecret_world w) at 3. apply surjective_pairing. Qed.

(** With the password configured there is a signing secret. *)
Lemma sessionSecret_configured (w : World) (expected : string) :
  process_env w "BACKOFFICE_PASSWORD" = Some expected -> expected <> EmptyString ->
  exists secret, sessionSecret w = (Ok secret, w).
Proof.
  intros Henv Hne. unfold sessionSecret, requiredEnv.
  destruct (process_env w "BACKOFFICE_SESSION_SECRET") as [v | ];
    [exists v; reflexivity | ].
  rewrite Henv. destruct expected as [ | c0 r0]; [congruence | ].
  exists (String c0 r0). reflexivity.
Qed.

Lemma sessionSecret_env (w w' : World) :
  process_env w' = process_env w -> fst (sessionSecret w') = fst (sessionSecret w).
Proof.
  intros Henv. unfold sessionSecret, requiredEnv. rewrite Henv.
  destruct (process_env w "BACKOFFICE_SESSION_SECRET"); [reflexivity | ].
  destruct (process_env w "BACKOFFICE_PASSWORD") as [v | ]; [ | reflexivity].
  destruct (falsy v); reflexivity.
Qed.

(** What [setBackofficeSessionCookie] does once the secret is known. *)
Lemma setBackofficeSessionCookie_run (w : World) (secret : string) :
  sessionSecret w = (Ok secret, w) ->
  exists w',
    setBackofficeSessionCookie w = (Ok tt, w')
    /\ cookie_of COOKIE_NAME w' = Some (issued_value secret (clock w))
    /\ clock w' = clock w /\ process_env w' = process_env w
    /\ catalog_json w' = catalog_json w.
Proof.
  intros Hsecret. unfold setBackofficeSessionCookie, sign, is_production, cookies_set. run.
  rewrite Hsecret. eexists. split; [reflexivity | ].
  split; [ | repeat split].
  unfold cookie_of. cbn [cookie_store find fst]. rewrite String.eqb_refl. reflexivity.
Qed.


End ActionFacts.

Section ActionTheorems.
Import JsString JsCase Json Buffer Auth AuthSpec Login Mutate Actions.

(** X16: no catalog action runs for a request that is not
    authenticated.  When [isBackofficeAuthed] does not answer [true],
    each of the four catalog actions ends at the guard, with the
    redirect to [/backoffice?error=auth-required] or with the error that
    [isBackofficeAuthed] raised, and leaves the catalog, the cookies and
    the revalidated paths as they were. *)
Theorem actions_require_auth `{Host} `{ErrorText} (s : Server) (formData : FormData) :
  fst (isBackofficeAuthed (world s)) <> Ok true ->
  exists t,
    (t = Redirect "/backoffice?error=auth-required"
     \/ exists e, t = Raised e /\ fst (isBackofficeAuthed (world s)) = Throw e)
    /\ createCategoryAction formData s = (Stop t, s)
    /\ deleteCategoryAction formData s = (Stop t, s)
    /\ createProductAction formData s = (Stop t, s)
    /\ deleteProductAction formData s = (Stop t, s).
Proof.
  intros Hn. destruct (requireAuth_stops s Hn) as (t & Hstop & Ht).
  exists t. split; [exact Ht | ].
  unfold createCategoryAction, deleteCategoryAction, createProductAction,
    deleteProductAction, and_then.
  rewrite Hstop. repeat split.
Qed.

Lemma actions_require_auth_witness :
  exists t,
    (t = Redirect "/backoffice?error=auth-required"
     \/ exists e, t = Raised e /\ fst (isBackofficeAuthed (world anonymous)) = Throw e)
    /\ createCategoryAction (H := Examples.sample_host) (H0 := plain_text)
         (one_field "name" "Tea") anonymous
       = (Stop t, anonymous)
    /\ deleteCategoryAction (one_field "name" "Tea") anonymous = (Stop t, anonymous)
    /\ createProductAction (H := Examples.sample_host) (H0 := plain_text)
         (one_field "name" "Tea") anonymous
       = (Stop t, anonymous)
    /\ deleteProductAction (one_field "name" "Tea") anonymous = (Stop t, anonymous).
Proof.
  apply (actions_require_auth (H := Examples.sample_host) (H0 := plain_text)
           anonymous (one_field "name" "Tea")).
  vm_compute. discriminate.
Defined.

(** X17: [loginAction].  With [BACKOFFICE_PASSWORD] configured, a
    posted password with the digest of the configured one stores the
    session cookie and redirects to [/backoffice], and the guard of the
    catalog actions then lets the same client through; any other
    password redirects to [/backoffice?error=Invalid%20password.] and
    changes nothing.  With the variable unset or empty the action raises
    the missing-variable error and changes nothing. *)
Theorem loginAction_spec (s : Server) (formData : FormData) :
  (forall expected,
      process_env (world s) "BACKOFFICE_PASSWORD" = Some expected ->
      expected <> EmptyString ->
      (sha256 (field formData "password") = sha256 expected ->
       exists w',
         setBackofficeSessionCookie (world s) = (Ok tt, w')
         /\ loginAction formData s
            = (Stop (Redirect "/backoffice"), mkServer w' (revalidated s))
         /\ requireAuth (mkServer w' (revalidated s))
            = (Next tt, mkServer w' (revalidated s)))
      /\ (sha256 (field formData "password") <> sha256 expected ->
          loginAction formData s
          = (Stop (Redirect "/backoffice?error=Invalid%20password."), s)))
  /\ (unset "BACKOFFICE_PASSWORD" (world s) ->
      loginAction formData s
      = (Stop (Raised (Error "Missing required env var: BACKOFFICE_PASSWORD")), s)).
Proof.
  pose proof (verifyBackofficePassword_cases (world s) (field formData "password"))
    as (Hworld & Hset & Hunset).
  split.
  - intros expected Henv Hne. destruct (Hset expected Henv Hne) as (Hyes & Hno).
    split.
    + intros Hsame.
      destruct (sessionSecret_configured (world s) expected Henv Hne) as (secret & Hsecret).
      destruct (setBackofficeSessionCookie_run (world s) secret Hsecret)
        as (w' & Hrun & Hcookie & Hclock & Henv' & _).
      exists w'. split; [exact Hrun | ]. split.
      * unfold loginAction, and_then, await. rewrite (Hyes Hsame). cbn [negb].
        unfold act_ret. cbn [world revalidated]. rewrite Hrun. reflexivity.
      * apply requireAuth_passes. cbn [world].
        assert (Hsecret' : sessionSecret w' = (Ok secret, w')).
        { rewrite (sessionSecret_eq w'), (sessionSecret_env (world s) w' Henv'), Hsecret.
          reflexivity. }
        rewrite (issued_token_accepted w' secret (clock (world s) + SESSION_TTL_MS)
                   Hcookie Hsecret'); [reflexivity | ].
        rewrite Hclock. unfold SESSION_TTL_MS. lia.
    + intros Hdiff. unfold loginAction, and_then, await. rewrite (Hno Hdiff).
      cbn [negb]. unfold redirectWithError, redirect. rewrite server_eta. reflexivity.
  - intros Hu. unfold loginAction, and_then, await. rewrite (Hunset Hu), server_eta.
    reflexivity.
Qed.

Lemma loginAction_spec_witness :
  exists w',
    setBackofficeSessionCookie (world anonymous) = (Ok tt, w')
    /\ loginAction (one_field "password" "hunter2") anonymous
       = (Stop (Redirect "/backoffice"), mkServer w' (revalidated anonymous))
    /\ requireAuth (mkServer w' (revalidated anonymous))
       = (Next tt, mkServer w' (revalidated anonymous)).
Proof.
  refine (proj1 (proj1 (loginAction_spec anonymous (one_field "password" "hunter2"))
                   "hunter2" _ _) _).
  - reflexivity.
  - discriminate.
  - vm_compute. reflexivity.
Defined.

(** X18: [logoutAction] always redirects to [/backoffice]; it touches
    neither the catalog nor the revalidated paths, and afterwards the
    same client is stopped by the guard of every catalog action. *)
Theorem logoutAction_spec `{Host} `{ErrorText} (s : Server) (formData : FormData) :
  exists s',
    logoutAction s = (Stop (Redirect "/backoffice"), s')
    /\ revalidated s' = revalidated s
    /\ catalog_json (world s') = catalog_json (world s)
    /\ createCategoryAction formData s'
       = (Stop (Redirect "/backoffice?error=auth-required"), s')
    /\ deleteCategoryAction formData s'
       = (Stop (Redirect "/backoffice?error=auth-required"), s')
    /\ createProductAction formData s'
       = (Stop (Redirect "/backoffice?error=auth-required"), s')
    /\ deleteProductAction formData s'
       = (Stop (Redirect "/backoffice?error=auth-required"), s').
Proof.
  destruct (cleared_session_run (world s)) as (w' & Hclear & Hauth & Hfile).
  exists (mkServer w' (revalidated s)).
  assert (Hstop : requireAuth (mkServer w' (revalidated s))
                  = (Stop (Redirect "/backoffice?error=auth-required"),
                     mkServer w' (revalidated s))).
  { apply requireAuth_refuses. cbn [world]. now rewrite Hauth. }
  split.
  { unfold logoutAction, and_then, await. rewrite Hclear. reflexivity. }
  split; [reflexivity | ]. split; [exact Hfile | ].
  unfold createCategoryAction, deleteCategoryAction, createProductAction,
    deleteProductAction, and_then.
  rewrite Hstop. repeat split.
Qed.



(** X20: the delete actions of an authenticated client.  A form
    without an [id], or with an empty one, is answered with the redirect
    to the missing-id message and nothing is read or written.  Otherwise
    the action calls the delete; when that returns, also for an id that
    was not there, it revalidates [/] and [/backoffice] and redirects to
    [/backoffice]; when the delete throws, the error leaves the action
    as it is, and nothing is revalidated. *)
Theorem delete_actions_spec (s : Server) (formData : FormData) :
  fst (isBackofficeAuthed (world s)) = Ok true ->
  (field formData "id" = EmptyString ->
     deleteCategoryAction formData s
     = (Stop (Redirect "/backoffice?error=Missing%20category%20id."), s)
     /\ deleteProductAction formData s
        = (Stop (Redirect "/backoffice?error=Missing%20product%20id."), s))
  /\ (field formData "id" <> EmptyString ->
      (forall w',
          deleteCategory (field formData "id") (world s) = (Ok tt, w') ->
          deleteCategoryAction formData s
          = (Stop (Redirect "/backoffice"),
             mkServer w' (revalidated s ++ ["/"; "/backoffice"])))
      /\ (forall e w',
            deleteCategory (field formData "id") (world s) = (Throw e, w') ->
            deleteCategoryAction formData s
            = (Stop (Raised e), mkServer w' (revalidated s)))
      /\ (forall w',
            deleteProduct (field formData "id") (world s) = (Ok tt, w') ->
            deleteProductAction formData s
            = (Stop (Redirect "/backoffice"),
               mkServer w' (revalidated s ++ ["/"; "/backoffice"])))
      /\ (forall e w',
            deleteProduct (field formData "id") (world s) = (Throw e, w') ->
            deleteProductAction formData s
            = (Stop (Raised e), mkServer w' (revalidated s)))).
Proof.
  intros Ha. pose proof (requireAuth_passes s Ha) as Hpass.
  unfold deleteCategoryAction, deleteProductAction, and_then, await. rewrite Hpass.
  split.
  - intros ->. cbn [falsy]. split; reflexivity.
  - intros Hne. destruct (field formData "id") as [ | c0 r0] eqn:Hid; [congruence | ].
    cbn [falsy]. unfold act_ret.
    split; [ | split; [ | split]].
    + intros w' Hrun. rewrite Hrun. unfold refresh, and_then, revalidatePath, redirect.
      cbn [world revalidated]. rewrite <- app_assoc. reflexivity.
    + intros e w' Hrun. rewrite Hrun. reflexivity.
    + intros w' Hrun. rewrite Hrun. unfold refresh, and_then, revalidatePath, redirect.
      cbn [world revalidated]. rewrite <- app_assoc. reflexivity.
    + intros e w' Hrun. rewrite Hrun. reflexivity.
Qed.

Lemma delete_actions_spec_witness :
  deleteCategoryAction (one_field "name" "Tea") logged_in
  = (Stop (Redirect "/backoffice?error=Missing%20category%20id."), logged_in)
  /\ deleteProductAction (one_field "name" "Tea") logged_in
     = (Stop (Redirect "/backoffice?error=Missing%20product%20id."), logged_in).
Proof.
  refine (proj1 (delete_actions_spec logged_in (one_field "name" "Tea") _) _).
  - vm_compute. reflexivity.
  - reflexivity.
Defined.


End ActionTheorems.

(** ** From the backoffice to the public page *)

Section Published.
Import JsString JsCase Json Store Mutate MutationSpec Verdicts Query JsArray Consistency.

Lemma getPublicCatalog_run `{Host} (w : World) (cat : CatalogData) :
  readCatalogData w = (Ok cat, w) ->
  getPublicCatalog w
  = (Ok (sort (fun a b => localeCompare (Category.name a) (Category.name b))
           (categories cat),
         sort (fun a b => localeCompare (Product.createdAt b) (Product.createdAt a))
           (filter (fun p =>
                      has (map Category.id
                             (sort (fun a b => localeCompare (Category.name a)
                                                 (Category.name b))
                                (categories cat)))
                        (Product.categoryId p))
              (products cat))), w).
Proof. intros Hread. unfold getPublicCatalog. run. rewrite Hread. reflexivity. Qed.

(** X22: what a create call returns is on the public page.  After
    [createCategory] returns, [getPublicCatalog] lists the new category;
    after [createProduct] returns, it lists the new product, whose
    category is in the catalog.  Neither read throws. *)
Theorem created_records_are_published `{Host} (w : World) :
  (forall nameRaw c w',
      createCategory nameRaw w = (Ok c, w') ->
      exists cs ps, getPublicCatalog w' = (Ok (cs, ps), w') /\ In c cs)
  /\ (forall i p w',
        createProduct i w = (Ok p, w') ->
        exists cs ps,
          getPublicCatalog w' = (Ok (cs, ps), w')
          /\ In p ps /\ In (Product.categoryId p) (map Category.id cs)).
Proof.
  split.
  - intros nameRaw c w' Hrun.
    destruct (createCategory_ok nameRaw w w' c Hrun) as (cat & n & Hread & -> & _ & _).
    assert (Hv : version (with_category c cat) = 1)
      by (change (version cat = 1); apply (read_version w); now rewrite Hread).
    eexists _, _. split.
    + apply getPublicCatalog_run. apply read_persisted. exact Hv.
    + apply (Permutation_in c (Permutation_sym (sort_perm _ _))).
      cbn [with_category categories]. apply in_or_app. right. now left.
  - intros i p w' Hrun.
    destruct (createProduct_ok i w w' p Hrun) as (cat & n & Hread & -> & _ & Hknown & _).
    assert (Hv : version (with_product p cat) = 1)
      by (change (version cat = 1); apply (read_version w); now rewrite Hread).
    assert (Hid : In (Product.categoryId p)
                    (map Category.id
                       (sort (fun a b => localeCompare (Category.name a) (Category.name b))
                          (categories (with_product p cat))))).
    { apply (Permutation_in _ (Permutation_map Category.id
                                 (Permutation_sym (sort_perm _ _)))).
      cbn [with_product categories]. now apply known_in_ids. }
    eexists _, _. split; [ | split].
    + apply getPublicCatalog_run. apply read_persisted. exact Hv.
    + apply (Permutation_in p (Permutation_sym (sort_perm _ _))).
      apply filter_In. split.
      * cbn [with_product products]. apply in_or_app. right. now left.
      * apply has_true_iff. exact Hid.
    + exact Hid.
Qed.

End Published.
